(** * RAG translation pipeline (backend/translation/rag_translator.py)

    A shallow embedding of the retrieval-augmented translation module: the
    chunker, the embedder, the vector store, the generator client with its
    retry loop, the LRU translation cache, the quality checks, and the
    orchestrator in its blocking and streaming forms, followed by the
    properties of the written specification stated against that embedding.

    Conventions.
    - A Python [str] is a list of Unicode code points ([pystr]).  [lower] is
      exact on text whose cased letters are ASCII; [\d] and [int()] are taken
      on ASCII digits.  A property whose statement depends on either carries
      the hypothesis [ascii_cased] or [plain_numbers] on the text.
    - Python integers are [Z]; lengths and slice bounds are [nat] where the
      source can only produce a natural number.
    - Wall-clock time is an integer number of milliseconds carried in the
      [World]; [time.sleep] advances it.
    - The HTTP endpoint, Python's salted [hash] and [hashlib.md5] are inputs of
      the model (section variables), never assumed to have a particular value.
    - A Python exception that escapes a function is the [Raise] result.
    - Left out: the progress callback of [translate_document], the
      percentage and the status line of a progress event, the float
      [hit_rate] of the cache statistics, and [PRESERVE_TERMS], a constant
      that nothing reads.

    The first part of the properties settles the statements of the written
    specification; the last part, "Further properties of the code", states
    what the code shows beyond them.  The statement on the size of the
    chunks stands in the last part, after the lemmas on the sentences of a
    document that it shares with the further properties of the chunker. *)

From Stdlib Require Import List ZArith NArith Lia Bool Ascii Reals Lra Psatz
  Sorted Permutation.
From Stdlib Require String.
Import ListNotations.
Import String.StringSyntax.
Delimit Scope string_scope with string.

Set Implicit Arguments.

(* ================================================================== *)
(** ** Python strings                                                   *)
(* ================================================================== *)

Module Py.

Definition pystr := list N.

(** UTF-8 decoding of the bytes of a literal, so that a literal of this file
    denotes the same code points as the literal of the Python source. *)
Fixpoint utf8_decode (pending : nat) (acc : N) (bs : list N) : list N :=
  match bs with
  | [] => []
  | b :: bs' =>
      if (b <? 128)%N then b :: utf8_decode 0 0%N bs'
      else if (b <? 192)%N then
        let acc' := (acc * 64 + (b - 128))%N in
        match pending with
        | 0 => utf8_decode 0 0%N bs'
        | 1 => acc' :: utf8_decode 0 0%N bs'
        | S p => utf8_decode p acc' bs'
        end
      else if (b <? 224)%N then utf8_decode 1 (b - 192)%N bs'
      else if (b <? 240)%N then utf8_decode 2 (b - 224)%N bs'
      else utf8_decode 3 (b - 240)%N bs'
  end.

(** A string literal as a Python string. *)
Definition lit (s : String.string) : pystr :=
  utf8_decode 0 0%N (map N_of_ascii (String.list_ascii_of_string s)).
Arguments lit s%_string : simpl never.

Definition len (s : pystr) : Z := Z.of_nat (length s).

(** [len] of a Python list. *)
Definition len_list {A : Type} (l : list A) : Z := Z.of_nat (length l).

Fixpoint eqb (a b : pystr) : bool :=
  match a, b with
  | [], [] => true
  | x :: a', y :: b' => N.eqb x y && eqb a' b'
  | _, _ => false
  end.

(** [str.isspace] on one code point (CPython's [_PyUnicode_IsWhitespace]);
    the regular expression class [\s] is the same set. *)
Definition isspace (c : N) : bool :=
  ((9 <=? c) && (c <=? 13) || (28 <=? c) && (c <=? 32)
   || (c =? 133) || (c =? 160) || (c =? 5760)
   || (8192 <=? c) && (c <=? 8202)
   || (c =? 8232) || (c =? 8233) || (c =? 8239) || (c =? 8287)
   || (c =? 12288))%N.

Definition isdigit (c : N) : bool := ((48 <=? c) && (c <=? 57))%N.

Definition lower_char (c : N) : N :=
  if ((65 <=? c) && (c <=? 90))%N then (c + 32)%N else c.

Definition lower (s : pystr) : pystr := map lower_char s.

Fixpoint lstrip (s : pystr) : pystr :=
  match s with
  | c :: s' => if isspace c then lstrip s' else s
  | [] => []
  end.

Definition rstrip (s : pystr) : pystr := rev (lstrip (rev s)).

Definition strip (s : pystr) : pystr := rstrip (lstrip s).

(** The string is empty or made of whitespace only. *)
Definition blank (s : pystr) : bool := forallb isspace s.

(** Truth value of a string: [if s:]. *)
Definition truthy (s : pystr) : bool :=
  match s with [] => false | _ => true end.

(** Truth value of an [Optional[str]]: [None] and the empty string are false. *)
Definition truthy_opt (o : option pystr) : bool :=
  match o with Some s => truthy s | None => false end.

(** [s[:k]], [s[k:]] and, for [k > 0], [s[-k:]]. *)
Definition prefix (k : nat) (s : pystr) : pystr := firstn k s.
Definition drop (k : nat) (s : pystr) : pystr := skipn k s.
Definition suffix (k : nat) (s : pystr) : pystr := skipn (length s - k) s.

(** [s.split()]: the maximal runs of non-whitespace characters. *)
Fixpoint split_acc (cur : pystr) (s : pystr) : list pystr :=
  match s with
  | [] => match cur with [] => [] | _ => [rev cur] end
  | c :: s' =>
      if isspace c
      then match cur with
           | [] => split_acc [] s'
           | _ => rev cur :: split_acc [] s'
           end
      else split_acc (c :: cur) s'
  end.

Definition split (s : pystr) : list pystr := split_acc [] s.

Fixpoint startswith (p s : pystr) : bool :=
  match p, s with
  | [], _ => true
  | x :: p', y :: s' => N.eqb x y && startswith p' s'
  | _ :: _, [] => false
  end.

(** [needle in s]. *)
Fixpoint contains (needle s : pystr) : bool :=
  startswith needle s ||
  match s with
  | [] => false
  | _ :: s' => contains needle s'
  end.

(** [int(s)] on a run of ASCII digits. *)
Definition int_of_digits (s : pystr) : Z :=
  fold_left (fun acc c => (10 * acc + (Z.of_N c - 48))%Z) s 0%Z.

(** Where the conventions on letter case and digits are exact.  Outside
    ASCII, the characters of the Arabic block (U+0600 to U+06FF) and of the
    Devanagari block (U+0900 to U+097F) have no letter case, and their
    decimal digits are U+0660 to U+0669, U+06F0 to U+06F9 and U+0966 to
    U+096F. *)
Definition is_ascii (c : N) : bool := (c <? 128)%N.

Definition arabic_or_devanagari (c : N) : bool :=
  ((1536 <=? c) && (c <=? 1791) || (2304 <=? c) && (c <=? 2431))%N.

Definition native_digit (c : N) : bool :=
  ((1632 <=? c) && (c <=? 1641) || (1776 <=? c) && (c <=? 1785)
   || (2406 <=? c) && (c <=? 2415))%N.

(** A text on which [str.lower] is [lower]: ASCII, Arabic-script and
    Devanagari characters only, so that every cased letter is ASCII. *)
Definition ascii_cased (s : pystr) : bool :=
  forallb (fun c => is_ascii c || arabic_or_devanagari c) s.

(** A text on which [\d] is [isdigit]: ASCII, Arabic-script and Devanagari
    characters only, without the digits of these scripts, so that every
    decimal digit is ASCII. *)
Definition ascii_numbered (s : pystr) : bool :=
  forallb
    (fun c => is_ascii c || arabic_or_devanagari c && negb (native_digit c))
    s.

(** No run of more than [limit] digits, [run] digits standing just before
    [s]. *)
Fixpoint digit_runs_within (limit run : Z) (s : pystr) : bool :=
  match s with
  | [] => true
  | c :: s' =>
      if isdigit c
      then (run + 1 <=? limit)%Z && digit_runs_within limit (run + 1) s'
      else digit_runs_within limit 0 s'
  end.

(** A text whose numbers [\d+] and [int()] read as [isdigit] and
    [int_of_digits] do: its decimal digits are ASCII, and no number has more
    than the 4300 digits beyond which [int()] raises [ValueError]. *)
Definition plain_numbers (s : pystr) : bool :=
  ascii_numbered s && digit_runs_within 4300 0 s.

(** A Python call either returns or raises; [str(e)] is kept. *)
Inductive result (A : Type) : Type :=
| Ok (a : A)
| Raise (exn : pystr).
Arguments Ok {A} a.
Arguments Raise {A} exn.

End Py.

Import Py.

(* ================================================================== *)
(** ** Configuration                                                    *)
(* ================================================================== *)

Definition CHUNK_SIZE : Z := 1200.
Definition OVERLAP_SIZE : Z := 150.
Definition MAX_RETRIES : nat := 3.
Definition CACHE_SIZE : Z := 100.

(* ================================================================== *)
(** ** collections.OrderedDict with string keys                         *)
(* ================================================================== *)

Module OrderedDict.
Section Dict.
Variable V : Type.

(** Entries in insertion order, keys pairwise distinct. *)
Definition t := list (pystr * V).

Fixpoint contains_key (k : pystr) (d : t) : bool :=
  match d with
  | [] => false
  | (k', _) :: d' => Py.eqb k k' || contains_key k d'
  end.

Fixpoint getitem (k : pystr) (d : t) : option V :=
  match d with
  | [] => None
  | (k', v) :: d' => if Py.eqb k k' then Some v else getitem k d'
  end.

Fixpoint delitem (k : pystr) (d : t) : t :=
  match d with
  | [] => []
  | (k', v) :: d' => if Py.eqb k k' then d' else (k', v) :: delitem k d'
  end.

(** [d[k] = v]: an existing key keeps its position, a new key goes last. *)
Fixpoint setitem (k : pystr) (v : V) (d : t) : t :=
  match d with
  | [] => [(k, v)]
  | (k', v') :: d' =>
      if Py.eqb k k' then (k', v) :: d' else (k', v') :: setitem k v d'
  end.

(** [d.move_to_end(k)] for a key that is present. *)
Definition move_to_end (k : pystr) (d : t) : t :=
  match getitem k d with
  | Some v => delitem k d ++ [(k, v)]
  | None => d
  end.

(** [d.popitem(last=False)]: [None] stands for the [KeyError] on an empty
    dictionary. *)
Definition popitem_first (d : t) : option ((pystr * V) * t) :=
  match d with
  | [] => None
  | e :: d' => Some (e, d')
  end.

Definition keys (d : t) : list pystr := map fst d.

End Dict.
End OrderedDict.

(* ================================================================== *)
(** ** 9. Caching layer: TranslationCache                               *)
(* ================================================================== *)

Module TranslationCache.
Section Cache.
(** The cached value type ([Optional[str]] in the pipeline). *)
Variable V : Type.
(** [hashlib.md5(text.encode('utf-8')).hexdigest()]. *)
Variable md5_hexdigest : pystr -> pystr.

Record t := mk {
  cache : OrderedDict.t V;
  max_size : Z;
  hits : Z;
  misses : Z
}.

(** [TranslationCache(max_size)]. *)
Definition init (max_size : Z) : t := mk [] max_size 0 0.

Definition _hash_key (text : pystr) : pystr := md5_hexdigest text.

Definition size (c : t) : Z := Z.of_nat (length (cache c)).

Definition get (c : t) (text : pystr) : option V * t :=
  let key := _hash_key text in
  if OrderedDict.contains_key key (cache c) then
    let d := OrderedDict.move_to_end key (cache c) in
    (OrderedDict.getitem key d,
     mk d (max_size c) (hits c + 1) (misses c))
  else (None, mk (cache c) (max_size c) (hits c) (misses c + 1)).

Definition set (c : t) (text : pystr) (translation : V) : result t :=
  let key := _hash_key text in
  if (max_size c <=? size c)%Z then
    match OrderedDict.popitem_first (cache c) with
    | None => Raise (lit "'dictionary is empty'")
    | Some (_, d) =>
        Ok (mk (OrderedDict.setitem key translation d)
               (max_size c) (hits c) (misses c))
    end
  else
    Ok (mk (OrderedDict.setitem key translation (cache c))
           (max_size c) (hits c) (misses c)).

(** The integer part of [get_stats] ([hit_rate] is [hits / (hits + misses)],
    a float, or [0] before any lookup). *)
Record stats := mk_stats {
  stat_size : Z;
  stat_hits : Z;
  stat_misses : Z
}.

Definition get_stats (c : t) : stats :=
  mk_stats (size c) (hits c) (misses c).

(** One call on the cache object.  A [set] that raises leaves the object as
    it was. *)
Inductive call : Type :=
| CallGet (text : pystr)
| CallSet (text : pystr) (translation : V).

Definition after_call (c : t) (op : call) : t :=
  match op with
  | CallGet text => snd (get c text)
  | CallSet text translation =>
      match set c text translation with
      | Ok c' => c'
      | Raise _ => c
      end
  end.

Definition after_calls (c : t) (ops : list call) : t :=
  fold_left after_call ops c.

(** Vocabulary for the recency order.  [last_use ops k] is the position
    (from 1) of the last call of [ops] on the key [k], or 0 when there is
    none. *)
Definition call_key (op : call) : pystr :=
  match op with
  | CallGet text => _hash_key text
  | CallSet text _ => _hash_key text
  end.

Fixpoint last_use_rev (rops : list call) (k : pystr) : nat :=
  match rops with
  | [] => 0
  | op :: r =>
      if Py.eqb (call_key op) k then S (length r) else last_use_rev r k
  end.

Definition last_use (ops : list call) (k : pystr) : nat :=
  last_use_rev (rev ops) k.

(** Every [set] of the run stores a text that is not cached at that moment,
    as when each [set] follows a [get] that missed. *)
Fixpoint sets_follow_misses (c : t) (ops : list call) : Prop :=
  match ops with
  | [] => True
  | op :: rest =>
      match op with
      | CallSet text _ =>
          OrderedDict.contains_key (_hash_key text) (cache c) = false
      | CallGet _ => True
      end /\ sets_follow_misses (after_call c op) rest
  end.

Definition entry (kv : pystr * V) : pystr * V :=
  (_hash_key (fst kv), snd kv).

Definition set_all (kvs : list (pystr * V)) : list call :=
  map (fun kv => CallSet (fst kv) (snd kv)) kvs.

End Cache.
End TranslationCache.

(* ================================================================== *)
(** ** 1. Data source: DocumentChunk                                    *)
(* ================================================================== *)

Module DocumentChunk.

Record t := mk {
  id : Z;
  text : pystr;
  start_pos : Z;
  end_pos : Z;
  page_number : option Z;
  embedding : option (list R);
  metadata : list (pystr * pystr)
}.

Definition with_embedding (c : t) (e : list R) : t :=
  mk (id c) (text c) (start_pos c) (end_pos c) (page_number c) (Some e)
     (metadata c).

End DocumentChunk.

(* ================================================================== *)
(** ** 2. Embeddings: SimpleEmbedder                                    *)
(* ================================================================== *)

Module SimpleEmbedder.
Section Embedder.
(** Python's built-in [hash] on strings (salted per process). *)
Variable hash : pystr -> Z.

(** [[0.0] * dim]. *)
Definition zeros (dim : Z) : list R := repeat 0%R (Z.to_nat dim).

(** [[text[i:i+3] for i in range(len(text)-2)]]. *)
Definition trigrams (text : pystr) : list pystr :=
  map (fun i => firstn 3 (skipn i text)) (seq 0 (length text - 2)).

(** [vector[idx] += w], for an index inside the list. *)
Fixpoint add_at (idx : nat) (w : R) (vector : list R) : list R :=
  match vector, idx with
  | [], _ => []
  | x :: v', O => (x + w)%R :: v'
  | x :: v', S i => x :: add_at i w v'
  end.

(** [hash(s) % dim] as a list index, for [0 < dim]. *)
Definition bucket (dim : Z) (s : pystr) : nat := Z.to_nat (hash s mod dim).

Definition accumulate (dim : Z) (w : R) (items : list pystr)
  (vector : list R) : list R :=
  fold_left (fun v s => add_at (bucket dim s) w v) items vector.

Definition sum_squares (vector : list R) : R :=
  fold_right (fun x acc => (x * x + acc)%R) 0%R vector.

(** [math.sqrt(sum(x*x for x in vector)) or 1.0]. *)
Definition magnitude (vector : list R) : R :=
  let m := sqrt (sum_squares vector) in
  if Req_dec_T m 0%R then 1%R else m.

(** [embed], for an embedder built with [0 < dim] (with [dim <= 0] the source
    raises as soon as a trigram or a word is hashed).  Float arithmetic is
    read in the real numbers. *)
Definition embed (dim : Z) (text : pystr) : list R :=
  if negb (truthy text) then zeros dim
  else
    let text := strip (lower text) in
    let vector := zeros dim in
    let vector := accumulate dim 1%R (trigrams text) vector in
    let vector := accumulate dim (1 / 2)%R (split text) vector in
    let m := magnitude vector in
    map (fun x => (x / m)%R) vector.

Definition norm (vector : list R) : R := sqrt (sum_squares vector).

(** [similarity]: [sum(a * b for a, b in zip(vec1, vec2))]; [zip] stops at
    the end of the shorter vector. *)
Definition similarity (vec1 vec2 : list R) : R :=
  fold_left (fun acc ab => (acc + fst ab * snd ab)%R) (combine vec1 vec2) 0%R.

End Embedder.
End SimpleEmbedder.

(* ================================================================== *)
(** ** 3. Vector database: InMemoryVectorStore                          *)
(* ================================================================== *)

Module InMemoryVectorStore.
Section Store.
(** [self.embedder.embed]. *)
Variable embed : pystr -> list R.

Record t := mk {
  chunks : list DocumentChunk.t;
  index_built : bool
}.

Definition init : t := mk [] false.

Definition embed_chunk (c : DocumentChunk.t) : DocumentChunk.t :=
  match DocumentChunk.embedding c with
  | None => DocumentChunk.with_embedding c (embed (DocumentChunk.text c))
  | Some _ => c
  end.

(** [add_chunks].  The source writes the embedding into the chunk object
    itself, which the caller's list shares; the orchestrator reads only the
    [id] and the [text] of its chunks afterwards. *)
Definition add_chunks (s : t) (cs : list DocumentChunk.t) : t :=
  mk (fold_left (fun acc c => acc ++ [embed_chunk c]) cs (chunks s)) true.

Definition clear (s : t) : t := mk [] false.

(** The score of one chunk in [search].  A chunk without an embedding makes
    [zip] raise a [TypeError] (its text depends on the interpreter). *)
Definition score (query_embedding : list R) (c : DocumentChunk.t)
  : result (DocumentChunk.t * R) :=
  match DocumentChunk.embedding c with
  | Some e => Ok (c, SimpleEmbedder.similarity query_embedding e)
  | None => Raise (lit "'NoneType' object is not iterable")
  end.

(** The loop [for chunk in self.chunks] of [search]. *)
Fixpoint scores (query_embedding : list R) (cs : list DocumentChunk.t)
  (results : list (DocumentChunk.t * R))
  : result (list (DocumentChunk.t * R)) :=
  match cs with
  | [] => Ok results
  | c :: cs' =>
      match score query_embedding c with
      | Ok r => scores query_embedding cs' (results ++ [r])
      | Raise e => Raise e
      end
  end.

(** [results.sort(key=lambda x: x[1], reverse=True)]: the sort is stable,
    results of equal score keep their order. *)
Fixpoint insert_by_score (x : DocumentChunk.t * R)
  (sorted : list (DocumentChunk.t * R)) : list (DocumentChunk.t * R) :=
  match sorted with
  | [] => [x]
  | y :: sorted' =>
      if Rlt_dec (snd x) (snd y) then y :: insert_by_score x sorted'
      else x :: sorted
  end.

Definition sort_by_score (results : list (DocumentChunk.t * R))
  : list (DocumentChunk.t * R) :=
  fold_right insert_by_score [] results.

(** [l[:k]] for an integer [k] of either sign. *)
Definition slice_to {A : Type} (k : Z) (l : list A) : list A :=
  if (k <? 0)%Z then firstn (length l - Z.to_nat (- k)) l
  else firstn (Z.to_nat k) l.

Definition search (s : t) (query : pystr) (top_k : Z)
  : result (list (DocumentChunk.t * R)) :=
  match chunks s with
  | [] => Ok []
  | _ =>
      let query_embedding := embed query in
      match scores query_embedding (chunks s) [] with
      | Ok results => Ok (slice_to top_k (sort_by_score results))
      | Raise e => Raise e
      end
  end.

End Store.
End InMemoryVectorStore.

(* ================================================================== *)
(** ** 4. Retriever: TranslationRetriever                               *)
(* ================================================================== *)

Definition SIMILARITY_THRESHOLD : R := (7 / 10)%R.

Module TranslationRetriever.

(** [sep.join(parts)]. *)
Fixpoint join (sep : pystr) (parts : list pystr) : pystr :=
  match parts with
  | [] => []
  | [x] => x
  | x :: rest => x ++ sep ++ join sep rest
  end.

(** [get_translation_context].  [next(..., None)] is the first chunk of
    [all_chunks] with the preceding id; a chunk object is always true. *)
Definition get_translation_context (chunk : DocumentChunk.t)
  (all_chunks : list DocumentChunk.t) : pystr :=
  let context_parts := [] in
  let context_parts :=
    if (0 <? DocumentChunk.id chunk)%Z then
      match find (fun c => (DocumentChunk.id c =? DocumentChunk.id chunk - 1)%Z)
              all_chunks with
      | Some prev_chunk =>
          context_parts ++ [suffix 100 (DocumentChunk.text prev_chunk)]
      | None => context_parts
      end
    else context_parts in
  let context_parts := context_parts ++ [DocumentChunk.text chunk] in
  join (lit " ") context_parts.

Section Retriever.
Variable embed : pystr -> list R.

(** [retrieve_similar] on the vector store the retriever was built with. *)
Definition retrieve_similar (vector_store : InMemoryVectorStore.t)
  (query : pystr) (top_k : Z) : result (list DocumentChunk.t) :=
  match InMemoryVectorStore.search embed vector_store query top_k with
  | Ok results =>
      Ok (map fst
            (filter
               (fun r =>
                  if Rlt_dec SIMILARITY_THRESHOLD (snd r) then true else false)
               results))
  | Raise e => Raise e
  end.

End Retriever.
End TranslationRetriever.

(* ================================================================== *)
(** ** 5. Chunking strategy: SmartChunker                               *)
(* ================================================================== *)

Module SmartChunker.

(** The longest run of decimal digits at the start of [s], and what follows. *)
Fixpoint span_digits (s : pystr) : pystr * pystr :=
  match s with
  | c :: s' =>
      if isdigit c
      then let (ds, rest) := span_digits s' in (c :: ds, rest)
      else ([], s)
  | [] => ([], [])
  end.

(** A match of [--- Page \d+ ---] at the start of [s]: the matched text and
    its digits.  The digit run is followed by a space, so the greedy [\d+]
    never gives a digit back. *)
Definition match_page_marker (s : pystr) : option (pystr * pystr) :=
  if startswith (lit "--- Page ") s then
    let (ds, rest) := span_digits (skipn 9 s) in
    match ds with
    | [] => None
    | _ =>
        if startswith (lit " ---") rest
        then Some (lit "--- Page " ++ ds ++ lit " ---", ds)
        else None
    end
  else None.

(** [re.split(r'(--- Page \d+ ---)', text)]: the text between the matches,
    interleaved with the matches.  [skip] counts the characters of a match
    still to be passed over, [cur] is the text since the last match,
    reversed. *)
Fixpoint split_pages (skip : nat) (cur : pystr) (s : pystr) : list pystr :=
  match s with
  | [] => [rev cur]
  | c :: s' =>
      match skip with
      | S k => split_pages k cur s'
      | O =>
          match match_page_marker s with
          | Some (m, _) => rev cur :: m :: split_pages (length m - 1) [] s'
          | None => split_pages 0 (c :: cur) s'
          end
      end
  end.

(** The first [Page (\d+)] inside [part], as [re.search] finds it. *)
Fixpoint search_page_number (part : pystr) : option pystr :=
  match part with
  | [] => None
  | _ :: part' =>
      if startswith (lit "Page ") part then
        match fst (span_digits (skipn 5 part)) with
        | [] => search_page_number part'
        | ds => Some ds
        end
      else search_page_number part'
  end.

(** [page_positions[start_pos] = page] on an insertion-ordered dict. *)
Fixpoint dict_set (k v : Z) (d : list (Z * Z)) : list (Z * Z) :=
  match d with
  | [] => [(k, v)]
  | (k', v') :: d' =>
      if (k =? k')%Z then (k', v) :: d' else (k', v') :: dict_set k v d'
  end.

Record pages := mk_pages {
  current_page : Z;
  full_text : pystr;
  page_positions : list (Z * Z)
}.

(** The body of [for part in parts]. *)
Definition scan_part (st : pages) (part : pystr) : pages :=
  match match_page_marker part with
  | Some _ =>
      match search_page_number part with
      | Some ds =>
          mk_pages (int_of_digits ds) (full_text st) (page_positions st)
      | None => st
      end
  | None =>
      let start_pos := len (full_text st) in
      mk_pages (current_page st) (full_text st ++ part)
               (dict_set start_pos (current_page st) (page_positions st))
  end.

Definition scan_parts (parts : list pystr) : pages :=
  fold_left scan_part parts (mk_pages 1 [] []).

(** The characters after which whitespace separates two sentences:
    [. ! ?] and the danda and double danda (U+0964, U+0965). *)
Definition is_sentence_end (c : N) : bool :=
  ((c =? 46) || (c =? 33) || (c =? 63) || (c =? 2404) || (c =? 2405))%N.

(** [re.split(r'(?<=[.!?।॥])\s+', text)].  [cur] is the current piece
    reversed, [prev_end] says that the previous character ends a sentence,
    [in_sep] that a separating run of whitespace is being passed over. *)
Fixpoint split_at_sentence_ends (cur : pystr) (prev_end in_sep : bool)
  (s : pystr) : list pystr :=
  match s with
  | [] => [rev cur]
  | c :: s' =>
      if isspace c then
        if in_sep then split_at_sentence_ends cur false true s'
        else if prev_end
             then rev cur :: split_at_sentence_ends [] false true s'
             else split_at_sentence_ends (c :: cur) false false s'
      else split_at_sentence_ends (c :: cur) (is_sentence_end c) false s'
  end.

Definition _split_into_sentences (text : pystr) : list pystr :=
  map strip
    (filter (fun s => truthy (strip s))
       (split_at_sentence_ends [] false false text)).

(** The page of a chunk: the loop [for pos, page in page_positions.items()]. *)
Definition page_at (page_positions : list (Z * Z)) (current_start : Z) : Z :=
  fold_left
    (fun page_num '(pos, page) =>
       if (pos <=? current_start)%Z then page else page_num)
    page_positions 1%Z.

Record state := mk_state {
  chunks : list DocumentChunk.t;
  current_chunk : pystr;
  current_start : Z;
  chunk_id : Z
}.

Definition space : pystr := lit " ".

(** The chunk made of the running buffer. *)
Definition make_chunk (pp : list (Z * Z)) (st : state) : DocumentChunk.t :=
  DocumentChunk.mk (chunk_id st) (strip (current_chunk st))
    (current_start st) (current_start st + len (current_chunk st))
    (Some (page_at pp (current_start st))) None [].

(** [if current_chunk.strip(): chunks.append(...); chunk_id += 1]. *)
Definition flush (pp : list (Z * Z)) (st : state) : state :=
  if truthy (strip (current_chunk st)) then
    mk_state (chunks st ++ [make_chunk pp st]) (current_chunk st)
             (current_start st) (chunk_id st + 1)
  else st.

(** The body of [for sentence in sentences]. *)
Definition add_sentence (chunk_size overlap : Z) (pp : list (Z * Z))
  (st : state) (sentence : pystr) : state :=
  if (len (current_chunk st) + len sentence <=? chunk_size)%Z then
    mk_state (chunks st) (current_chunk st ++ sentence ++ space)
             (current_start st) (chunk_id st)
  else
    let st := flush pp st in
    match last (map Some (chunks st)) None with
    | Some prev =>
        if (0 <? overlap)%Z then
          let overlap_text :=
            suffix (Z.to_nat overlap) (DocumentChunk.text prev) in
          mk_state (chunks st) (overlap_text ++ space ++ sentence ++ space)
                   (DocumentChunk.end_pos prev - overlap) (chunk_id st)
        else
          mk_state (chunks st) (sentence ++ space)
                   (DocumentChunk.end_pos prev) (chunk_id st)
    | None => mk_state (chunks st) (sentence ++ space) 0 (chunk_id st)
    end.

Definition chunk_sentences (chunk_size overlap : Z) (pp : list (Z * Z))
  (sentences : list pystr) : list DocumentChunk.t :=
  chunks
    (flush pp
       (fold_left (add_sentence chunk_size overlap pp) sentences
          (mk_state [] [] 0 0))).

(** The sentences of a document: the page markers are taken out, the
    rest is split. *)
Definition document_sentences (text : pystr) : list pystr :=
  _split_into_sentences (full_text (scan_parts (split_pages 0 [] text))).

Definition chunk_document (text : pystr) (chunk_size overlap : Z)
  : list DocumentChunk.t :=
  if negb (truthy text) || negb (truthy (strip text)) then []
  else
    let pg := scan_parts (split_pages 0 [] text) in
    chunk_sentences chunk_size overlap (page_positions pg)
      (_split_into_sentences (full_text pg)).

End SmartChunker.

(* ================================================================== *)
(** ** 6. Prompt engineering: PromptTemplates                           *)
(* ================================================================== *)

Module PromptTemplates.

(** [TRANSLATION_PROMPT], cut at its three fields. *)
Definition TRANSLATION_PROMPT_1 : pystr := lit "You are an expert translator specializing in South Asian land records and legal documents.

TASK: Translate the following ".
Definition TRANSLATION_PROMPT_2 : pystr := lit " text to ".
Definition TRANSLATION_PROMPT_3 : pystr := lit ".

IMPORTANT GUIDELINES:
1. Preserve all numbers, dates, and measurements exactly
2. Keep proper nouns (names, places) in original form with transliteration
3. Use standard English equivalents for these terms:
   - کھسرا/खसरा = Khasra (plot number)
   - جماع بندی/जमाबंदी = Jamabandi (record of rights)
   - پٹواری/पटवारी = Patwari (village record keeper)
   - تحصیل/तहसील = Tehsil (administrative division)
   - موضع/मौजा = Mauza (village)
   - مالک/मालिक = Malik (owner)
   - وارث/वारिस = Waris (heir)
   - انتقال/इंतक़ाल = Intiqal (transfer of ownership)
4. Maintain document structure and formatting
5. If unsure about a term, keep it in original script with [?] marker

TEXT TO TRANSLATE:
".
Definition TRANSLATION_PROMPT_4 : pystr := lit "

TRANSLATION:".

(** [CONTEXT_PROMPT], cut at its two fields. *)
Definition CONTEXT_PROMPT_1 : pystr := lit "Continue translating this document. Previous context:
".
Definition CONTEXT_PROMPT_2 : pystr := lit "

NEW TEXT TO TRANSLATE:
".
Definition CONTEXT_PROMPT_3 : pystr := lit "

TRANSLATION (maintain consistency with previous):".

Definition get_translation_prompt (text source_lang target_lang : pystr)
  (context : option pystr) : pystr :=
  match context with
  | Some ctx =>
      if truthy ctx then
        CONTEXT_PROMPT_1 ++ prefix 200 ctx ++ CONTEXT_PROMPT_2 ++ text
          ++ CONTEXT_PROMPT_3
      else
        TRANSLATION_PROMPT_1 ++ source_lang ++ TRANSLATION_PROMPT_2
          ++ target_lang ++ TRANSLATION_PROMPT_3 ++ text
          ++ TRANSLATION_PROMPT_4
  | None =>
      TRANSLATION_PROMPT_1 ++ source_lang ++ TRANSLATION_PROMPT_2
        ++ target_lang ++ TRANSLATION_PROMPT_3 ++ text
        ++ TRANSLATION_PROMPT_4
  end.

End PromptTemplates.

(* ================================================================== *)
(** ** The process around the module                                    *)
(* ================================================================== *)

(** What [response.raise_for_status()], [response.json()] and the reading of
    [result['candidates'][0]['content']['parts'][0]['text'].strip()] come
    to, for a response whose status is neither 429 nor 503. *)
Inductive Payload : Type :=
| PayloadRaises (str_e : pystr)
| PayloadNoCandidates
| PayloadText (text : pystr)
(** the [text] field is read, and is not a string: [strip] raises after the
    request was counted *)
| PayloadTextNotStr (str_e : pystr).

Record Response := mk_response {
  status_code : Z;
  (** [str(e)] of the [HTTPError] that [raise_for_status] raises on a 4xx
      or 5xx status. *)
  http_error : pystr;
  payload : Payload
}.

(** One call of [requests.post]. *)
Inductive PostResult : Type :=
| PostTimeout
| PostRaises (str_e : pystr)
| PostReturns (took_ms : Z) (r : Response).

(** The mutable surroundings: the clock in milliseconds, the number of
    [requests.post] calls made so far, the durations slept (latest first),
    the module global [GEMINI_API_KEY], and where the key is looked up. *)
Record World := mk_world {
  clock : Z;
  posts : nat;
  slept : list Z;
  GEMINI_API_KEY : option pystr;
  environ_GOOGLE_GEMINI_API_KEY : option pystr;
  (** [current_app.config.get('GOOGLE_GEMINI_API_KEY')]; [None] when the
      import or the lookup raises. *)
  flask_GOOGLE_GEMINI_API_KEY : option (option pystr)
}.

Definition sleep (ms : Z) (w : World) : World :=
  mk_world (clock w + ms) (posts w) (ms :: slept w) (GEMINI_API_KEY w)
    (environ_GOOGLE_GEMINI_API_KEY w) (flask_GOOGLE_GEMINI_API_KEY w).

Definition posted (took_ms : Z) (w : World) : World :=
  mk_world (clock w + took_ms) (S (posts w)) (slept w) (GEMINI_API_KEY w)
    (environ_GOOGLE_GEMINI_API_KEY w) (flask_GOOGLE_GEMINI_API_KEY w).

Definition set_GEMINI_API_KEY (k : option pystr) (w : World) : World :=
  mk_world (clock w) (posts w) (slept w) k
    (environ_GOOGLE_GEMINI_API_KEY w) (flask_GOOGLE_GEMINI_API_KEY w).

(* ================================================================== *)
(** ** 7. LLM generator: GeminiGenerator                                *)
(* ================================================================== *)

Module GeminiGenerator.
Section Generator.
(** The endpoint: what the [n]-th [requests.post] of the process returns
    for a prompt. *)
Variable endpoint : nat -> pystr -> PostResult.

Record t := mk {
  api_key : option pystr;
  request_count : Z;
  last_request_time : Z
}.

Definition _get_api_key (w : World) : option pystr * World :=
  if truthy_opt (GEMINI_API_KEY w) then (GEMINI_API_KEY w, w)
  else
    let k := environ_GOOGLE_GEMINI_API_KEY w in
    let k :=
      if truthy_opt k then k
      else match flask_GOOGLE_GEMINI_API_KEY w with
           | Some k' => k'
           | None => k
           end in
    (k, set_GEMINI_API_KEY k w).

(** [GeminiGenerator()]. *)
Definition init (w : World) : t * World :=
  let (k, w) := _get_api_key w in (mk k 0 0, w).

Definition _rate_limit (g : t) (w : World) : t * World :=
  let w := if (clock w - last_request_time g <? 500)%Z then sleep 500 w
           else w in
  (mk (api_key g) (request_count g) (clock w), w).

(** What one pass through the body of [for attempt in range(MAX_RETRIES)]
    decides. *)
Inductive Attempt : Type :=
| Continue
| Return (text error : option pystr).

Definition last_attempt (attempt : nat) : bool :=
  negb (attempt <? MAX_RETRIES - 1).

Definition attempt_once (prompt : pystr) (attempt : nat) (g : t) (w : World)
  : Attempt * t * World :=
  match endpoint (posts w) prompt with
  | PostTimeout =>
      let w := posted 0 w in
      if last_attempt attempt
      then (Return None (Some (lit "Request timeout")), g, w)
      else (Continue, g, sleep 1000 w)
  | PostRaises str_e =>
      let w := posted 0 w in
      if last_attempt attempt
      then (Return None (Some str_e), g, w)
      else (Continue, g, sleep 1000 w)
  | PostReturns took r =>
      let w := posted took w in
      if (status_code r =? 429)%Z then
        (Continue, g, sleep ((2 ^ Z.of_nat attempt + 1) * 1000) w)
      else if (status_code r =? 503)%Z then (Continue, g, sleep 2000 w)
      else
        let outcome :=
          if ((400 <=? status_code r) && (status_code r <? 600))%Z
          then PayloadRaises (http_error r) else payload r in
        match outcome with
        | PayloadText text =>
            (Return (Some (strip text)) None,
             mk (api_key g) (request_count g + 1) (last_request_time g), w)
        | PayloadNoCandidates =>
            (Return None (Some (lit "No response generated")), g, w)
        | PayloadRaises str_e =>
            if last_attempt attempt
            then (Return None (Some str_e), g, w)
            else (Continue, g, sleep 1000 w)
        | PayloadTextNotStr str_e =>
            let g := mk (api_key g) (request_count g + 1)
                       (last_request_time g) in
            if last_attempt attempt
            then (Return None (Some str_e), g, w)
            else (Continue, g, sleep 1000 w)
        end
  end.

(** The loop, [remaining] passes from [attempt] on. *)
Fixpoint attempts (prompt : pystr) (remaining attempt : nat) (g : t)
  (w : World) : (option pystr * option pystr) * t * World :=
  match remaining with
  | O => ((None, Some (lit "Max retries exceeded")), g, w)
  | S remaining' =>
      match attempt_once prompt attempt g w with
      | (Return text error, g, w) => ((text, error), g, w)
      | (Continue, g, w) => attempts prompt remaining' (S attempt) g w
      end
  end.

Definition generate (g : t) (w : World) (prompt : pystr)
  : (option pystr * option pystr) * t * World :=
  if negb (truthy_opt (api_key g)) then
    ((None, Some (lit "API key not configured")), g, w)
  else
    let (g, w) := _rate_limit g w in
    attempts prompt MAX_RETRIES 0 g w.

End Generator.
End GeminiGenerator.

(** The module-level [get_api_key] (legacy entry point): the module global
    first, then the environment, then the Flask configuration; what is found
    is stored in the global. *)
Definition get_api_key (w : World) : option pystr * World :=
  if truthy_opt (GEMINI_API_KEY w) then (GEMINI_API_KEY w, w)
  else
    let w := set_GEMINI_API_KEY (environ_GOOGLE_GEMINI_API_KEY w) w in
    if negb (truthy_opt (GEMINI_API_KEY w)) then
      match flask_GOOGLE_GEMINI_API_KEY w with
      | Some k =>
          let w := set_GEMINI_API_KEY k w in (GEMINI_API_KEY w, w)
      | None => (GEMINI_API_KEY w, w)
      end
    else (GEMINI_API_KEY w, w).

(* ================================================================== *)
(** ** 10. Evaluation and feedback: TranslationQuality                  *)
(* ================================================================== *)

Module TranslationQuality.

(** [re.findall(r'\d+', s)]: the maximal runs of digits. *)
Fixpoint findall_digits (cur : pystr) (s : pystr) : list pystr :=
  match s with
  | [] => match cur with [] => [] | _ => [rev cur] end
  | c :: s' =>
      if isdigit c then findall_digits (c :: cur) s'
      else match cur with
           | [] => findall_digits [] s'
           | _ => rev cur :: findall_digits [] s'
           end
  end.

Definition mem (x : pystr) (l : list pystr) : bool :=
  existsb (Py.eqb x) l.

(** [set(l)], as the list of the distinct elements. *)
Definition distinct (l : list pystr) : list pystr :=
  fold_left (fun acc x => if mem x acc then acc else acc ++ [x]) l [].

(** [calculate_coverage] as the exact quotient (numerator, denominator) of
    the float it returns. *)
Definition calculate_coverage (original translated : pystr) : Z * Z :=
  if negb (truthy original) then (1, 1)%Z
  else
    let numbers_original := distinct (findall_digits [] original) in
    let numbers_translated := distinct (findall_digits [] translated) in
    match numbers_original with
    | [] => (1, 1)%Z
    | _ =>
        (Z.of_nat
           (length (filter (fun x => mem x numbers_translated)
                      numbers_original)),
         Z.of_nat (length numbers_original))
    end.

Definition UNCERTAIN : pystr := lit "Contains uncertain translations".
Definition TOO_SHORT : pystr := lit "Translation too short".
Definition FAILED_CHUNKS : pystr := lit "Translation failed for some chunks".

Definition detect_issues (translated : pystr) : list pystr :=
  let issues := [] in
  let issues :=
    if contains (lit "[?]") translated then issues ++ [UNCERTAIN]
    else issues in
  let issues :=
    if (len translated <? 10)%Z then issues ++ [TOO_SHORT] else issues in
  let issues :=
    if contains (lit "Translation unavailable") translated
    then issues ++ [FAILED_CHUNKS] else issues in
  issues.

End TranslationQuality.

(* ================================================================== *)
(** ** 8. Orchestration: RAGTranslationPipeline                         *)
(* ================================================================== *)

Module RAGTranslationPipeline.

(** [range(start, 10, -5)]: [start], [start - 5], ... as long as the value
    is greater than 10. *)
Definition overlap_sizes (start : nat) : list nat :=
  map (fun j => start - 5 * j) (seq 0 ((start - 10 + 4) / 5)).

Definition overlaps (result chunk : pystr) (overlap_size : nat) : bool :=
  Py.eqb (lower (suffix overlap_size result))
         (lower (prefix overlap_size chunk)).

(** The inner [for overlap_size in range(...)]: the first size that matches. *)
Definition find_overlap (result chunk : pystr) : option nat :=
  find (overlaps result chunk)
    (overlap_sizes (Nat.min 50 (Nat.min (length result) (length chunk)))).

(** The body of [for i in range(1, len(chunks))]. *)
Definition combine_step (result chunk : pystr) : pystr :=
  match find_overlap result chunk with
  | Some overlap_size => result ++ drop overlap_size chunk
  | None => result ++ lit " " ++ chunk
  end.

Definition _combine_chunks (chunks : list pystr) : pystr :=
  match chunks with
  | [] => []
  | first :: rest => strip (fold_left combine_step rest first)
  end.

(** The marker put in place of a chunk that could not be translated. *)
Definition failure_marker (chunk_text : pystr) : pystr :=
  lit "[Translation failed: " ++ prefix 100 chunk_text ++ lit "...]".

(** The metadata of a run.  [quality_coverage] is the exact quotient of
    [calculate_coverage] (the source rounds the float to two decimals), and
    the cache statistics are given without the float [hit_rate]. *)
Record RunMetadata := mk_metadata {
  total_chunks : Z;
  successful_chunks : Z;
  failed_chunks : Z;
  cached_chunks : Z;
  errors : option (list (Z * pystr));
  processing_time_ms : Z;
  original_length : Z;
  translated_length : Z;
  quality_coverage : Z * Z;
  quality_issues : option (list pystr);
  cache_stats : TranslationCache.stats;
  api_requests : Z
}.

Inductive Metadata : Type :=
| NoText (error : pystr) (chunks : Z)
| Run (m : RunMetadata).

(** The dictionaries that [translate_streaming] yields (the percentage, a
    float computation, and the status line of a progress event are left
    out). *)
Inductive Event : Type :=
| EvError (message : pystr)
| EvStart (total_chunks total_characters : Z)
| EvProgress (current total : Z)
| EvChunkComplete (chunk_id : Z) (cached : bool) (preview : pystr)
| EvChunkError (chunk_id : Z) (error : pystr)
| EvComplete (translated_text : pystr) (processing_time_ms : Z)
    (cache_stats : TranslationCache.stats).

Section Pipeline.
(** [SimpleEmbedder().embed], [hashlib.md5(...).hexdigest()] and the
    endpoint behind [requests.post]. *)
Variable embed : pystr -> list R.
Variable md5_hexdigest : pystr -> pystr.
Variable endpoint : nat -> pystr -> PostResult.

Record t := mk {
  vector_store : InMemoryVectorStore.t;
  generator : GeminiGenerator.t;
  cache : TranslationCache.t (option pystr)
}.

(** [RAGTranslationPipeline()]. *)
Definition init (w : World) : t * World :=
  let (g, w) := GeminiGenerator.init w in
  (mk InMemoryVectorStore.init g (TranslationCache.init _ CACHE_SIZE), w).

(** The locals of the loop of [translate_document]. *)
Record locals := mk_locals {
  translated_chunks : list pystr;
  chunk_errors : list (Z * pystr);
  cached_count : Z;
  previous_translation : pystr
}.

(** What [self.cache.get] hands back: [None] for a miss and for a stored
    [None] alike. *)
Definition seen (o : option (option pystr)) : option pystr :=
  match o with Some v => v | None => None end.

Definition none_subscript : pystr :=
  lit "'NoneType' object is not subscriptable".

(** The body of [for i, chunk in enumerate(chunks)] in [translate_document]. *)
Definition translate_chunk (source_lang target_lang : pystr) (total : Z)
  (i : Z) (chunk : DocumentChunk.t) (st : locals) (p : t) (w : World)
  : result locals * t * World :=
  let (cached, c) :=
    TranslationCache.get md5_hexdigest (cache p) (DocumentChunk.text chunk) in
  let p := mk (vector_store p) (generator p) c in
  if truthy_opt (seen cached) then
    let s := match seen cached with Some s => s | None => [] end in
    (Ok (mk_locals (translated_chunks st ++ [s]) (chunk_errors st)
           (cached_count st + 1) (suffix 200 s)), p, w)
  else
    let context :=
      if (0 <? i)%Z then Some (previous_translation st) else None in
    let prompt :=
      PromptTemplates.get_translation_prompt (DocumentChunk.text chunk)
        source_lang target_lang context in
    let '((translation, error), g, w) :=
      GeminiGenerator.generate endpoint (generator p) w prompt in
    let p := mk (vector_store p) g (cache p) in
    let pause w := if (i <? total - 1)%Z then sleep 300 w else w in
    if truthy_opt error then
      let e := match error with Some e => e | None => [] end in
      (Ok (mk_locals
             (translated_chunks st
                ++ [failure_marker (DocumentChunk.text chunk)])
             (chunk_errors st ++ [(DocumentChunk.id chunk, e)])
             (cached_count st) (previous_translation st)),
       p, pause w)
    else
      match TranslationCache.set md5_hexdigest (cache p)
              (DocumentChunk.text chunk) translation with
      | Raise e => (Raise e, p, w)
      | Ok c =>
          let p := mk (vector_store p) (generator p) c in
          match translation with
          | Some tr =>
              (Ok (mk_locals (translated_chunks st ++ [tr])
                     (chunk_errors st) (cached_count st) (suffix 200 tr)),
               p, pause w)
          | None => (Raise none_subscript, p, w)
          end
      end.

Fixpoint translate_chunks (source_lang target_lang : pystr) (total : Z)
  (i : Z) (chunks : list DocumentChunk.t) (st : locals) (p : t) (w : World)
  : result locals * t * World :=
  match chunks with
  | [] => (Ok st, p, w)
  | chunk :: rest =>
      match translate_chunk source_lang target_lang total i chunk st p w with
      | (Ok st, p, w) =>
          translate_chunks source_lang target_lang total (i + 1) rest st p w
      | (Raise e, p, w) => (Raise e, p, w)
      end
  end.

Definition nonempty {A : Type} (l : list A) : option (list A) :=
  match l with [] => None | _ => Some l end.

(** [translate_document], called without a progress callback. *)
Definition translate_document (p : t) (w : World)
  (text source_lang target_lang : pystr)
  : result (pystr * Metadata) * t * World :=
  let start_time := clock w in
  let chunks := SmartChunker.chunk_document text CHUNK_SIZE OVERLAP_SIZE in
  let total := len_list chunks in
  if (total =? 0)%Z then
    (Ok ([], NoText (lit "No text to translate") 0), p, w)
  else
    let vs :=
      InMemoryVectorStore.add_chunks embed
        (InMemoryVectorStore.clear (vector_store p)) chunks in
    let p := mk vs (generator p) (cache p) in
    match translate_chunks source_lang target_lang total 0 chunks
            (mk_locals [] [] 0 []) p w with
    | (Raise e, p, w) => (Raise e, p, w)
    | (Ok st, p, w) =>
        let final_text := _combine_chunks (translated_chunks st) in
        let n_errors := len_list (chunk_errors st) in
        (Ok (final_text,
             Run (mk_metadata total (total - n_errors) n_errors
                    (cached_count st) (nonempty (chunk_errors st))
                    (clock w - start_time) (len text) (len final_text)
                    (TranslationQuality.calculate_coverage text final_text)
                    (nonempty (TranslationQuality.detect_issues final_text))
                    (TranslationCache.get_stats (cache p))
                    (GeminiGenerator.request_count (generator p)))),
         p, w)
    end.

(** [translation[:100] + "..." if len(translation) > 100 else translation]. *)
Definition preview (s : pystr) : pystr :=
  if (100 <? len s)%Z then prefix 100 s ++ lit "..." else s.

(** The locals of the loop of [translate_streaming]. *)
Record stream_locals := mk_stream_locals {
  translated_parts : list pystr;
  stream_previous : pystr
}.

(** The body of [for i, chunk in enumerate(chunks)] in
    [translate_streaming], with the events it yields. *)
Definition stream_chunk (source_lang target_lang : pystr) (total : Z)
  (i : Z) (chunk : DocumentChunk.t) (st : stream_locals) (p : t) (w : World)
  : list Event * result stream_locals * t * World :=
  let progress := EvProgress (i + 1) total in
  let (cached, c) :=
    TranslationCache.get md5_hexdigest (cache p) (DocumentChunk.text chunk) in
  let p := mk (vector_store p) (generator p) c in
  if truthy_opt (seen cached) then
    let s := match seen cached with Some s => s | None => [] end in
    ([progress; EvChunkComplete (DocumentChunk.id chunk) true (preview s)],
     Ok (mk_stream_locals (translated_parts st ++ [s]) (suffix 200 s)), p, w)
  else
    let context :=
      if (0 <? i)%Z then Some (stream_previous st) else None in
    let prompt :=
      PromptTemplates.get_translation_prompt (DocumentChunk.text chunk)
        source_lang target_lang context in
    let '((translation, error), g, w) :=
      GeminiGenerator.generate endpoint (generator p) w prompt in
    let p := mk (vector_store p) g (cache p) in
    if truthy_opt error then
      let e := match error with Some e => e | None => [] end in
      ([progress; EvChunkError (DocumentChunk.id chunk) e],
       Ok (mk_stream_locals
             (translated_parts st ++ [DocumentChunk.text chunk])
             (stream_previous st)),
       p, sleep 300 w)
    else
      match TranslationCache.set md5_hexdigest (cache p)
              (DocumentChunk.text chunk) translation with
      | Raise e => ([progress], Raise e, p, w)
      | Ok c =>
          let p := mk (vector_store p) (generator p) c in
          match translation with
          | Some tr =>
              ([progress;
                EvChunkComplete (DocumentChunk.id chunk) false (preview tr)],
               Ok (mk_stream_locals (translated_parts st ++ [tr])
                     (suffix 200 tr)),
               p, sleep 300 w)
          | None => ([progress], Raise none_subscript, p, w)
          end
      end.

Fixpoint stream_chunks (source_lang target_lang : pystr) (total : Z)
  (i : Z) (chunks : list DocumentChunk.t) (st : stream_locals) (p : t)
  (w : World) : list Event * result stream_locals * t * World :=
  match chunks with
  | [] => ([], Ok st, p, w)
  | chunk :: rest =>
      match stream_chunk source_lang target_lang total i chunk st p w with
      | (evs, Ok st, p, w) =>
          let '(evs', r, p, w) :=
            stream_chunks source_lang target_lang total (i + 1) rest st p w in
          (evs ++ evs', r, p, w)
      | (evs, Raise e, p, w) => (evs, Raise e, p, w)
      end
  end.

(** [translate_streaming], read to its end: the events in the order they
    are yielded, and the exception that ends the iteration early, if any. *)
Definition translate_streaming (p : t) (w : World)
  (text source_lang target_lang : pystr)
  : (list Event * option pystr) * t * World :=
  let start_time := clock w in
  let chunks := SmartChunker.chunk_document text CHUNK_SIZE OVERLAP_SIZE in
  let total := len_list chunks in
  if (total =? 0)%Z then
    (([EvError (lit "No text to translate")], None), p, w)
  else
    let start := EvStart total (len text) in
    let vs :=
      InMemoryVectorStore.add_chunks embed
        (InMemoryVectorStore.clear (vector_store p)) chunks in
    let p := mk vs (generator p) (cache p) in
    match stream_chunks source_lang target_lang total 0 chunks
            (mk_stream_locals [] []) p w with
    | (evs, Raise e, p, w) => ((start :: evs, Some e), p, w)
    | (evs, Ok st, p, w) =>
        let final_text := _combine_chunks (translated_parts st) in
        ((start :: evs
            ++ [EvComplete final_text (clock w - start_time)
                  (TranslationCache.get_stats (cache p))],
          None), p, w)
    end.

End Pipeline.
End RAGTranslationPipeline.

(* ================================================================== *)
(** ** The reassembly as the specification words it                     *)
(* ================================================================== *)

Module AsSpecified.

(** The candidate overlap lengths in the specification's words: from
    [start] down to 10 in steps of 5, where 10 itself is a candidate ("if no
    overlap of at least 10 characters is found"). *)
Definition overlap_sizes (start : nat) : list nat :=
  if 10 <=? start
  then map (fun j => start - 5 * j) (seq 0 ((start - 10) / 5 + 1))
  else [].

Definition find_overlap (result chunk : pystr) : option nat :=
  find (RAGTranslationPipeline.overlaps result chunk)
    (overlap_sizes (Nat.min 50 (Nat.min (length result) (length chunk)))).

Definition combine_step (result chunk : pystr) : pystr :=
  match find_overlap result chunk with
  | Some overlap_size => result ++ drop overlap_size chunk
  | None => result ++ lit " " ++ chunk
  end.

(** The final [strip], on which the specification is silent, is kept as in
    the source. *)
Definition combine_chunks (chunks : list pystr) : pystr :=
  match chunks with
  | [] => []
  | first :: rest => strip (fold_left combine_step rest first)
  end.

End AsSpecified.

(* ================================================================== *)
(** ** Public API                                                       *)
(* ================================================================== *)

Section PublicAPI.
Variable hash : pystr -> Z.
Variable md5_hexdigest : pystr -> pystr.
Variable endpoint : nat -> pystr -> PostResult.

(** The running process: its surroundings, the pipeline objects allocated
    so far (an object is its index), and the module global [_pipeline]. *)
Record Process := mk_process {
  world : World;
  heap : list RAGTranslationPipeline.t;
  _pipeline : option nat
}.

(** [SimpleEmbedder()] has [dim = 256]. *)
Definition default_embed : pystr -> list R := SimpleEmbedder.embed hash 256.

Fixpoint store (r : nat) (v : RAGTranslationPipeline.t)
  (h : list RAGTranslationPipeline.t) : list RAGTranslationPipeline.t :=
  match h, r with
  | [], _ => []
  | _ :: h', O => v :: h'
  | x :: h', S r' => x :: store r' v h'
  end.

Definition get_rag_translator (s : Process) : nat * Process :=
  match _pipeline s with
  | Some r => (r, s)
  | None =>
      let (p, w) := RAGTranslationPipeline.init (world s) in
      let r := length (heap s) in
      (r, mk_process w (heap s ++ [p]) (Some r))
  end.

(** [translate_with_rag], called without a progress callback. *)
Definition translate_with_rag (s : Process)
  (text source_lang target_lang : pystr)
  : result (pystr * RAGTranslationPipeline.Metadata) * Process :=
  let (r, s) := get_rag_translator s in
  match nth_error (heap s) r with
  | Some p =>
      let '(res, p, w) :=
        RAGTranslationPipeline.translate_document default_embed
          md5_hexdigest endpoint p (world s) text source_lang target_lang in
      (res, mk_process w (store r p (heap s)) (_pipeline s))
  | None => (Raise (lit "dangling reference"), s)
  end.

End PublicAPI.

(* ================================================================== *)
(** ** Example data                                                     *)
(* ================================================================== *)

Module Example.

(** Stand-ins for the functions the model takes as inputs; the examples do
    not depend on which functions they are. *)
Definition hash (s : pystr) : Z := Z.of_nat (length s).
Definition md5_hexdigest (s : pystr) : pystr := s.
Definition embed : pystr -> list R := SimpleEmbedder.embed hash 256.
Definition endpoint_timeout (n : nat) (prompt : pystr) : PostResult :=
  PostTimeout.

(** Two answers 429, then a generated text. *)
Definition endpoint_429_429_ok (n : nat) (prompt : pystr) : PostResult :=
  if n <? 2
  then PostReturns 100 (mk_response 429 (lit "429") PayloadNoCandidates)
  else PostReturns 100
         (mk_response 200 [] (PayloadText (lit " Khasra 42 "))).

(** A process in which no key is configured anywhere, and the pipeline
    built in it. *)
Definition world : World := mk_world 0 0 [] None None None.
Definition pipeline : RAGTranslationPipeline.t :=
  fst (RAGTranslationPipeline.init world).

Definition sentence : pystr := lit "Khasra number 42 belongs to Malik.".
Definition short_document : pystr := sentence.
(** Forty sentences, 1400 characters: two chunks. *)
Definition long_document : pystr :=
  concat (repeat (sentence ++ lit " ") 40).

End Example.

(** Data for the further properties. *)

Module Fixture.

(** An endpoint that always answers 429. *)
Definition endpoint_busy (n : nat) (prompt : pystr) : PostResult :=
  PostReturns 100 (mk_response 429 (lit "429") PayloadNoCandidates).

(** A generator with a key, and surroundings at rest. *)
Definition generator : GeminiGenerator.t :=
  GeminiGenerator.mk (Some (lit "key")) 0 0.
Definition world : World :=
  mk_world 1000 0 [] (Some (lit "key")) None None.

(** A pipeline with that generator and an empty cache. *)
Definition pipeline : RAGTranslationPipeline.t :=
  RAGTranslationPipeline.mk InMemoryVectorStore.init generator
    (TranslationCache.init _ CACHE_SIZE).

(** An embedder whose vectors are not looked at. *)
Definition embed (text : pystr) : list R := [].

End Fixture.

(* ================================================================== *)
(** * Vocabulary of the properties                                      *)
(* ================================================================== *)

(** A pair in which exactly one component is not [None]. *)
Definition exactly_one (r : option pystr * option pystr) : Prop :=
  (fst r <> None /\ snd r = None) \/ (fst r = None /\ snd r <> None).

(** All components are non-negative. *)
Definition nonneg (v : list R) : Prop := Forall (fun x => (0 <= x)%R) v.

Section RecencyOrder.
Variable V : Type.
Variable md5_hexdigest : pystr -> pystr.

(** The keys are pairwise distinct and stand in the order of their last
    use. *)
Definition by_recency (ops : list (TranslationCache.call V))
  (ks : list pystr) : Prop :=
  NoDup ks /\
  StronglySorted lt (map (TranslationCache.last_use md5_hexdigest ops) ks).

End RecencyOrder.

Module ChunkInvariant.
Section Invariant.
Variables chunk_size overlap : Z.
Variable sentences : list pystr.

(** One whole sentence after a seed of at most [overlap + 1] characters. *)
Definition seeded (x : pystr) : Prop :=
  exists seed s,
    In s sentences /\ (len seed <= Z.max 0 overlap + 1)%Z /\ x = seed ++ s.

Definition chunk_ok (c : DocumentChunk.t) : Prop :=
  (len (DocumentChunk.text c) <= chunk_size)%Z \/
  exists seed s,
    In s sentences /\ (len seed <= Z.max 0 overlap + 1)%Z /\
    DocumentChunk.text c = strip (seed ++ s).

Definition buffer_ok (cur : pystr) : Prop :=
  cur = [] \/
  exists x, cur = x ++ SmartChunker.space /\
            ((len x <= chunk_size)%Z \/ seeded x).

Definition state_ok (st : SmartChunker.state) : Prop :=
  Forall chunk_ok (SmartChunker.chunks st) /\
  buffer_ok (SmartChunker.current_chunk st).

End Invariant.
End ChunkInvariant.

(** The chunk is the sentence [s], whole, after a seed of at most [bound]
    characters. *)
Definition own_chunk (bound : Z) (s : pystr) (c : DocumentChunk.t) : Prop :=
  exists seed, (len seed <= bound)%Z /\ DocumentChunk.text c = seed ++ s.

(** The sentence [s] has its own chunk already, or it is in the buffer,
    alone after such a seed. *)
Definition long_kept (bound : Z) (s : pystr) (st : SmartChunker.state)
  : Prop :=
  Exists (own_chunk bound s) (SmartChunker.chunks st) \/
  exists seed,
    (len seed <= bound)%Z /\
    SmartChunker.current_chunk st = seed ++ s ++ SmartChunker.space.

(** No key, and nothing cached. *)
Definition keyless (p : RAGTranslationPipeline.t) : Prop :=
  truthy_opt (GeminiGenerator.api_key (RAGTranslationPipeline.generator p))
    = false /\
  TranslationCache.cache (RAGTranslationPipeline.cache p) = [].

(** The pipeline after [n] more cache misses. *)
Definition missed (n : nat) (p : RAGTranslationPipeline.t)
  : RAGTranslationPipeline.t :=
  RAGTranslationPipeline.mk (RAGTranslationPipeline.vector_store p)
    (RAGTranslationPipeline.generator p)
    (TranslationCache.mk []
       (TranslationCache.max_size (RAGTranslationPipeline.cache p))
       (TranslationCache.hits (RAGTranslationPipeline.cache p))
       (TranslationCache.misses (RAGTranslationPipeline.cache p)
        + Z.of_nat n)).

(** The pause after chunk [i] of [total] in the blocking mode. *)
Definition pause (total i : Z) (w : World) : World :=
  if (i <? total - 1)%Z then sleep 300 w else w.

(** The inter-chunk pauses of a run over [n] chunks from index [i] on. *)
Fixpoint pauses (total i : Z) (n : nat) (w : World) : World :=
  match n with
  | O => w
  | S n' => pauses total (i + 1) n' (pause total i w)
  end.

(** The events of a run in which every chunk fails for want of a key. *)
Fixpoint keyless_events (total i : Z) (chunks : list DocumentChunk.t)
  : list RAGTranslationPipeline.Event :=
  match chunks with
  | [] => []
  | chunk :: rest =>
      RAGTranslationPipeline.EvProgress (i + 1) total
        :: RAGTranslationPipeline.EvChunkError (DocumentChunk.id chunk)
             (lit "API key not configured")
        :: keyless_events total (i + 1) rest
  end.

(** The prompt of chunk [i], given the end of the previous translation. *)
Definition prompt_for (source_lang target_lang : pystr) (i : Z)
  (chunk : DocumentChunk.t) (previous : pystr) : pystr :=
  PromptTemplates.get_translation_prompt (DocumentChunk.text chunk)
    source_lang target_lang (if (0 <? i)%Z then Some previous else None).

(** From [p] to [p']: the vector store is the same, the capacity of the
    cache is the same, and no counter went down. *)
Definition kept (p p' : RAGTranslationPipeline.t) : Prop :=
  RAGTranslationPipeline.vector_store p' = RAGTranslationPipeline.vector_store p
  /\ TranslationCache.max_size (RAGTranslationPipeline.cache p') =
     TranslationCache.max_size (RAGTranslationPipeline.cache p)
  /\ (TranslationCache.hits (RAGTranslationPipeline.cache p) <=
      TranslationCache.hits (RAGTranslationPipeline.cache p'))%Z
  /\ (TranslationCache.misses (RAGTranslationPipeline.cache p) <=
      TranslationCache.misses (RAGTranslationPipeline.cache p'))%Z
  /\ (GeminiGenerator.request_count (RAGTranslationPipeline.generator p) <=
      GeminiGenerator.request_count (RAGTranslationPipeline.generator p'))%Z.

(** The text a call on the cache is about. *)
Definition call_text (V : Type) (op : TranslationCache.call V) : pystr :=
  match op with
  | TranslationCache.CallGet _ text => text
  | TranslationCache.CallSet text _ => text
  end.

(** The number of [set] calls among the calls. *)
Definition stores (V : Type) (ops : list (TranslationCache.call V)) : Z :=
  Z.of_nat
    (length
       (filter
          (fun op =>
             match op with
             | TranslationCache.CallGet _ _ => false
             | TranslationCache.CallSet _ _ => true
             end) ops)).

(** What a run does to the cache: [c'] is [c] after [get] and [set] calls on
    texts of [chunks], at most one [set] for each chunk.  Nothing else
    touches the dictionary of the cache; in particular it is not cleared. *)
Definition cache_carried_over (md5_hexdigest : pystr -> pystr)
  (chunks : list DocumentChunk.t) (c c' : TranslationCache.t (option pystr))
  : Prop :=
  exists ops,
    c' = TranslationCache.after_calls md5_hexdigest c ops /\
    Forall (fun op => In (call_text op) (map DocumentChunk.text chunks)) ops /\
    (stores ops <= len_list chunks)%Z.

(** [_pipeline], when set, refers to an allocated object. *)
Definition well_formed (s : Process) : Prop :=
  match _pipeline s with
  | Some r => r < length (heap s)
  | None => True
  end.

(** ** Vocabulary of the further properties *)

(** Every chunk of the store has its embedding. *)
Definition indexed (s : InMemoryVectorStore.t) : Prop :=
  Forall (fun c => DocumentChunk.embedding c <> None)
    (InMemoryVectorStore.chunks s).

(** A chunk with its similarity to a query embedding. *)
Definition scored (query_embedding : list R) (c : DocumentChunk.t)
  : DocumentChunk.t * R :=
  (c, SimpleEmbedder.similarity query_embedding
        (match DocumentChunk.embedding c with Some e => e | None => [] end)).

(** [x] stands before [y] in a list sorted by descending score. *)
Definition score_ge (x y : DocumentChunk.t * R) : Prop := (snd y <= snd x)%R.

(** [results] are the best of [all]: sorted by descending score, and what
    [all] holds besides scores no more than any of them. *)
Definition best_of (results all : list (DocumentChunk.t * R)) : Prop :=
  StronglySorted score_ge results /\
  exists rest,
    Permutation (results ++ rest) all /\
    forall x y, In x results -> In y rest -> score_ge x y.

(** The characters of a text that are not whitespace, in their order. *)
Definition nonspace (s : pystr) : pystr :=
  filter (fun c => negb (isspace c)) s.

(** [s] occurs in [x]. *)
Definition inside (s x : pystr) : Prop := exists a b, x = a ++ s ++ b.

(** The text of a document once its page markers are taken out: what the
    chunker cuts into sentences. *)
Definition body (text : pystr) : pystr :=
  SmartChunker.full_text
    (SmartChunker.scan_parts (SmartChunker.split_pages 0 [] text)).

(** Where the chunk that follows [prev] starts. *)
Definition next_start (overlap : Z) (prev : option DocumentChunk.t) : Z :=
  match prev with
  | None => 0
  | Some p =>
      if (0 <? overlap)%Z then DocumentChunk.end_pos p - overlap
      else DocumentChunk.end_pos p
  end.

(** The chunk number [i], the one before it being [prev]: it has the id
    [i], a text that is trimmed and not empty, a page number and no embedding
    yet; it starts where [next_start] says and ends more than the length of
    its text further. *)
Definition chunk_shape (overlap : Z) (i : Z) (prev : option DocumentChunk.t)
  (c : DocumentChunk.t) : Prop :=
  DocumentChunk.id c = i /\
  DocumentChunk.text c <> [] /\
  strip (DocumentChunk.text c) = DocumentChunk.text c /\
  DocumentChunk.page_number c <> None /\
  DocumentChunk.embedding c = None /\
  DocumentChunk.start_pos c = next_start overlap prev /\
  (DocumentChunk.start_pos c + len (DocumentChunk.text c)
   < DocumentChunk.end_pos c)%Z.

(** The chunks from number [i] on, the one before them being [prev]. *)
Fixpoint in_sequence (overlap : Z) (i : Z) (prev : option DocumentChunk.t)
  (cs : list DocumentChunk.t) : Prop :=
  match cs with
  | [] => True
  | c :: cs' =>
      chunk_shape overlap i prev c /\ in_sequence overlap (i + 1) (Some c) cs'
  end.

(** A part of [re.split] that is not a page marker. *)
Definition is_text_part (part : pystr) : bool :=
  match SmartChunker.match_page_marker part with
  | Some _ => false
  | None => true
  end.

(** Not empty, and nothing for [strip] to take away. *)
Definition trimmed (s : pystr) : Prop :=
  s <> [] /\ lstrip s = s /\ rstrip s = s.

(** The chunk a state closed last. *)
Definition last_chunk (cs : list DocumentChunk.t) : option DocumentChunk.t :=
  last (map Some cs) None.

(** The sentence [s] is in a chunk already closed, or in the buffer. *)
Definition held (s : pystr) (st : SmartChunker.state) : Prop :=
  Exists (fun c => inside s (DocumentChunk.text c)) (SmartChunker.chunks st) \/
  inside s (SmartChunker.current_chunk st).

(** The state of the chunking loop between two sentences. *)
Definition sequence_inv (overlap : Z) (st : SmartChunker.state) : Prop :=
  in_sequence overlap 0 None (SmartChunker.chunks st) /\
  SmartChunker.chunk_id st = len_list (SmartChunker.chunks st) /\
  SmartChunker.current_start st =
    next_start overlap (last_chunk (SmartChunker.chunks st)) /\
  (SmartChunker.current_chunk st = [] \/
   exists x, SmartChunker.current_chunk st = x ++ SmartChunker.space).

(** All the text a state holds: its chunks, then its buffer. *)
Definition contents (st : SmartChunker.state) : pystr :=
  concat (map DocumentChunk.text (SmartChunker.chunks st))
    ++ SmartChunker.current_chunk st.

(** [n] is a page of the document: page 1, or the number written in one of
    the page markers [--- Page <digits> ---] of the text. *)
Definition marked_page (text : pystr) (n : Z) : Prop :=
  n = 1%Z \/
  exists ds,
    ds <> [] /\ forallb isdigit ds = true /\
    inside (lit "--- Page " ++ ds ++ lit " ---") text /\
    n = int_of_digits ds.

(** The time spent in [time.sleep] so far, in milliseconds. *)
Definition slept_ms (w : World) : Z := fold_right Z.add 0%Z (slept w).

(** The longest wait after the attempt [attempt]: the back-off of a 429,
    [2 ** attempt + 1] seconds, or the 2 seconds of a 503. *)
Definition longest_wait (attempt : nat) : Z :=
  Z.max 2000 ((2 ^ Z.of_nat attempt + 1) * 1000).

(** The longest waits of [remaining] attempts from [attempt] on. *)
Fixpoint backoff_budget (attempt remaining : nat) : Z :=
  match remaining with
  | O => 0
  | S r => longest_wait attempt + backoff_budget (S attempt) r
  end.

(** The endpoint answers every request for [prompt] with 429 or 503. *)
Definition always_busy (endpoint : nat -> pystr -> PostResult)
  (prompt : pystr) : Prop :=
  forall n, exists took r,
    endpoint n prompt = PostReturns took r /\
    (status_code r = 429 \/ status_code r = 503)%Z.

(** No key in the module global, in the environment or in the Flask
    configuration. *)
Definition unconfigured (w : World) : Prop :=
  truthy_opt (GEMINI_API_KEY w) = false /\
  truthy_opt (environ_GOOGLE_GEMINI_API_KEY w) = false /\
  match flask_GOOGLE_GEMINI_API_KEY w with
  | Some k => truthy_opt k = false
  | None => True
  end.

(** The surroundings with another environment and Flask configuration. *)
Definition with_configuration (environ : option pystr)
  (flask : option (option pystr)) (w : World) : World :=
  mk_world (clock w) (posts w) (slept w) (GEMINI_API_KEY w) environ flask.

(** A process that has not built its pipeline yet. *)
Definition fresh_process (w : World) : Process := mk_process w [] None.

(** The process with its objects, in other surroundings. *)
Definition in_world (w : World) (s : Process) : Process :=
  mk_process w (heap s) (_pipeline s).

(** A call of [translate_with_rag] made later in the life of the process:
    the surroundings as they are by then, the document and its languages. *)
Record LaterCall := mk_later_call {
  later_world : World;
  later_text : pystr;
  later_source_lang : pystr;
  later_target_lang : pystr
}.

(** The process after such calls, one after the other. *)
Definition after_later_calls (hash : pystr -> Z)
  (md5_hexdigest : pystr -> pystr) (endpoint : nat -> pystr -> PostResult)
  (s : Process) (calls : list LaterCall) : Process :=
  fold_left
    (fun s c =>
       snd (translate_with_rag hash md5_hexdigest endpoint
              (in_world (later_world c) s) (later_text c)
              (later_source_lang c) (later_target_lang c)))
    calls s.

Section CacheVocabulary.
Variable V : Type.
Variable md5_hexdigest : pystr -> pystr.

(** The call does not store anything under the key of [text]. *)
Definition leaves_alone (text : pystr) (op : TranslationCache.call V) : Prop :=
  match op with
  | TranslationCache.CallSet t _ =>
      TranslationCache._hash_key md5_hexdigest t
      <> TranslationCache._hash_key md5_hexdigest text
  | TranslationCache.CallGet _ _ => True
  end.

(** The number of lookups among the calls. *)
Definition lookups (ops : list (TranslationCache.call V)) : Z :=
  Z.of_nat
    (length
       (filter
          (fun op =>
             match op with
             | TranslationCache.CallGet _ _ => true
             | TranslationCache.CallSet _ _ => false
             end) ops)).

(** The entry [(k, v)] is in the dictionary, once, with at most [j] entries
    after it. *)
Definition parked (k : pystr) (v : V) (j : nat) (d : OrderedDict.t V) : Prop :=
  exists pre post,
    d = pre ++ (k, v) :: post /\
    ~ In k (OrderedDict.keys pre) /\
    ~ In k (OrderedDict.keys post) /\
    (length post <= j)%nat.

End CacheVocabulary.

(** The lengths of the strings of a list, added up. *)
Definition total_len (l : list pystr) : Z :=
  fold_right (fun s acc => (len s + acc)%Z) 0%Z l.

(** The events of the chunks from number [i] on, in a run that is not cut
    short: for each chunk a progress event, then the completion or the error
    of that chunk. *)
Fixpoint chunk_events (total i : Z) (chunks : list DocumentChunk.t)
  (evs : list RAGTranslationPipeline.Event) : Prop :=
  match chunks, evs with
  | [], [] => True
  | chunk :: rest, RAGTranslationPipeline.EvProgress current tot :: ev :: evs' =>
      current = (i + 1)%Z /\ tot = total /\
      match ev with
      | RAGTranslationPipeline.EvChunkComplete id _ _ =>
          id = DocumentChunk.id chunk
      | RAGTranslationPipeline.EvChunkError id _ =>
          id = DocumentChunk.id chunk
      | _ => False
      end /\
      chunk_events total (i + 1) rest evs'
  | _, _ => False
  end.

(** What the two loops have in common after the same chunks: the end of
    the previous translation, and the translated parts as long as no chunk
    failed. *)
Definition same_progress (b : RAGTranslationPipeline.locals)
  (s : RAGTranslationPipeline.stream_locals) : Prop :=
  RAGTranslationPipeline.previous_translation b
    = RAGTranslationPipeline.stream_previous s /\
  (RAGTranslationPipeline.chunk_errors b = [] ->
   RAGTranslationPipeline.translated_chunks b
     = RAGTranslationPipeline.translated_parts s).

(** The counts of a loop of [translate_document] over [n] more chunks. *)
Definition accounted (n : Z) (st st' : RAGTranslationPipeline.locals)
  (w w' : World) : Prop :=
  let cached :=
    (RAGTranslationPipeline.cached_count st'
     - RAGTranslationPipeline.cached_count st)%Z in
  let failed :=
    (len_list (RAGTranslationPipeline.chunk_errors st')
     - len_list (RAGTranslationPipeline.chunk_errors st))%Z in
  len_list (RAGTranslationPipeline.translated_chunks st')
    = (len_list (RAGTranslationPipeline.translated_chunks st) + n)%Z /\
  (0 <= cached)%Z /\ (0 <= failed)%Z /\ (cached + failed <= n)%Z /\
  (Z.of_nat (posts w) <= Z.of_nat (posts w')
   <= Z.of_nat (posts w) + 3 * (n - cached))%Z.

(** No key is twice in the dictionary of the cache, and every cached value
    is a text that is not empty. *)
Definition sound_cache (c : TranslationCache.t (option pystr)) : Prop :=
  NoDup (OrderedDict.keys (TranslationCache.cache c)) /\
  Forall (fun kv => truthy_opt (snd kv) = true) (TranslationCache.cache c).

(** The endpoint never generates a blank text. *)
Definition never_blank (endpoint : nat -> pystr -> PostResult) : Prop :=
  forall n prompt took r text,
    endpoint n prompt = PostReturns took r ->
    payload r = PayloadText text ->
    blank text = false.

Section Tracking.
Variable md5_hexdigest : pystr -> pystr.

(** The translations of the texts of [l], latest first, are in the
    dictionary: the first with at most [j] entries after it, the next with
    at most [j + 1], and so on. *)
Fixpoint tracked (j : nat) (l : list (pystr * pystr))
  (d : OrderedDict.t (option pystr)) : Prop :=
  match l with
  | [] => True
  | (text, translation) :: l' =>
      parked (TranslationCache._hash_key md5_hexdigest text)
        (Some translation) j d /\
      truthy translation = true /\
      tracked (S j) l' d
  end.

(** The translations of the texts of [l] are in the dictionary. *)
Definition cached_all (l : list (pystr * pystr))
  (d : OrderedDict.t (option pystr)) : Prop :=
  Forall
    (fun tt =>
       truthy (snd tt) = true /\
       exists j,
         parked (TranslationCache._hash_key md5_hexdigest (fst tt))
           (Some (snd tt)) j d) l.

End Tracking.

(* ================================================================== *)
(** * Properties                                                        *)
(* ================================================================== *)

(** ** Strings *)

Lemma eqb_eq (a b : pystr) : Py.eqb a b = true <-> a = b.
Proof.
  revert b; induction a as [|x a IH]; intros [|y b]; simpl;
    try (split; [discriminate | discriminate]); try tauto.
  rewrite andb_true_iff, N.eqb_eq, IH. split.
  - intros [-> ->]; reflexivity.
  - intros H; injection H as -> ->; auto.
Qed.

Lemma eqb_refl (a : pystr) : Py.eqb a a = true.
Proof. apply eqb_eq; reflexivity. Qed.

Lemma eqb_neq (a b : pystr) : Py.eqb a b = false <-> a <> b.
Proof.
  rewrite <- eqb_eq. destruct (Py.eqb a b); split; congruence.
Qed.

(** ** The translation cache *)

Section OrderedDictFacts.
Variable V : Type.
Implicit Types d : OrderedDict.t V.

Lemma contains_key_In k d :
  OrderedDict.contains_key k d = true <-> In k (OrderedDict.keys d).
Proof.
  induction d as [|[k' v] d IH]; simpl.
  - split; [discriminate | tauto].
  - rewrite orb_true_iff, eqb_eq, IH. intuition congruence.
Qed.

Lemma contains_key_getitem k d :
  OrderedDict.contains_key k d = true ->
  exists v, OrderedDict.getitem k d = Some v.
Proof.
  induction d as [|[k' v] d IH]; simpl; [discriminate|].
  destruct (Py.eqb k k'); simpl; eauto.
Qed.

Lemma getitem_contains_key k d v :
  OrderedDict.getitem k d = Some v -> OrderedDict.contains_key k d = true.
Proof.
  induction d as [|[k' v'] d IH]; simpl; [discriminate|].
  destruct (Py.eqb k k'); simpl; auto.
Qed.

Lemma length_delitem k d :
  OrderedDict.contains_key k d = true ->
  S (length (OrderedDict.delitem k d)) = length d.
Proof.
  induction d as [|[k' v] d IH]; simpl; [discriminate|].
  destruct (Py.eqb k k'); simpl; auto.
Qed.

Lemma length_move_to_end k d :
  length (OrderedDict.move_to_end k d) = length d.
Proof.
  unfold OrderedDict.move_to_end.
  destruct (OrderedDict.getitem k d) eqn:E; [|reflexivity].
  rewrite length_app; simpl.
  apply getitem_contains_key in E. apply length_delitem in E. lia.
Qed.

Lemma setitem_fresh k v d :
  OrderedDict.contains_key k d = false ->
  OrderedDict.setitem k v d = d ++ [(k, v)].
Proof.
  induction d as [|[k' v'] d IH]; simpl; [reflexivity|].
  destruct (Py.eqb k k'); simpl; [discriminate|].
  intros H; rewrite IH; auto.
Qed.

Lemma length_setitem k v d :
  (length (OrderedDict.setitem k v d) <= S (length d))%nat.
Proof.
  induction d as [|[k' v'] d IH]; simpl; [lia|].
  destruct (Py.eqb k k'); simpl; lia.
Qed.

Lemma keys_delitem_notin k d :
  ~ In k (OrderedDict.keys d) -> OrderedDict.delitem k d = d.
Proof.
  induction d as [|[k' v] d IH]; simpl; [reflexivity|].
  intros H. destruct (Py.eqb k k') eqn:E.
  - apply eqb_eq in E. subst. tauto.
  - rewrite IH; tauto.
Qed.

Lemma keys_delitem_incl k d x :
  In x (OrderedDict.keys (OrderedDict.delitem k d)) ->
  In x (OrderedDict.keys d).
Proof.
  induction d as [|[k' v] d IH]; simpl; [tauto|].
  destruct (Py.eqb k k'); simpl; tauto.
Qed.

Lemma keys_delitem_NoDup k d :
  NoDup (OrderedDict.keys d) ->
  NoDup (OrderedDict.keys (OrderedDict.delitem k d)) /\
  ~ In k (OrderedDict.keys (OrderedDict.delitem k d)).
Proof.
  induction d as [|[k' v] d IH]; simpl.
  - split; [constructor | tauto].
  - intros H; inversion H as [|? ? Hn Hd]; subst.
    destruct (Py.eqb k k') eqn:E.
    + apply eqb_eq in E; subst. auto.
    + apply eqb_neq in E. destruct (IH Hd) as [IH1 IH2]. simpl. split.
      * constructor; auto. intros Hin; apply Hn.
        eapply keys_delitem_incl; eauto.
      * intros [->|Hin]; tauto.
Qed.

End OrderedDictFacts.

Section CacheFacts.
Variable V : Type.
Variable md5_hexdigest : pystr -> pystr.

Local Abbreviation cache_t := (TranslationCache.t V).
Local Abbreviation get := (TranslationCache.get md5_hexdigest).
Local Abbreviation set := (TranslationCache.set md5_hexdigest).
Local Abbreviation after_call := (TranslationCache.after_call md5_hexdigest).
Local Abbreviation after_calls := (TranslationCache.after_calls md5_hexdigest).
Local Abbreviation key := (TranslationCache._hash_key md5_hexdigest).
Local Abbreviation entries := TranslationCache.cache.
Local Abbreviation keys_of c := (OrderedDict.keys (TranslationCache.cache c)).

Implicit Types c : cache_t.

Lemma get_max_size c text :
  TranslationCache.max_size (snd (get c text)) = TranslationCache.max_size c.
Proof.
  unfold TranslationCache.get.
  destruct (OrderedDict.contains_key _ _); reflexivity.
Qed.

Lemma get_size c text :
  TranslationCache.size (snd (get c text)) = TranslationCache.size c.
Proof.
  unfold TranslationCache.get, TranslationCache.size.
  destruct (OrderedDict.contains_key _ _); simpl; [|reflexivity].
  now rewrite length_move_to_end.
Qed.

(** A hit counts as a hit, leaves the miss counter alone, returns the stored
    value and moves the entry to the most-recently-used end. *)
Lemma get_hit c text v :
  OrderedDict.getitem (key text) (entries c) = Some v ->
  NoDup (keys_of c) ->
  get c text =
    (Some v,
     TranslationCache.mk
       (OrderedDict.delitem (key text) (entries c) ++ [(key text, v)])
       (TranslationCache.max_size c) (TranslationCache.hits c + 1)
       (TranslationCache.misses c)).
Proof.
  intros Hg Hnd. unfold TranslationCache.get.
  rewrite (getitem_contains_key _ _ Hg).
  unfold OrderedDict.move_to_end. rewrite Hg. f_equal.
  destruct (keys_delitem_NoDup (key text) _ Hnd) as [_ Hnot].
  generalize dependent (OrderedDict.delitem (key text) (entries c)).
  intros d Hnot. induction d as [|[k' v'] d IH]; simpl.
  - now rewrite eqb_refl.
  - simpl in Hnot. destruct (Py.eqb (key text) k') eqn:E.
    + apply eqb_eq in E. exfalso; apply Hnot; left; now symmetry.
    + apply IH. intros Hin; apply Hnot; now right.
Qed.

Lemma get_miss c text :
  OrderedDict.contains_key (key text) (entries c) = false ->
  get c text =
    (None,
     TranslationCache.mk (entries c) (TranslationCache.max_size c)
       (TranslationCache.hits c) (TranslationCache.misses c + 1)).
Proof.
  intros H. unfold TranslationCache.get. now rewrite H.
Qed.

(** [set] raises only on an empty cache whose capacity is not positive. *)
Lemma set_ok c text v :
  (1 <= TranslationCache.max_size c)%Z -> exists c', set c text v = Ok c'.
Proof.
  intros H. unfold TranslationCache.set.
  destruct (TranslationCache.max_size c <=? TranslationCache.size c)%Z eqn:E;
    [|eauto].
  destruct (entries c) as [|e d] eqn:Ed; simpl; [|eauto].
  unfold TranslationCache.size in E. rewrite Ed in E. simpl in E. lia.
Qed.

Lemma set_max_size c text v c' :
  set c text v = Ok c' ->
  TranslationCache.max_size c' = TranslationCache.max_size c.
Proof.
  unfold TranslationCache.set.
  destruct (_ <=? _)%Z.
  - destruct (OrderedDict.popitem_first _) as [[e d]|]; [|discriminate].
    intros H; injection H as <-; reflexivity.
  - intros H; injection H as <-; reflexivity.
Qed.

Lemma set_size c text v c' :
  (TranslationCache.size c <= TranslationCache.max_size c)%Z ->
  set c text v = Ok c' ->
  (TranslationCache.size c' <= TranslationCache.max_size c)%Z.
Proof.
  unfold TranslationCache.set, TranslationCache.size. intros Hle.
  destruct (_ <=? _)%Z eqn:E.
  - destruct (entries c) as [|e d] eqn:Ed; simpl; [discriminate|].
    intros H; injection H as <-; simpl.
    pose proof (length_setitem (key text) v d). simpl in Hle. lia.
  - intros H; injection H as <-; simpl.
    pose proof (length_setitem (key text) v (entries c)).
    apply Z.leb_gt in E. lia.
Qed.

(** Inserting a text that is not cached into a full cache evicts the entry
    at the head of the order, keeps the others in order and puts the new
    entry last. *)
Lemma set_full_fresh c text v :
  (1 <= TranslationCache.max_size c)%Z ->
  TranslationCache.size c = TranslationCache.max_size c ->
  OrderedDict.contains_key (key text) (entries c) = false ->
  exists c', set c text v = Ok c' /\
    entries c' = tl (entries c) ++ [(key text, v)] /\
    TranslationCache.max_size c' = TranslationCache.max_size c /\
    TranslationCache.hits c' = TranslationCache.hits c /\
    TranslationCache.misses c' = TranslationCache.misses c.
Proof.
  intros Hcap Hfull Hfresh. unfold TranslationCache.set.
  rewrite <- Hfull, Z.leb_refl.
  unfold TranslationCache.size in Hfull.
  destruct (entries c) as [|[k0 v0] d] eqn:Ed; simpl in *; [lia|].
  eexists; split; [reflexivity|]. simpl.
  destruct (Py.eqb (key text) k0); [discriminate|]. simpl in Hfresh.
  rewrite setitem_fresh by assumption. auto.
Qed.

(** Inserting a text that is not cached into a cache with room appends it. *)
Lemma set_room_fresh c text v :
  (TranslationCache.size c < TranslationCache.max_size c)%Z ->
  OrderedDict.contains_key (key text) (entries c) = false ->
  set c text v =
    Ok (TranslationCache.mk (entries c ++ [(key text, v)])
          (TranslationCache.max_size c) (TranslationCache.hits c)
          (TranslationCache.misses c)).
Proof.
  intros Hroom Hfresh. unfold TranslationCache.set.
  apply Z.leb_gt in Hroom. rewrite Hroom.
  now rewrite setitem_fresh.
Qed.

Lemma after_call_max_size c op :
  TranslationCache.max_size (after_call c op) = TranslationCache.max_size c.
Proof.
  destruct op as [text|text v]; simpl.
  - apply get_max_size.
  - destruct (set c text v) eqn:E; [|reflexivity].
    eapply set_max_size; eauto.
Qed.

Lemma after_call_size c op :
  (TranslationCache.size c <= TranslationCache.max_size c)%Z ->
  (TranslationCache.size (after_call c op) <= TranslationCache.max_size c)%Z.
Proof.
  intros H. destruct op as [text|text v]; simpl.
  - now rewrite get_size.
  - destruct (set c text v) eqn:E; [|assumption].
    eapply set_size; eauto.
Qed.

Lemma after_calls_bounded ops c :
  (TranslationCache.size c <= TranslationCache.max_size c)%Z ->
  (TranslationCache.size (after_calls c ops) <= TranslationCache.max_size c)%Z
  /\ TranslationCache.max_size (after_calls c ops) = TranslationCache.max_size c.
Proof.
  revert c; induction ops as [|op ops IH]; intros c H; simpl; [auto|].
  unfold TranslationCache.after_calls in *. simpl.
  destruct (IH (after_call c op)) as [IH1 IH2].
  - rewrite after_call_max_size. now apply after_call_size.
  - rewrite after_call_max_size in IH1, IH2. auto.
Qed.

Lemma after_calls_snoc c ops op :
  after_calls c (ops ++ [op]) = after_call (after_calls c ops) op.
Proof.
  unfold TranslationCache.after_calls. now rewrite fold_left_app.
Qed.

End CacheFacts.

Section CacheRecency.
Variable V : Type.
Variable md5_hexdigest : pystr -> pystr.

Local Abbreviation cache_t := (TranslationCache.t V).
Local Abbreviation get := (TranslationCache.get md5_hexdigest).
Local Abbreviation set := (TranslationCache.set md5_hexdigest).
Local Abbreviation after_call := (TranslationCache.after_call md5_hexdigest).
Local Abbreviation after_calls := (TranslationCache.after_calls md5_hexdigest).
Local Abbreviation key := (TranslationCache._hash_key md5_hexdigest).
Local Abbreviation last_use := (@TranslationCache.last_use V md5_hexdigest).
Local Abbreviation call_key := (@TranslationCache.call_key V md5_hexdigest).
Local Abbreviation entries := TranslationCache.cache.
Local Abbreviation keys_of c := (OrderedDict.keys (TranslationCache.cache c)).
Local Abbreviation follows :=
  (TranslationCache.sets_follow_misses md5_hexdigest).

Implicit Types c : cache_t.

Lemma last_use_snoc ops op k :
  last_use (ops ++ [op]) k =
  if Py.eqb (call_key op) k then S (length ops) else last_use ops k.
Proof.
  unfold TranslationCache.last_use. rewrite rev_app_distr. simpl.
  now rewrite length_rev.
Qed.

Lemma last_use_le ops k : (last_use ops k <= length ops)%nat.
Proof.
  induction ops as [|op ops IH] using rev_ind; [reflexivity|].
  rewrite last_use_snoc, length_app. simpl.
  destruct (Py.eqb _ _); lia.
Qed.

Lemma by_recency_nil ops : @by_recency V md5_hexdigest ops [].
Proof. split; constructor. Qed.

Lemma by_recency_tl ops ks : @by_recency V md5_hexdigest ops ks -> @by_recency V md5_hexdigest ops (tl ks).
Proof.
  destruct ks as [|k ks]; [auto|]. intros [Hn Hs]. simpl in *.
  inversion Hn; inversion Hs; subst. split; assumption.
Qed.

Lemma sorted_map_delitem (f : pystr -> nat) k (d : OrderedDict.t V) :
  StronglySorted lt (map f (OrderedDict.keys d)) ->
  StronglySorted lt (map f (OrderedDict.keys (OrderedDict.delitem k d))).
Proof.
  induction d as [|[k' v] d IH]; simpl; [auto|].
  intros H; inversion H as [|? ? Hs Hall]; subst.
  destruct (Py.eqb k k'); [assumption|]. simpl. constructor; [auto|].
  rewrite Forall_forall in *. intros x Hx. apply Hall.
  apply in_map_iff in Hx as (y & <- & Hy). apply in_map.
  eapply keys_delitem_incl; eauto.
Qed.

(** A call on [k] makes [k] the most recent key. *)
Lemma by_recency_touch ops op ks :
  @by_recency V md5_hexdigest ops ks -> ~ In (call_key op) ks ->
  @by_recency V md5_hexdigest (ops ++ [op]) (ks ++ [call_key op]).
Proof.
  intros [Hn Hs] Hnot. split.
  - apply NoDup_app; [assumption | repeat constructor; simpl; tauto |].
    intros x Hx [<-|[]]. tauto.
  - rewrite map_app. simpl.
    rewrite last_use_snoc, eqb_refl.
    assert (E : map (last_use (ops ++ [op])) ks = map (last_use ops) ks).
    { apply map_ext_in. intros x Hx. rewrite last_use_snoc.
      destruct (Py.eqb (call_key op) x) eqn:E; [|reflexivity].
      apply eqb_eq in E. subst. tauto. }
    rewrite E. clear E Hn Hnot.
    induction ks as [|k ks IH]; simpl.
    + repeat constructor.
    + inversion Hs as [|? ? Hs' Hall]; subst. constructor; [auto|].
      apply Forall_app. split; [assumption|].
      constructor; [|constructor].
      pose proof (last_use_le ops k). lia.
Qed.

(** A call on a key outside [ks] leaves the order of [ks] as it is. *)
Lemma by_recency_other ops op ks :
  @by_recency V md5_hexdigest ops ks -> ~ In (call_key op) ks ->
  @by_recency V md5_hexdigest (ops ++ [op]) ks.
Proof.
  intros [Hn Hs] Hnot. split; [assumption|].
  erewrite map_ext_in; [exact Hs|].
  intros x Hx. rewrite last_use_snoc.
  destruct (Py.eqb (call_key op) x) eqn:E; [|reflexivity].
  apply eqb_eq in E. subst. tauto.
Qed.

Lemma keys_app (d1 d2 : OrderedDict.t V) :
  OrderedDict.keys (d1 ++ d2) = OrderedDict.keys d1 ++ OrderedDict.keys d2.
Proof. apply map_app. Qed.

Lemma keys_tl (d : OrderedDict.t V) :
  OrderedDict.keys (tl d) = tl (OrderedDict.keys d).
Proof. destruct d; reflexivity. Qed.

Lemma not_contains_key k (d : OrderedDict.t V) :
  OrderedDict.contains_key k d = false -> ~ In k (OrderedDict.keys d).
Proof.
  intros H Hin. apply contains_key_In in Hin. congruence.
Qed.

(** One call keeps the cached keys in the order of their last use, when a
    [set] stores a text that is not cached. *)
Lemma after_call_by_recency ops op c :
  (1 <= TranslationCache.max_size c)%Z ->
  (TranslationCache.size c <= TranslationCache.max_size c)%Z ->
  @by_recency V md5_hexdigest ops (keys_of c) ->
  follows c [op] ->
  @by_recency V md5_hexdigest (ops ++ [op]) (keys_of (after_call c op)).
Proof.
  intros Hcap Hsz Hrec [Hop _].
  destruct op as [text|text v]; simpl.
  - destruct (OrderedDict.contains_key (key text) (entries c)) eqn:Ec.
    + destruct (contains_key_getitem _ _ Ec) as [v Hv].
      rewrite (get_hit md5_hexdigest c text Hv) by apply Hrec. simpl.
      rewrite keys_app. simpl.
      apply (by_recency_touch (TranslationCache.CallGet V text)).
      * destruct Hrec as [Hn Hs]. split.
        -- exact (proj1 (@keys_delitem_NoDup V (key text) _ Hn)).
        -- now apply sorted_map_delitem.
      * exact (proj2 (@keys_delitem_NoDup V (key text) _ (proj1 Hrec))).
    + rewrite get_miss by assumption. simpl.
      apply (by_recency_other (TranslationCache.CallGet V text));
        [assumption|]. now apply not_contains_key.
  - simpl in Hop.
    destruct (Z.eq_dec (TranslationCache.size c) (TranslationCache.max_size c))
      as [Hfull|Hroom].
    + destruct (set_full_fresh md5_hexdigest c text v Hcap Hfull Hop)
        as (c' & -> & Hc' & _).
      rewrite Hc', keys_app, keys_tl. simpl.
      apply (by_recency_touch (TranslationCache.CallSet text v)).
      * now apply by_recency_tl.
      * intros Hin. apply (not_contains_key _ _ Hop).
        destruct (entries c); simpl in *; tauto.
    + rewrite set_room_fresh by (assumption || lia). simpl.
      rewrite keys_app. simpl.
      apply (by_recency_touch (TranslationCache.CallSet text v));
        [assumption|]. now apply not_contains_key.
Qed.

Lemma follows_app c ops1 ops2 :
  follows c (ops1 ++ ops2) <->
  follows c ops1 /\ follows (after_calls c ops1) ops2.
Proof.
  revert c; induction ops1 as [|op ops1 IH]; intros c; simpl.
  - tauto.
  - rewrite IH. unfold TranslationCache.after_calls. simpl. tauto.
Qed.

Lemma after_calls_by_recency ops cap :
  (1 <= cap)%Z ->
  follows (TranslationCache.init V cap) ops ->
  @by_recency V md5_hexdigest ops (keys_of (after_calls (TranslationCache.init V cap) ops)).
Proof.
  intros Hcap. induction ops as [|op ops IH] using rev_ind; intros Hf.
  - apply by_recency_nil.
  - apply follows_app in Hf as [Hf1 Hf2].
    rewrite after_calls_snoc.
    destruct (@after_calls_bounded V md5_hexdigest ops
                (TranslationCache.init V cap)) as [Hb Hm].
    { unfold TranslationCache.size; simpl; lia. }
    simpl in Hb, Hm.
    apply after_call_by_recency; try rewrite Hm; auto.
Qed.

End CacheRecency.

Section CacheTheorem.
Variable V : Type.
Variable md5_hexdigest : pystr -> pystr.

Local Abbreviation get := (TranslationCache.get md5_hexdigest).
Local Abbreviation set := (TranslationCache.set md5_hexdigest).
Local Abbreviation after_call := (TranslationCache.after_call md5_hexdigest).
Local Abbreviation after_calls := (TranslationCache.after_calls md5_hexdigest).
Local Abbreviation key := (TranslationCache._hash_key md5_hexdigest).
Local Abbreviation last_use := (@TranslationCache.last_use V md5_hexdigest).
Local Abbreviation entries := TranslationCache.cache.
Local Abbreviation entry := (@TranslationCache.entry V md5_hexdigest).
Local Abbreviation set_all := (@TranslationCache.set_all V).
Local Abbreviation follows :=
  (TranslationCache.sets_follow_misses md5_hexdigest).
Local Abbreviation new := (TranslationCache.init V).

Lemma keys_setitem k (v : V) d :
  OrderedDict.keys (OrderedDict.setitem k v d) =
  if OrderedDict.contains_key k d then OrderedDict.keys d
  else OrderedDict.keys d ++ [k].
Proof.
  induction d as [|[k' v'] d IH]; simpl; [reflexivity|].
  destruct (Py.eqb k k') eqn:E; simpl; [reflexivity|].
  rewrite IH. now destruct (OrderedDict.contains_key k d).
Qed.

Lemma NoDup_keys_setitem k (v : V) d :
  NoDup (OrderedDict.keys d) ->
  NoDup (OrderedDict.keys (OrderedDict.setitem k v d)).
Proof.
  intros H. rewrite keys_setitem.
  destruct (OrderedDict.contains_key k d) eqn:E; [assumption|].
  apply NoDup_app; [assumption | repeat constructor; simpl; tauto |].
  intros x Hx [<-|[]]. now apply (not_contains_key _ _ E).
Qed.

Lemma NoDup_keys_after_call (c : TranslationCache.t V) op :
  NoDup (OrderedDict.keys (entries c)) ->
  NoDup (OrderedDict.keys (entries (after_call c op))).
Proof.
  intros H. destruct op as [text|text v]; simpl.
  - unfold TranslationCache.get.
    destruct (OrderedDict.contains_key _ _) eqn:E; simpl; [|assumption].
    unfold OrderedDict.move_to_end.
    destruct (OrderedDict.getitem _ _) eqn:G; [|assumption].
    rewrite keys_app. simpl.
    destruct (@keys_delitem_NoDup V (key text) _ H) as [H1 H2].
    apply NoDup_app; [assumption | repeat constructor; simpl; tauto |].
    intros x Hx [<-|[]]. tauto.
  - unfold TranslationCache.set.
    destruct (_ <=? _)%Z.
    + destruct (entries c) as [|e d] eqn:Ed; simpl; [now rewrite Ed|].
      apply NoDup_keys_setitem. simpl in H. now inversion H.
    + simpl. now apply NoDup_keys_setitem.
Qed.

Lemma NoDup_keys_after_calls ops (c : TranslationCache.t V) :
  NoDup (OrderedDict.keys (entries c)) ->
  NoDup (OrderedDict.keys (entries (after_calls c ops))).
Proof.
  revert c; induction ops as [|op ops IH]; intros c H; [exact H|].
  apply (IH (after_call c op)). now apply NoDup_keys_after_call.
Qed.

(** Storing pairwise distinct texts one after the other, while there is
    room, lists them in the order of insertion. *)
Lemma set_all_room cap kvs :
  (Z.of_nat (length kvs) <= cap)%Z ->
  NoDup (map key (map fst kvs)) ->
  after_calls (new cap) (set_all kvs) =
  TranslationCache.mk (map entry kvs) cap 0 0.
Proof.
  induction kvs as [|kv kvs IH] using rev_ind; intros Hlen Hnd.
  - reflexivity.
  - rewrite length_app in Hlen. simpl in Hlen.
    rewrite !map_app in Hnd. simpl in Hnd.
    apply NoDup_remove in Hnd as [Hnd Hnot]. rewrite app_nil_r in Hnd, Hnot.
    unfold TranslationCache.set_all in *. rewrite map_app. simpl.
    rewrite after_calls_snoc, IH by (assumption || lia). simpl.
    rewrite set_room_fresh; simpl.
    + now rewrite map_app.
    + unfold TranslationCache.size. simpl. rewrite length_map. lia.
    + destruct (OrderedDict.contains_key _ _) eqn:E; [|reflexivity].
      apply contains_key_In in E. exfalso. apply Hnot.
      unfold OrderedDict.keys in E. rewrite map_map in E. simpl in E.
      now rewrite map_map.
Qed.

End CacheTheorem.

(** C4. The translation cache is a bounded LRU cache.  For a capacity that
    is not negative, the cache holds at most [capacity] entries after any
    sequence of [get] and [set] calls on a new cache.  For a positive
    capacity: storing [capacity + 1] texts with pairwise distinct keys
    evicts exactly the first one; in a run whose [set]s store texts that are
    not cached, the entry that an insertion into the full cache evicts is
    the one whose last use ([set] or [get]) is the oldest, all other entries
    are kept and the new one becomes the most recent; and a [get] that hits
    returns the stored value, counts one hit and moves the entry to the
    most-recently-used end. *)
Theorem cache_bounded_lru (V : Type) (md5_hexdigest : pystr -> pystr)
  (capacity : Z) :
  (0 <= capacity)%Z ->
  (forall ops,
     (TranslationCache.size
        (TranslationCache.after_calls md5_hexdigest
           (TranslationCache.init V capacity) ops) <= capacity)%Z) /\
  (forall kvs kv,
     (1 <= capacity)%Z ->
     Z.of_nat (length kvs) = capacity ->
     NoDup (map (TranslationCache._hash_key md5_hexdigest)
              (map fst (kvs ++ [kv]))) ->
     TranslationCache.cache
       (TranslationCache.after_calls md5_hexdigest
          (TranslationCache.init V capacity)
          (TranslationCache.set_all (kvs ++ [kv]))) =
     tl (map (TranslationCache.entry md5_hexdigest) kvs)
       ++ [TranslationCache.entry md5_hexdigest kv]) /\
  (forall ops text v,
     let c := TranslationCache.after_calls md5_hexdigest
                (TranslationCache.init V capacity) ops in
     (1 <= capacity)%Z ->
     TranslationCache.sets_follow_misses md5_hexdigest
       (TranslationCache.init V capacity) ops ->
     TranslationCache.size c = capacity ->
     OrderedDict.contains_key (TranslationCache._hash_key md5_hexdigest text)
       (TranslationCache.cache c) = false ->
     exists old rest c',
       TranslationCache.cache c = old :: rest /\
       TranslationCache.set md5_hexdigest c text v = Ok c' /\
       TranslationCache.cache c' =
         rest ++ [(TranslationCache._hash_key md5_hexdigest text, v)] /\
       forall k, In k (OrderedDict.keys rest) ->
         (TranslationCache.last_use md5_hexdigest ops (fst old) <
          TranslationCache.last_use md5_hexdigest ops k)%nat) /\
  (forall ops text v,
     let c := TranslationCache.after_calls md5_hexdigest
                (TranslationCache.init V capacity) ops in
     OrderedDict.getitem (TranslationCache._hash_key md5_hexdigest text)
       (TranslationCache.cache c) = Some v ->
     TranslationCache.get md5_hexdigest c text =
       (Some v,
        TranslationCache.mk
          (OrderedDict.delitem
             (TranslationCache._hash_key md5_hexdigest text)
             (TranslationCache.cache c)
             ++ [(TranslationCache._hash_key md5_hexdigest text, v)])
          (TranslationCache.max_size c) (TranslationCache.hits c + 1)
          (TranslationCache.misses c))).
Proof.
  intros Hcap.
  assert (Hb : forall ops,
    (TranslationCache.size
       (TranslationCache.after_calls md5_hexdigest
          (TranslationCache.init V capacity) ops) <= capacity)%Z /\
    TranslationCache.max_size
       (TranslationCache.after_calls md5_hexdigest
          (TranslationCache.init V capacity) ops) = capacity).
  { intros ops.
    apply (@after_calls_bounded V md5_hexdigest ops
             (TranslationCache.init V capacity)).
    unfold TranslationCache.size; simpl; lia. }
  repeat split.
  - intros ops. apply Hb.
  - intros kvs kv Hpos Hlen Hnd.
    unfold TranslationCache.set_all. rewrite map_app. simpl.
    rewrite after_calls_snoc.
    fold (TranslationCache.set_all kvs).
    rewrite !map_app in Hnd. simpl in Hnd.
    apply NoDup_remove in Hnd as [Hnd Hnot]. rewrite app_nil_r in Hnd, Hnot.
    rewrite set_all_room by (assumption || lia).
    assert (Hfresh : OrderedDict.contains_key
              (TranslationCache._hash_key md5_hexdigest (fst kv))
              (map (TranslationCache.entry md5_hexdigest) kvs) = false).
    { destruct (OrderedDict.contains_key _ _) eqn:E; [|reflexivity].
      apply contains_key_In in E. exfalso. apply Hnot.
      unfold OrderedDict.keys in E. rewrite map_map in E. simpl in E.
      now rewrite map_map. }
    destruct (@set_full_fresh V md5_hexdigest
                 (TranslationCache.mk
                    (map (TranslationCache.entry md5_hexdigest) kvs)
                    capacity 0 0) (fst kv) (snd kv))
      as (c' & Hset & Hc' & _).
    + exact Hpos.
    + unfold TranslationCache.size. simpl. now rewrite length_map.
    + exact Hfresh.
    + simpl. rewrite Hset. exact Hc'.
  - intros ops text v c Hpos Hfol Hfull Hfresh.
    pose proof (@after_calls_by_recency V md5_hexdigest ops capacity Hpos Hfol)
      as [Hnd Hs].
    fold c in Hnd, Hs.
    destruct (Hb ops) as [_ Hmax]. fold c in Hmax.
    destruct (@set_full_fresh V md5_hexdigest c text v)
      as (c' & Hset & Hc' & _);
      [now rewrite Hmax | now rewrite Hmax | assumption |].
    destruct (TranslationCache.cache c) as [|old rest] eqn:Ec.
    + unfold TranslationCache.size in Hfull. rewrite Ec in Hfull.
      simpl in Hfull. lia.
    + exists old, rest, c'. repeat split; try assumption.
      intros k Hk. simpl in Hs. apply StronglySorted_inv in Hs as [_ Hall].
      rewrite Forall_forall in Hall. apply Hall. now apply in_map.
  - intros ops text v c Hv. apply get_hit; [assumption|].
    apply NoDup_keys_after_calls. constructor.
Qed.

(** A cache of capacity 2 with the identity for keys: storing [a], [b] and
    then [c] leaves [b] and [c]. *)
Lemma cache_bounded_lru_witness :
  (0 <= 2)%Z /\
  TranslationCache.cache
    (TranslationCache.after_calls (fun s => s)
       (TranslationCache.init pystr 2)
       (TranslationCache.set_all
          ([(lit "a", lit "x"); (lit "b", lit "y")] ++ [(lit "c", lit "z")])))
  = [(lit "b", lit "y"); (lit "c", lit "z")].
Proof.
  split; [lia|].
  refine (proj1 (proj2 (cache_bounded_lru pystr (fun s => s) (capacity := 2) _))
            [(lit "a", lit "x"); (lit "b", lit "y")] (lit "c", lit "z")
            _ _ _).
  - lia.
  - lia.
  - reflexivity.
  - vm_compute. repeat constructor; simpl; intuition discriminate.
Defined.

(** ** Reassembly of the translated chunks *)

Section Reassembly.
Import RAGTranslationPipeline.

Lemma overlap_sizes_In start k :
  In k (overlap_sizes start) <->
  10 < k <= start /\ exists j, start = k + 5 * j.
Proof.
  unfold overlap_sizes. rewrite in_map_iff.
  pose proof (Nat.div_mod_eq (start - 10 + 4) 5) as Hd.
  pose proof (Nat.mod_upper_bound (start - 10 + 4) 5) as Hm.
  split.
  - intros (j & <- & Hj). apply in_seq in Hj. split; [lia|].
    exists j. lia.
  - intros (Hk & j & ->). exists j. split; [lia|].
    apply in_seq. lia.
Qed.

Lemma overlap_sizes_sorted_from start a n :
  (n = 0 \/ 5 * (a + n - 1) < start) ->
  StronglySorted gt (map (fun j => start - 5 * j) (seq a n)).
Proof.
  revert a; induction n as [|n IH]; intros a H; simpl; constructor.
  - apply IH. destruct n; [now left | right; lia].
  - apply Forall_forall. intros x Hx.
    apply in_map_iff in Hx as (j & <- & Hj). apply in_seq in Hj. lia.
Qed.

Lemma overlap_sizes_sorted start : StronglySorted gt (overlap_sizes start).
Proof.
  apply overlap_sizes_sorted_from.
  pose proof (Nat.div_mod_eq (start - 10 + 4) 5) as Hd.
  pose proof (Nat.mod_upper_bound (start - 10 + 4) 5) as Hm.
  destruct ((start - 10 + 4) / 5); [now left | right; lia].
Qed.

(** On a decreasing list [find] returns the greatest element that passes. *)
Lemma find_greatest (f : nat -> bool) l k :
  StronglySorted gt l -> In k l -> f k = true ->
  (forall k', In k' l -> k < k' -> f k' = false) ->
  find f l = Some k.
Proof.
  induction l as [|a l IH]; simpl; [tauto|].
  intros Hs Hin Hk Hgt. apply StronglySorted_inv in Hs as [Hs Hall].
  destruct Hin as [->|Hin].
  - now rewrite Hk.
  - rewrite Forall_forall in Hall.
    rewrite (Hgt a) by (auto; apply Hall; assumption).
    apply IH; auto.
Qed.

Lemma find_none (f : nat -> bool) l :
  (forall k, In k l -> f k = false) -> find f l = None.
Proof.
  induction l as [|a l IH]; simpl; [reflexivity|].
  intros H. rewrite (H a) by auto. apply IH. auto.
Qed.

End Reassembly.




(** ** Issue detection *)

Section Substrings.

Lemma startswith_iff (p s : pystr) :
  startswith p s = true <-> exists b, s = p ++ b.
Proof.
  revert s; induction p as [|x p IH]; intros s; simpl.
  - split; eauto.
  - destruct s as [|y s].
    + split; [discriminate | intros [b Hb]; discriminate].
    + rewrite andb_true_iff, N.eqb_eq, IH. split.
      * intros [-> [b ->]]. eauto.
      * intros [b Hb]. injection Hb as -> ->. eauto.
Qed.

(** [needle in s] holds exactly when [s] is some text, the needle, and some
    more text. *)
Lemma contains_iff (needle s : pystr) :
  contains needle s = true <-> exists a b, s = a ++ needle ++ b.
Proof.
  induction s as [|c s IH]; simpl.
  - rewrite orb_false_r, startswith_iff. split.
    + intros [b Hb]. exists [], b. exact Hb.
    + intros (a & b & H). destruct a; [eauto|discriminate].
  - rewrite orb_true_iff, startswith_iff, IH. split.
    + intros [[b Hb]|(a & b & ->)].
      * exists [], b. exact Hb.
      * exists (c :: a), b. reflexivity.
    + intros (a & b & H). destruct a as [|c' a].
      * left. eauto.
      * right. injection H as -> ->. eauto.
Qed.

Lemma startswith_last_absent (needle s : pystr) :
  needle <> [] -> ~ In (last needle 0%N) s -> startswith needle s = false.
Proof.
  revert s; induction needle as [|n needle IH]; intros s Hne Hnot;
    [congruence|].
  destruct s as [|y s]; [reflexivity|]. simpl.
  destruct needle as [|n2 needle].
  - simpl in Hnot. destruct (N.eqb_spec n y); [subst; tauto | reflexivity].
  - rewrite IH; [apply andb_false_r | discriminate |].
    intros Hin. apply Hnot. now right.
Qed.

Lemma startswith_app_absent (needle x tail : pystr) :
  needle <> [] -> ~ In (last needle 0%N) tail ->
  startswith needle (x ++ tail) = startswith needle x.
Proof.
  revert x; induction needle as [|n needle IH]; intros x Hne Hnot;
    [congruence|].
  destruct x as [|y x].
  - simpl app. rewrite startswith_last_absent by assumption. reflexivity.
  - simpl. destruct needle as [|n2 needle]; [reflexivity|].
    rewrite IH; [reflexivity | discriminate | exact Hnot].
Qed.

(** Text whose characters never end the needle can be cut off the end. *)
Lemma contains_app_absent (needle x tail : pystr) :
  needle <> [] -> ~ In (last needle 0%N) tail ->
  contains needle (x ++ tail) = contains needle x.
Proof.
  intros Hne Hnot. induction x as [|c x IH].
  - simpl app.
    assert (H : contains needle tail = false).
    { clear -Hne Hnot. induction tail as [|c t IH]; simpl.
      - destruct needle; [congruence | reflexivity].
      - rewrite startswith_last_absent by assumption. simpl.
        apply IH. intros Hin. apply Hnot. now right. }
    rewrite H. simpl. destruct needle; [congruence | reflexivity].
  - change ((c :: x) ++ tail) with (c :: (x ++ tail)).
    change (contains needle (c :: x ++ tail))
      with (startswith needle ((c :: x) ++ tail)
            || contains needle (x ++ tail)).
    rewrite startswith_app_absent, IH by assumption. reflexivity.
Qed.

End Substrings.

(** C10, as amended.  [detect_issues] reports "Translation failed for some
    chunks" exactly when the text contains "Translation unavailable".  The
    marker that [translate_document] puts in place of a failed chunk
    triggers the tag exactly when the first 100 characters of the chunk
    contain that phrase: the wording of the marker does not trigger it, the
    text of the chunk can.  So the marker of a chunk in which the phrase does
    not occur never triggers the tag. *)
Theorem detect_issues_failed_tag :
  (forall translated : pystr,
     In TranslationQuality.FAILED_CHUNKS
        (TranslationQuality.detect_issues translated) <->
     exists a b, translated = a ++ lit "Translation unavailable" ++ b) /\
  (forall chunk_text : pystr,
     In TranslationQuality.FAILED_CHUNKS
        (TranslationQuality.detect_issues
           (RAGTranslationPipeline.failure_marker chunk_text)) <->
     exists a b,
       prefix 100 chunk_text = a ++ lit "Translation unavailable" ++ b) /\
  (forall chunk_text : pystr,
     ~ (exists a b, chunk_text = a ++ lit "Translation unavailable" ++ b) ->
     ~ In TranslationQuality.FAILED_CHUNKS
         (TranslationQuality.detect_issues
            (RAGTranslationPipeline.failure_marker chunk_text))).
Proof.
  assert (Htag : forall translated : pystr,
     In TranslationQuality.FAILED_CHUNKS
        (TranslationQuality.detect_issues translated) <->
     contains (lit "Translation unavailable") translated = true).
  { intros t. unfold TranslationQuality.detect_issues.
    destruct (contains (lit "[?]") t), (len t <? 10)%Z,
      (contains (lit "Translation unavailable") t); simpl;
      split; intros H; try reflexivity; try discriminate; auto;
      repeat (destruct H as [H|H]; [vm_compute in H; discriminate|]);
      try contradiction. }
  assert (Hmark : forall chunk_text,
     contains (lit "Translation unavailable")
       (RAGTranslationPipeline.failure_marker chunk_text) =
     contains (lit "Translation unavailable") (prefix 100 chunk_text)).
  { intros x. unfold RAGTranslationPipeline.failure_marker.
    transitivity (contains (lit "Translation unavailable")
                    (prefix 100 x ++ lit "...]")).
    - generalize (prefix 100 x ++ lit "...]"). intros y.
      vm_compute. reflexivity.
    - apply contains_app_absent; vm_compute; [discriminate|].
      intuition discriminate. }
  split; [|split].
  - intros t. rewrite Htag. apply contains_iff.
  - intros x. rewrite Htag, Hmark. apply contains_iff.
  - intros x Hnot. rewrite Htag, Hmark, contains_iff.
    intros (a & b & H). apply Hnot. exists a, (b ++ drop 100 x).
    rewrite <- (firstn_skipn 100 x) at 1. fold (prefix 100 x). rewrite H.
    now rewrite <- !app_assoc.
Qed.

(** A chunk in which the phrase does not occur. *)
Lemma detect_issues_failed_tag_witness :
  ~ In TranslationQuality.FAILED_CHUNKS
      (TranslationQuality.detect_issues
         (RAGTranslationPipeline.failure_marker (lit "Khasra number 42."))).
Proof.
  apply (proj2 (proj2 detect_issues_failed_tag) (lit "Khasra number 42.")).
  intros (a & b & H).
  assert (Hc : contains (lit "Translation unavailable")
                 (lit "Khasra number 42.") = true)
    by (apply contains_iff; eauto).
  vm_compute in Hc. discriminate.
Defined.

(** ** The generator client *)

Section GeneratorFacts.
Variable endpoint : nat -> pystr -> PostResult.

Local Abbreviation generate := (GeminiGenerator.generate endpoint).
Local Abbreviation attempts := (GeminiGenerator.attempts endpoint).
Local Abbreviation attempt_once := (GeminiGenerator.attempt_once endpoint).

Lemma attempt_once_exactly_one prompt attempt g w text error g' w' :
  attempt_once prompt attempt g w = (GeminiGenerator.Return text error, g', w') ->
  exactly_one (text, error).
Proof.
  unfold GeminiGenerator.attempt_once, exactly_one.
  destruct (endpoint (posts w) prompt) as [|str_e|took r].
  - destruct (GeminiGenerator.last_attempt attempt); intros H;
      inversion H; subst; simpl; right; split; congruence.
  - destruct (GeminiGenerator.last_attempt attempt); intros H;
      inversion H; subst; simpl; right; split; congruence.
  - destruct (status_code r =? 429)%Z; [discriminate|].
    destruct (status_code r =? 503)%Z; [discriminate|].
    destruct (_ && _); [|destruct (payload r)];
      destruct (GeminiGenerator.last_attempt attempt); intros H;
      inversion H; subst; simpl;
      solve [right; split; congruence | left; split; congruence].
Qed.

Lemma attempts_exactly_one prompt remaining attempt g w :
  exactly_one (fst (fst (attempts prompt remaining attempt g w))).
Proof.
  revert attempt g w; induction remaining as [|n IH]; intros attempt g w.
  - right. simpl. split; congruence.
  - simpl. destruct (attempt_once prompt attempt g w) as [[[|text error] g'] w']
      eqn:E.
    + apply IH.
    + simpl. eapply attempt_once_exactly_one; eauto.
Qed.

End GeneratorFacts.

(** C5.  Whatever the endpoint answers, [generate] returns, and the pair it
    returns has exactly one component that is not [None]: a text with no
    error, or no text with an error. *)
Theorem generate_exactly_one (endpoint : nat -> pystr -> PostResult)
  (g : GeminiGenerator.t) (w : World) (prompt : pystr) :
  exists text error g' w',
    GeminiGenerator.generate endpoint g w prompt = ((text, error), g', w') /\
    ((exists s, text = Some s /\ error = None) \/
     (exists e, text = None /\ error = Some e)).
Proof.
  destruct (GeminiGenerator.generate endpoint g w prompt)
    as [[[text error] g'] w'] eqn:E.
  exists text, error, g', w'. split; [reflexivity|].
  assert (H : exactly_one (text, error)).
  { unfold GeminiGenerator.generate in E.
    destruct (negb (truthy_opt (GeminiGenerator.api_key g))).
    - inversion E; subst. right. simpl. split; congruence.
    - destruct (GeminiGenerator._rate_limit g w) as [g1 w1].
      pose proof (attempts_exactly_one endpoint prompt MAX_RETRIES 0 g1 w1)
        as H.
      rewrite E in H. exact H. }
  destruct H as [[H1 H2]|[H1 H2]]; simpl in *.
  - left. destruct text as [s|]; [eauto | congruence].
  - right. destruct error as [e|]; [eauto | congruence].
Qed.

(** C7, as amended.  With a key configured, when the endpoint answers 429
    to the first two posts of a call and then answers with a status outside
    400..599 and a generated text, [generate] returns the stripped text with
    no error after exactly three posts, having backed off for 2 and then 3
    seconds; [request_count], which counts successful generations and not
    attempts, grows by one. *)
Theorem generate_retries_after_429 (endpoint : nat -> pystr -> PostResult)
  (g : GeminiGenerator.t) (w : World) (prompt text : pystr)
  (took1 took2 took3 : Z) (r1 r2 r3 : Response) :
  truthy_opt (GeminiGenerator.api_key g) = true ->
  endpoint (posts w) prompt = PostReturns took1 r1 ->
  status_code r1 = 429%Z ->
  endpoint (S (posts w)) prompt = PostReturns took2 r2 ->
  status_code r2 = 429%Z ->
  endpoint (S (S (posts w))) prompt = PostReturns took3 r3 ->
  (status_code r3 < 400 \/ 600 <= status_code r3)%Z ->
  payload r3 = PayloadText text ->
  exists g' w',
    GeminiGenerator.generate endpoint g w prompt =
      ((Some (strip text), None), g', w') /\
    posts w' = posts w + 3 /\
    firstn 2 (slept w') = [3000%Z; 2000%Z] /\
    GeminiGenerator.request_count g' =
      (GeminiGenerator.request_count g + 1)%Z.
Proof.
  intros Hkey E1 S1 E2 S2 E3 S3 P3.
  unfold GeminiGenerator.generate. rewrite Hkey. simpl negb. cbv iota.
  destruct (GeminiGenerator._rate_limit g w) as [g1 w1] eqn:Er.
  assert (Hp : posts w1 = posts w /\
               GeminiGenerator.request_count g1 =
               GeminiGenerator.request_count g).
  { unfold GeminiGenerator._rate_limit in Er.
    destruct (_ <? _)%Z; inversion Er; subst; simpl; auto. }
  destruct Hp as [Hp Hc].
  unfold MAX_RETRIES. simpl GeminiGenerator.attempts.
  unfold GeminiGenerator.attempt_once at 1. rewrite Hp, E1, S1. simpl.
  unfold GeminiGenerator.attempt_once at 1. simpl. rewrite Hp, E2, S2. simpl.
  unfold GeminiGenerator.attempt_once at 1. simpl. rewrite Hp, E3.
  assert (H429 : (status_code r3 =? 429)%Z = false) by lia.
  assert (H503 : (status_code r3 =? 503)%Z = false) by lia.
  assert (Herr : ((400 <=? status_code r3) && (status_code r3 <? 600))%Z
                 = false) by lia.
  rewrite H429, H503, Herr, P3.
  eexists _, _. split; [reflexivity|]. simpl.
  repeat split; lia.
Qed.

(** A new generator with a key, and the endpoint that answers 429 to the
    first two posts and 200 with a text afterwards. *)
Lemma generate_retries_after_429_witness :
  exists g' w',
    GeminiGenerator.generate Example.endpoint_429_429_ok
      (GeminiGenerator.mk (Some (lit "key")) 0 0) Example.world
      (lit "prompt") =
      ((Some (strip (lit " Khasra 42 ")), None), g', w') /\
    posts w' = posts Example.world + 3 /\
    firstn 2 (slept w') = [3000%Z; 2000%Z] /\
    GeminiGenerator.request_count g' = (0 + 1)%Z.
Proof.
  apply (@generate_retries_after_429 Example.endpoint_429_429_ok
           (GeminiGenerator.mk (Some (lit "key")) 0 0) Example.world
           (lit "prompt") (lit " Khasra 42 ") 100 100 100
           (mk_response 429 (lit "429") PayloadNoCandidates)
           (mk_response 429 (lit "429") PayloadNoCandidates)
           (mk_response 200 [] (PayloadText (lit " Khasra 42 "))));
    try reflexivity.
  simpl. lia.
Defined.

(** C7, as stated, fails: after two 429 answers and a success the call
    count of a new generator is 1, not 3, although three posts were made
    and the stripped text is returned. *)
Lemma generate_call_count_counterexample :
  fst (fst (GeminiGenerator.generate Example.endpoint_429_429_ok
              (GeminiGenerator.mk (Some (lit "key")) 0 0) Example.world
              (lit "prompt"))) = (Some (lit "Khasra 42"), None) /\
  posts (snd (GeminiGenerator.generate Example.endpoint_429_429_ok
                (GeminiGenerator.mk (Some (lit "key")) 0 0) Example.world
                (lit "prompt"))) = 3 /\
  GeminiGenerator.request_count
    (snd (fst (GeminiGenerator.generate Example.endpoint_429_429_ok
                 (GeminiGenerator.mk (Some (lit "key")) 0 0) Example.world
                 (lit "prompt")))) = 1%Z /\
  GeminiGenerator.request_count
    (snd (fst (GeminiGenerator.generate Example.endpoint_429_429_ok
                 (GeminiGenerator.mk (Some (lit "key")) 0 0) Example.world
                 (lit "prompt")))) <> 3%Z.
Proof.
  split; [vm_compute; reflexivity|]. split; [vm_compute; reflexivity|].
  split; [vm_compute; reflexivity|]. vm_compute. discriminate.
Qed.

(** ** The chunker *)

Section Stripping.

Lemma length_lstrip (s : pystr) : (length (lstrip s) <= length s)%nat.
Proof.
  induction s as [|c s IH]; simpl; [lia|].
  destruct (isspace c); simpl; lia.
Qed.

Lemma length_strip (s : pystr) : (length (strip s) <= length s)%nat.
Proof.
  unfold strip, rstrip. rewrite length_rev.
  pose proof (length_lstrip (rev (lstrip s))) as H.
  rewrite length_rev in H. pose proof (length_lstrip s). lia.
Qed.

Lemma lstrip_app (x y : pystr) :
  lstrip (x ++ y) =
  match lstrip x with [] => lstrip y | _ => lstrip x ++ y end.
Proof.
  induction x as [|c x IH]; simpl; [reflexivity|].
  destruct (isspace c); [exact IH | reflexivity].
Qed.

(** A trailing space does not survive [strip]. *)
Lemma strip_app_space (x : pystr) : strip (x ++ SmartChunker.space) = strip x.
Proof.
  unfold strip. rewrite lstrip_app.
  destruct (lstrip x) as [|c l] eqn:E; [reflexivity|].
  unfold rstrip. rewrite rev_app_distr. reflexivity.
Qed.

Lemma len_strip (s : pystr) : (len (strip s) <= len s)%Z.
Proof. unfold len. pose proof (length_strip s). lia. Qed.

Lemma len_app (x y : pystr) : len (x ++ y) = (len x + len y)%Z.
Proof. unfold len. rewrite length_app. lia. Qed.

Lemma len_suffix (k : nat) (s : pystr) : (len (suffix k s) <= Z.of_nat k)%Z.
Proof. unfold len, suffix. rewrite length_skipn. lia. Qed.

End Stripping.

Section ChunkBound.
Variables chunk_size overlap : Z.
Variable pp : list (Z * Z).
Variable sentences : list pystr.

Local Abbreviation seeded := (ChunkInvariant.seeded overlap sentences).
Local Abbreviation chunk_ok :=
  (ChunkInvariant.chunk_ok chunk_size overlap sentences).
Local Abbreviation buffer_ok :=
  (ChunkInvariant.buffer_ok chunk_size overlap sentences).
Local Abbreviation state_ok :=
  (ChunkInvariant.state_ok chunk_size overlap sentences).

Lemma flush_ok st : state_ok st -> state_ok (SmartChunker.flush pp st).
Proof.
  intros [Hc Hb]. unfold SmartChunker.flush.
  destruct (truthy (strip (SmartChunker.current_chunk st))) eqn:E;
    [|split; assumption].
  split; [|exact Hb]. simpl. apply Forall_app. split; [assumption|].
  constructor; [|constructor]. unfold ChunkInvariant.chunk_ok. simpl.
  destruct Hb as [Hnil|(x & Hx & [Hle|(seed & s & Hs & Hseed & ->)])].
  - rewrite Hnil in E. discriminate.
  - left. rewrite Hx, strip_app_space. pose proof (len_strip x). lia.
  - right. exists seed, s. rewrite Hx, strip_app_space. auto.
Qed.

Lemma add_sentence_ok st s :
  In s sentences -> state_ok st ->
  state_ok (SmartChunker.add_sentence chunk_size overlap pp st s).
Proof.
  intros Hs Hst. unfold SmartChunker.add_sentence.
  destruct (_ <=? _)%Z eqn:E.
  - destruct Hst as [Hc Hb]. split; [exact Hc|]. simpl. right.
    exists (SmartChunker.current_chunk st ++ s).
    split; [now rewrite app_assoc|]. left.
    rewrite len_app. lia.
  - apply flush_ok in Hst. destruct Hst as [Hc _].
    destruct (last (map Some (SmartChunker.chunks (SmartChunker.flush pp st)))
                None) as [prev|]; [destruct (0 <? overlap)%Z eqn:Eo|];
      (split; [exact Hc|]); simpl; right.
    + exists (suffix (Z.to_nat overlap) (DocumentChunk.text prev)
                ++ SmartChunker.space ++ s).
      split; [now rewrite <- !app_assoc|]. right.
      exists (suffix (Z.to_nat overlap) (DocumentChunk.text prev)
                ++ SmartChunker.space), s.
      split; [exact Hs|]. split; [|now rewrite <- app_assoc].
      rewrite len_app.
      pose proof (len_suffix (Z.to_nat overlap) (DocumentChunk.text prev)).
      change (len SmartChunker.space) with 1%Z. lia.
    + exists s. split; [reflexivity|]. right. exists [], s.
      split; [exact Hs|]. split; [|reflexivity].
      change (len []) with 0%Z. lia.
    + exists s. split; [reflexivity|]. right. exists [], s.
      split; [exact Hs|]. split; [|reflexivity].
      change (len []) with 0%Z. lia.
Qed.

Lemma fold_add_sentence_ok ss st :
  incl ss sentences -> state_ok st ->
  state_ok (fold_left (SmartChunker.add_sentence chunk_size overlap pp) ss st).
Proof.
  revert st; induction ss as [|s ss IH]; intros st Hin Hst; [exact Hst|].
  simpl. apply IH.
  - intros x Hx. apply Hin. now right.
  - apply add_sentence_ok; [apply Hin; now left | exact Hst].
Qed.

Lemma chunk_sentences_ok :
  Forall chunk_ok
    (SmartChunker.chunk_sentences chunk_size overlap pp sentences).
Proof.
  unfold SmartChunker.chunk_sentences.
  apply flush_ok, fold_add_sentence_ok.
  - apply incl_refl.
  - split; [constructor | now left].
Qed.

End ChunkBound.

Section Trimmed.

Lemma lstrip_idem (s : pystr) : lstrip (lstrip s) = lstrip s.
Proof.
  induction s as [|c s IH]; simpl; [reflexivity|].
  destruct (isspace c) eqn:E; [exact IH|]. simpl. now rewrite E.
Qed.

Lemma lstrip_fixed_head (c : N) (s : pystr) :
  lstrip (c :: s) = c :: s -> isspace c = false.
Proof.
  simpl. destruct (isspace c); [|reflexivity].
  intros H. pose proof (length_lstrip s) as Hl. rewrite H in Hl.
  simpl in Hl. lia.
Qed.

Lemma lstrip_suffix (s : pystr) : exists pre, s = pre ++ lstrip s.
Proof.
  induction s as [|c s [pre IH]]; simpl; [now exists []|].
  destruct (isspace c); [|now exists []].
  exists (c :: pre). simpl. now rewrite <- IH.
Qed.

Lemma rstrip_prefix (s : pystr) : exists post, s = rstrip s ++ post.
Proof.
  unfold rstrip. destruct (lstrip_suffix (rev s)) as [pre H].
  exists (rev pre). rewrite <- rev_app_distr, <- H. now rewrite rev_involutive.
Qed.

(** [strip] leaves nothing to strip. *)
Lemma lstrip_strip (s : pystr) : lstrip (strip s) = strip s.
Proof.
  unfold strip. set (y := lstrip s).
  assert (Hy : lstrip y = y) by apply lstrip_idem.
  destruct (rstrip_prefix y) as [post Hp].
  destruct (rstrip y) as [|c r] eqn:E; [reflexivity|].
  rewrite Hp in Hy. simpl in Hy.
  assert (Hc : isspace c = false).
  { simpl in Hy. destruct (isspace c); [|reflexivity].
    pose proof (length_lstrip (r ++ post)) as Hl. rewrite Hy in Hl.
    simpl in Hl. lia. }
  simpl. now rewrite Hc.
Qed.

Lemma rstrip_strip (s : pystr) : rstrip (strip s) = strip s.
Proof.
  unfold strip, rstrip. now rewrite rev_involutive, lstrip_idem.
Qed.

(** A sentence that [strip] returned, when it is not empty, stays whole at
    the end of a stripped buffer. *)
Lemma strip_seed_sentence (seed s : pystr) :
  strip s <> [] -> strip (seed ++ strip s) = lstrip seed ++ strip s.
Proof.
  intros Hne. set (t := strip s) in *.
  assert (Hl : lstrip (seed ++ t) = lstrip seed ++ t).
  { rewrite lstrip_app. destruct (lstrip seed); [apply lstrip_strip|].
    reflexivity. }
  unfold strip at 1. rewrite Hl. unfold rstrip.
  rewrite rev_app_distr, lstrip_app.
  assert (Hr : lstrip (rev t) = rev t).
  { pose proof (rstrip_strip s) as H. fold t in H. unfold rstrip in H.
    rewrite <- H at 2. now rewrite rev_involutive. }
  rewrite Hr. destruct (rev t) as [|c r] eqn:E.
  - apply (f_equal (@rev N)) in E. rewrite rev_involutive in E.
    simpl in E. congruence.
  - rewrite <- E, <- rev_app_distr. apply rev_involutive.
Qed.

Lemma split_into_sentences_stripped (text s : pystr) :
  In s (SmartChunker._split_into_sentences text) ->
  exists raw, s = strip raw /\ strip raw <> [].
Proof.
  unfold SmartChunker._split_into_sentences.
  intros H. apply in_map_iff in H as (raw & <- & Hraw).
  apply filter_In in Hraw as [_ Ht]. exists raw. split; [reflexivity|].
  destruct (strip raw); [discriminate | discriminate].
Qed.

End Trimmed.

(** The statement on the size of the chunks is settled below, in the part
    on the chunker, with the lemmas on the sentences of a document. *)

(** ** The embedder *)

Section EmbedderFacts.
Variable hash : pystr -> Z.
Local Open Scope R_scope.

Local Abbreviation sum_squares := SimpleEmbedder.sum_squares.
Local Abbreviation add_at := SimpleEmbedder.add_at.
Local Abbreviation accumulate := (SimpleEmbedder.accumulate hash).

Lemma sum_squares_nonneg v : 0 <= sum_squares v.
Proof. induction v as [|x v IH]; simpl; nra. Qed.

Lemma length_add_at i w v : length (add_at i w v) = length v.
Proof.
  revert i; induction v as [|x v IH]; intros [|i]; simpl; auto.
Qed.

Lemma nonneg_add_at i w v : 0 <= w -> nonneg v -> nonneg (add_at i w v).
Proof.
  intros Hw. revert i; induction v as [|x v IH]; intros i H.
  - destruct i; constructor.
  - apply Forall_cons_iff in H as [Hx Hv].
    destruct i as [|i]; simpl; constructor.
    + lra.
    + exact Hv.
    + exact Hx.
    + apply IH, Hv.
Qed.

Lemma sum_squares_add_at_le i w v :
  0 <= w -> nonneg v -> sum_squares v <= sum_squares (add_at i w v).
Proof.
  intros Hw. revert i; induction v as [|x v IH]; intros i H.
  - destruct i; simpl; lra.
  - apply Forall_cons_iff in H as [Hx Hv].
    destruct i as [|i]; simpl.
    + nra.
    + specialize (IH i Hv). lra.
Qed.

Lemma sum_squares_add_at_in i w v :
  0 <= w -> nonneg v -> (i < length v)%nat ->
  sum_squares v + w * w <= sum_squares (add_at i w v).
Proof.
  intros Hw. revert i; induction v as [|x v IH]; intros i H Hi.
  - simpl in Hi. lia.
  - apply Forall_cons_iff in H as [Hx Hv].
    destruct i as [|i]; simpl in *.
    + nra.
    + specialize (IH i Hv ltac:(lia)). lra.
Qed.

Lemma accumulate_facts dim w items v :
  0 <= w -> nonneg v ->
  nonneg (accumulate dim w items v) /\
  length (accumulate dim w items v) = length v /\
  sum_squares v <= sum_squares (accumulate dim w items v).
Proof.
  intros Hw. unfold SimpleEmbedder.accumulate.
  revert v; induction items as [|s items IH]; intros v Hv; simpl.
  - repeat split; auto. lra.
  - destruct (IH (add_at (SimpleEmbedder.bucket hash dim s) w v))
      as (H1 & H2 & H3).
    + now apply nonneg_add_at.
    + repeat split; auto.
      * now rewrite H2, length_add_at.
      * pose proof (sum_squares_add_at_le
                      (SimpleEmbedder.bucket hash dim s) Hw Hv). lra.
Qed.

Lemma bucket_in_range dim s :
  (0 < dim)%Z -> (SimpleEmbedder.bucket hash dim s < Z.to_nat dim)%nat.
Proof.
  intros H. unfold SimpleEmbedder.bucket.
  pose proof (Z.mod_pos_bound (hash s) dim H). lia.
Qed.

(** One hashed item is enough for a positive sum of squares. *)
Lemma accumulate_positive dim w items v :
  (0 < dim)%Z -> 0 < w -> nonneg v -> length v = Z.to_nat dim ->
  items <> [] ->
  0 < sum_squares (accumulate dim w items v).
Proof.
  intros Hd Hw Hv Hl Hne. destruct items as [|s items]; [congruence|].
  assert (Hw0 : 0 <= w) by lra.
  set (i := SimpleEmbedder.bucket hash dim s).
  assert (Hi : (i < length v)%nat)
    by (rewrite Hl; now apply bucket_in_range).
  pose proof (nonneg_add_at i Hw0 Hv) as Hv1.
  destruct (@accumulate_facts dim w items (add_at i w v) Hw0 Hv1)
    as (_ & _ & H).
  pose proof (sum_squares_add_at_in Hw0 Hv Hi) as H'.
  pose proof (sum_squares_nonneg v).
  unfold SimpleEmbedder.accumulate in *. simpl. fold i. nra.
Qed.

Lemma nonneg_zeros dim : nonneg (SimpleEmbedder.zeros dim).
Proof.
  unfold SimpleEmbedder.zeros.
  induction (Z.to_nat dim); simpl; constructor; auto. lra.
Qed.

Lemma sum_squares_zeros dim : sum_squares (SimpleEmbedder.zeros dim) = 0.
Proof.
  unfold SimpleEmbedder.zeros.
  induction (Z.to_nat dim) as [|n IH]; simpl; [reflexivity|]. rewrite IH. lra.
Qed.

Lemma length_zeros dim : length (SimpleEmbedder.zeros dim) = Z.to_nat dim.
Proof. apply repeat_length. Qed.

Lemma sum_squares_scaled m v :
  m <> 0 ->
  sum_squares (map (fun x => x / m) v) = sum_squares v / (m * m).
Proof.
  intros Hm. induction v as [|x v IH]; simpl.
  - unfold Rdiv. lra.
  - rewrite IH. field. exact Hm.
Qed.

Lemma map_div_one_zeros dim :
  map (fun x => x / 1) (SimpleEmbedder.zeros dim) = SimpleEmbedder.zeros dim.
Proof.
  unfold SimpleEmbedder.zeros.
  induction (Z.to_nat dim) as [|n IH]; simpl; [reflexivity|].
  rewrite IH. f_equal. lra.
Qed.

End EmbedderFacts.

Section BlankText.

Lemma lstrip_nil_iff (s : pystr) : lstrip s = [] <-> blank s = true.
Proof.
  unfold blank. induction s as [|c s IH]; simpl; [tauto|].
  destruct (isspace c); simpl; [exact IH|].
  split; discriminate.
Qed.

Lemma strip_nil_iff (s : pystr) : strip s = [] <-> blank s = true.
Proof.
  rewrite <- lstrip_nil_iff. unfold strip. split.
  - intros H. destruct (lstrip s) as [|c r] eqn:E; [reflexivity|].
    exfalso. pose proof (lstrip_idem s) as Hi. rewrite E in Hi.
    apply lstrip_fixed_head in Hi.
    unfold rstrip in H. apply (f_equal (@rev N)) in H.
    rewrite rev_involutive in H. simpl in H.
    rewrite lstrip_app in H.
    destruct (lstrip (rev r)); simpl in H.
    + rewrite Hi in H. discriminate.
    + discriminate.
  - intros ->. reflexivity.
Qed.

Lemma isspace_not_letter (c : N) :
  isspace c = true -> (c < 65 \/ 122 < c)%N.
Proof.
  unfold isspace.
  rewrite !orb_true_iff, !andb_true_iff, !N.leb_le, !N.eqb_eq. lia.
Qed.

Lemma isspace_lower_char (c : N) : isspace (lower_char c) = isspace c.
Proof.
  unfold lower_char.
  destruct ((65 <=? c)%N && (c <=? 90)%N) eqn:E; [|reflexivity].
  apply andb_true_iff in E as [E1 E2].
  apply N.leb_le in E1, E2.
  destruct (isspace c) eqn:Hc.
  - apply isspace_not_letter in Hc. lia.
  - destruct (isspace (c + 32)) eqn:Hc'; [|reflexivity].
    apply isspace_not_letter in Hc'. lia.
Qed.

Lemma blank_lower (s : pystr) : blank (lower s) = blank s.
Proof.
  unfold blank, lower. induction s as [|c s IH]; simpl; [reflexivity|].
  now rewrite isspace_lower_char, IH.
Qed.

Lemma split_acc_nonempty (cur s : pystr) :
  cur <> [] \/ blank s = false -> split_acc cur s <> [].
Proof.
  revert cur; induction s as [|c s IH]; intros cur H; simpl.
  - destruct H as [H|H]; [|discriminate].
    destruct cur; [congruence | discriminate].
  - unfold blank in H. simpl in H. destruct (isspace c) eqn:Ec.
    + destruct cur; [|discriminate].
      apply IH. right. destruct H as [H|H]; [congruence | exact H].
    + apply IH. left. discriminate.
Qed.

Lemma split_nonempty (s : pystr) : blank s = false -> split s <> [].
Proof. intros H. apply split_acc_nonempty. now right. Qed.

Lemma blank_strip (s : pystr) : blank s = false -> blank (strip s) = false.
Proof.
  intros H. destruct (strip s) as [|c r] eqn:E.
  - apply strip_nil_iff in E. congruence.
  - pose proof (lstrip_strip s) as Hl. rewrite E in Hl.
    apply lstrip_fixed_head in Hl. unfold blank. simpl. now rewrite Hl.
Qed.

End BlankText.

(** A blank text embeds to the zero vector, whose norm is 0. *)
Lemma embed_of_blank (hash : pystr -> Z) (dim : Z) (text : pystr) :
  blank text = true ->
  SimpleEmbedder.embed hash dim text = SimpleEmbedder.zeros dim /\
  SimpleEmbedder.norm (SimpleEmbedder.embed hash dim text) = 0%R.
Proof.
  intros Hb.
  assert (H : SimpleEmbedder.embed hash dim text = SimpleEmbedder.zeros dim).
  { unfold SimpleEmbedder.embed.
    destruct (negb (truthy text)); [reflexivity|].
    assert (Ht : strip (lower text) = []).
    { apply strip_nil_iff. now rewrite blank_lower. }
    rewrite Ht. unfold SimpleEmbedder.trigrams. simpl.
    unfold SimpleEmbedder.accumulate. simpl.
    unfold SimpleEmbedder.magnitude.
    rewrite sum_squares_zeros, sqrt_0.
    destruct (Req_dec_T 0 0); [|congruence].
    apply map_div_one_zeros. }
  split; [exact H|].
  unfold SimpleEmbedder.norm. rewrite H, sum_squares_zeros. apply sqrt_0.
Qed.

(** C3, as amended.  For an embedder of dimension [0 < dim] and any text,
    [embed] returns a vector of [dim] components.  When the text has a
    character that is not whitespace the squares of the components sum to 1,
    so the Euclidean norm is 1; when the text is empty or made of whitespace
    only ([blank]) the result is the zero vector, of norm 0.  (Floating
    point arithmetic is read in the real numbers, where "within float
    tolerance" is exact.) *)
Theorem embed_unit_or_zero (hash : pystr -> Z) (dim : Z) (text : pystr) :
  (0 < dim)%Z ->
  length (SimpleEmbedder.embed hash dim text) = Z.to_nat dim /\
  (blank text = false ->
   SimpleEmbedder.sum_squares (SimpleEmbedder.embed hash dim text) = 1%R /\
   SimpleEmbedder.norm (SimpleEmbedder.embed hash dim text) = 1%R) /\
  (blank text = true ->
   SimpleEmbedder.embed hash dim text = SimpleEmbedder.zeros dim /\
   SimpleEmbedder.norm (SimpleEmbedder.embed hash dim text) = 0%R).
Proof.
  intros Hdim.
  set (t := strip (lower text)).
  set (v1 := SimpleEmbedder.accumulate hash dim 1
               (SimpleEmbedder.trigrams t) (SimpleEmbedder.zeros dim)).
  set (v2 := SimpleEmbedder.accumulate hash dim (1 / 2)
               (split t) v1).
  destruct (@accumulate_facts hash dim 1%R (SimpleEmbedder.trigrams t)
              (SimpleEmbedder.zeros dim) ltac:(lra) (nonneg_zeros dim))
    as (Hn1 & Hl1 & _). fold v1 in Hn1, Hl1.
  destruct (@accumulate_facts hash dim (1 / 2)%R (split t) v1
              ltac:(lra) Hn1) as (Hn2 & Hl2 & _). fold v2 in Hn2, Hl2.
  rewrite length_zeros in Hl1. rewrite Hl1 in Hl2.
  split; [|split].
  - destruct (blank text) eqn:Hb.
    + rewrite (proj1 (embed_of_blank hash dim text Hb)). apply length_zeros.
    + unfold SimpleEmbedder.embed.
      destruct (negb (truthy text)); [apply length_zeros|].
      fold t. fold v1. fold v2. now rewrite length_map.
  - intros Hb.
    assert (Hss : SimpleEmbedder.sum_squares
                    (SimpleEmbedder.embed hash dim text) = 1%R).
    { unfold SimpleEmbedder.embed.
      destruct text as [|c text'] eqn:Etext; [discriminate|].
      simpl negb. cbv iota. fold t. fold v1. fold v2.
      assert (Hpos : (0 < SimpleEmbedder.sum_squares v2)%R).
      { apply accumulate_positive; auto; try lra.
        apply split_nonempty. apply blank_strip.
        rewrite blank_lower. exact Hb. }
      unfold SimpleEmbedder.magnitude.
      pose proof (sqrt_lt_R0 _ Hpos) as Hsq.
      destruct (Req_dec_T (sqrt (SimpleEmbedder.sum_squares v2)) 0);
        [lra|].
      rewrite sum_squares_scaled by assumption.
      rewrite sqrt_sqrt by lra. field. lra. }
    split; [exact Hss|].
    unfold SimpleEmbedder.norm. rewrite Hss. apply sqrt_1.
  - apply embed_of_blank.
Qed.

(** The default dimension, a constant hash and the text "Khasra 42". *)
Lemma embed_unit_or_zero_witness :
  (0 < 256)%Z /\
  SimpleEmbedder.norm
    (SimpleEmbedder.embed (fun _ => 0%Z) 256 (lit "Khasra 42")) = 1%R.
Proof.
  split; [lia|].
  refine (proj2 (proj1 (proj2
            (@embed_unit_or_zero (fun _ => 0%Z) 256 (lit "Khasra 42") _))
            _)).
  - lia.
  - reflexivity.
Defined.

(** C3, as stated, fails: a text of one space is not empty, and its
    embedding is the zero vector, whose norm is 0 and not 1, whatever the
    hash function. *)
Lemma embed_whitespace_counterexample :
  lit " " <> [] /\
  (forall hash : pystr -> Z,
     SimpleEmbedder.embed hash 256 (lit " ") = SimpleEmbedder.zeros 256) /\
  (forall hash : pystr -> Z,
     SimpleEmbedder.norm (SimpleEmbedder.embed hash 256 (lit " ")) <> 1%R).
Proof.
  split; [discriminate|].
  assert (Hb : blank (lit " ") = true) by reflexivity.
  split; intros hash; destruct (embed_of_blank hash 256 (lit " ") Hb)
    as [H1 H2]; [exact H1|].
  rewrite H2. lra.
Qed.

(** ** The orchestrator without a key *)

Section Keyless.
Variable embed : pystr -> list R.
Variable md5_hexdigest : pystr -> pystr.
Variable endpoint : nat -> pystr -> PostResult.

Local Abbreviation pipeline := RAGTranslationPipeline.t.
Local Abbreviation translate_chunk :=
  (RAGTranslationPipeline.translate_chunk md5_hexdigest endpoint).
Local Abbreviation translate_chunks :=
  (RAGTranslationPipeline.translate_chunks md5_hexdigest endpoint).
Local Abbreviation translate_document :=
  (RAGTranslationPipeline.translate_document embed md5_hexdigest endpoint).

Local Abbreviation no_key := (lit "API key not configured").

(** Without a key [generate] answers at once: no post, no sleep, no retry. *)
Lemma generate_without_key g w prompt :
  truthy_opt (GeminiGenerator.api_key g) = false ->
  GeminiGenerator.generate endpoint g w prompt = ((None, Some no_key), g, w).
Proof.
  intros H. unfold GeminiGenerator.generate. rewrite H. reflexivity.
Qed.

Lemma translate_chunk_keyless source_lang target_lang total i chunk st p w :
  keyless p ->
  translate_chunk source_lang target_lang total i chunk st p w =
  (Ok (RAGTranslationPipeline.mk_locals
         (RAGTranslationPipeline.translated_chunks st
            ++ [RAGTranslationPipeline.failure_marker
                  (DocumentChunk.text chunk)])
         (RAGTranslationPipeline.chunk_errors st
            ++ [(DocumentChunk.id chunk, no_key)])
         (RAGTranslationPipeline.cached_count st)
         (RAGTranslationPipeline.previous_translation st)),
   missed 1 p, pause total i w).
Proof.
  intros [Hkey Hcache]. destruct p as [vs g [d m h ms]].
  cbn [RAGTranslationPipeline.generator RAGTranslationPipeline.cache
       TranslationCache.cache] in Hkey, Hcache. subst d.
  unfold RAGTranslationPipeline.translate_chunk, TranslationCache.get.
  cbn [RAGTranslationPipeline.generator RAGTranslationPipeline.cache
       RAGTranslationPipeline.vector_store
       TranslationCache.cache TranslationCache.max_size
       TranslationCache.hits TranslationCache.misses
       OrderedDict.contains_key RAGTranslationPipeline.seen truthy_opt].
  rewrite generate_without_key by exact Hkey.
  cbn [truthy_opt truthy RAGTranslationPipeline.generator
       RAGTranslationPipeline.cache RAGTranslationPipeline.vector_store].
  change (truthy no_key) with true. cbv iota.
  unfold missed, pause.
  cbn [RAGTranslationPipeline.generator RAGTranslationPipeline.cache
       RAGTranslationPipeline.vector_store
       TranslationCache.cache TranslationCache.max_size
       TranslationCache.hits TranslationCache.misses].
  reflexivity.
Qed.

Lemma keyless_missed n p : keyless p -> keyless (missed n p).
Proof. intros [H1 H2]. split; [exact H1 | reflexivity]. Qed.

Lemma missed_missed n k p : missed n (missed k p) = missed (k + n) p.
Proof.
  unfold missed.
  cbn [RAGTranslationPipeline.generator RAGTranslationPipeline.cache
       RAGTranslationPipeline.vector_store
       TranslationCache.cache TranslationCache.max_size
       TranslationCache.hits TranslationCache.misses].
  do 2 f_equal. lia.
Qed.

Lemma pauses_posts total i n w : posts (pauses total i n w) = posts w.
Proof.
  revert i w; induction n as [|n IH]; intros i w; [reflexivity|].
  cbn [pauses]. rewrite IH. unfold pause. now destruct (_ <? _)%Z.
Qed.

Lemma translate_chunks_keyless source_lang target_lang total chunks :
  forall i st p w,
    keyless p ->
    translate_chunks source_lang target_lang total i chunks st p w =
    (Ok (RAGTranslationPipeline.mk_locals
           (RAGTranslationPipeline.translated_chunks st
              ++ map (fun c => RAGTranslationPipeline.failure_marker
                                 (DocumentChunk.text c)) chunks)
           (RAGTranslationPipeline.chunk_errors st
              ++ map (fun c => (DocumentChunk.id c, no_key)) chunks)
           (RAGTranslationPipeline.cached_count st)
           (RAGTranslationPipeline.previous_translation st)),
     missed (length chunks) p,
     pauses total i (length chunks) w).
Proof.
  induction chunks as [|chunk rest IH]; intros i st p w Hk.
  - cbn [RAGTranslationPipeline.translate_chunks map length pauses].
    rewrite !app_nil_r. destruct st, p as [vs g [d m h ms]].
    destruct Hk as [_ Hc]. cbn in Hc. subst d.
    unfold missed. cbn. rewrite Z.add_0_r. reflexivity.
  - cbn [RAGTranslationPipeline.translate_chunks].
    rewrite translate_chunk_keyless by exact Hk.
    rewrite IH by (apply keyless_missed; exact Hk).
    cbn [RAGTranslationPipeline.translated_chunks
         RAGTranslationPipeline.chunk_errors
         RAGTranslationPipeline.cached_count
         RAGTranslationPipeline.previous_translation map length pauses].
    rewrite <- !app_assoc. cbn [app].
    rewrite missed_missed. reflexivity.
Qed.

Lemma translate_document_keyless p w text source_lang target_lang :
  keyless p ->
  SmartChunker.chunk_document text CHUNK_SIZE OVERLAP_SIZE <> [] ->
  let chunks := SmartChunker.chunk_document text CHUNK_SIZE OVERLAP_SIZE in
  let final_text :=
    RAGTranslationPipeline._combine_chunks
      (map (fun c => RAGTranslationPipeline.failure_marker
                       (DocumentChunk.text c)) chunks) in
  exists m p' w',
    translate_document p w text source_lang target_lang =
      (Ok (final_text, RAGTranslationPipeline.Run m), p', w') /\
    RAGTranslationPipeline.total_chunks m = len_list chunks /\
    RAGTranslationPipeline.failed_chunks m = len_list chunks /\
    RAGTranslationPipeline.successful_chunks m = 0%Z /\
    RAGTranslationPipeline.cached_chunks m = 0%Z /\
    RAGTranslationPipeline.errors m =
      Some (map (fun c => (DocumentChunk.id c, no_key)) chunks) /\
    posts w' = posts w /\
    RAGTranslationPipeline.generator p' = RAGTranslationPipeline.generator p /\
    keyless p'.
Proof.
  intros Hk Hne. cbv zeta.
  unfold RAGTranslationPipeline.translate_document.
  remember (SmartChunker.chunk_document text CHUNK_SIZE OVERLAP_SIZE)
    as chunks eqn:Ec. clear Ec.
  assert (Hz : (len_list chunks =? 0)%Z = false).
  { unfold len_list. destruct chunks; [congruence|]. simpl. lia. }
  rewrite Hz.
  rewrite translate_chunks_keyless by exact Hk.
  cbn [RAGTranslationPipeline.translated_chunks
       RAGTranslationPipeline.chunk_errors
       RAGTranslationPipeline.cached_count app].
  eexists _, _, _. split; [reflexivity|].
  cbn [RAGTranslationPipeline.total_chunks
       RAGTranslationPipeline.failed_chunks
       RAGTranslationPipeline.successful_chunks
       RAGTranslationPipeline.cached_chunks RAGTranslationPipeline.errors].
  assert (Hl : len_list (map (fun c => (DocumentChunk.id c, no_key)) chunks)
               = len_list chunks).
  { unfold len_list. now rewrite length_map. }
  rewrite Hl. repeat split.
  - lia.
  - unfold RAGTranslationPipeline.nonempty.
    destruct chunks; [congruence | reflexivity].
  - apply pauses_posts.
  - apply Hk.
Qed.

(** The issues a run without a key reports are those of the assembled
    failure markers. *)
Lemma translate_document_keyless_issues p w text source_lang target_lang :
  keyless p ->
  SmartChunker.chunk_document text CHUNK_SIZE OVERLAP_SIZE <> [] ->
  let chunks := SmartChunker.chunk_document text CHUNK_SIZE OVERLAP_SIZE in
  let final_text :=
    RAGTranslationPipeline._combine_chunks
      (map (fun c => RAGTranslationPipeline.failure_marker
                       (DocumentChunk.text c)) chunks) in
  exists m p' w',
    translate_document p w text source_lang target_lang =
      (Ok (final_text, RAGTranslationPipeline.Run m), p', w') /\
    RAGTranslationPipeline.quality_issues m =
      RAGTranslationPipeline.nonempty
        (TranslationQuality.detect_issues final_text).
Proof.
  intros Hk Hne. cbv zeta.
  unfold RAGTranslationPipeline.translate_document.
  remember (SmartChunker.chunk_document text CHUNK_SIZE OVERLAP_SIZE)
    as chunks eqn:Ec. clear Ec.
  assert (Hz : (len_list chunks =? 0)%Z = false).
  { unfold len_list. destruct chunks; [congruence|]. simpl. lia. }
  rewrite Hz.
  rewrite translate_chunks_keyless by exact Hk.
  cbn [RAGTranslationPipeline.translated_chunks
       RAGTranslationPipeline.chunk_errors
       RAGTranslationPipeline.cached_count app].
  eexists _, _, _. split; reflexivity.
Qed.

Local Abbreviation stream_chunk :=
  (RAGTranslationPipeline.stream_chunk md5_hexdigest endpoint).
Local Abbreviation stream_chunks :=
  (RAGTranslationPipeline.stream_chunks md5_hexdigest endpoint).
Local Abbreviation translate_streaming :=
  (RAGTranslationPipeline.translate_streaming embed md5_hexdigest endpoint).

Lemma stream_chunk_keyless source_lang target_lang total i chunk st p w :
  keyless p ->
  stream_chunk source_lang target_lang total i chunk st p w =
  ([RAGTranslationPipeline.EvProgress (i + 1) total;
    RAGTranslationPipeline.EvChunkError (DocumentChunk.id chunk) no_key],
   Ok (RAGTranslationPipeline.mk_stream_locals
         (RAGTranslationPipeline.translated_parts st
            ++ [DocumentChunk.text chunk])
         (RAGTranslationPipeline.stream_previous st)),
   missed 1 p, sleep 300 w).
Proof.
  intros [Hkey Hcache]. destruct p as [vs g [d m h ms]].
  cbn [RAGTranslationPipeline.generator RAGTranslationPipeline.cache
       TranslationCache.cache] in Hkey, Hcache. subst d.
  unfold RAGTranslationPipeline.stream_chunk, TranslationCache.get.
  cbn [RAGTranslationPipeline.generator RAGTranslationPipeline.cache
       RAGTranslationPipeline.vector_store
       TranslationCache.cache TranslationCache.max_size
       TranslationCache.hits TranslationCache.misses
       OrderedDict.contains_key RAGTranslationPipeline.seen truthy_opt].
  rewrite generate_without_key by exact Hkey.
  cbn [truthy_opt truthy RAGTranslationPipeline.generator
       RAGTranslationPipeline.cache RAGTranslationPipeline.vector_store].
  change (truthy no_key) with true. cbv iota.
  unfold missed.
  cbn [RAGTranslationPipeline.generator RAGTranslationPipeline.cache
       RAGTranslationPipeline.vector_store
       TranslationCache.cache TranslationCache.max_size
       TranslationCache.hits TranslationCache.misses].
  reflexivity.
Qed.

Lemma stream_chunks_keyless source_lang target_lang total chunks :
  forall i st p w,
    keyless p ->
    exists w',
      stream_chunks source_lang target_lang total i chunks st p w =
      (keyless_events total i chunks,
       Ok (RAGTranslationPipeline.mk_stream_locals
             (RAGTranslationPipeline.translated_parts st
                ++ map DocumentChunk.text chunks)
             (RAGTranslationPipeline.stream_previous st)),
       missed (length chunks) p, w') /\
      posts w' = posts w.
Proof.
  induction chunks as [|chunk rest IH]; intros i st p w Hk.
  - exists w. split; [|reflexivity].
    cbn [RAGTranslationPipeline.stream_chunks map length keyless_events].
    rewrite !app_nil_r. destruct st, p as [vs g [d m h ms]].
    destruct Hk as [_ Hc]. cbn in Hc. subst d.
    unfold missed. cbn. rewrite Z.add_0_r. reflexivity.
  - cbn [RAGTranslationPipeline.stream_chunks].
    rewrite stream_chunk_keyless by exact Hk.
    destruct (IH (i + 1)%Z
                (RAGTranslationPipeline.mk_stream_locals
                   (RAGTranslationPipeline.translated_parts st
                      ++ [DocumentChunk.text chunk])
                   (RAGTranslationPipeline.stream_previous st))
                (missed 1 p) (sleep 300 w) (keyless_missed 1 Hk))
      as (w' & -> & Hp).
    exists w'. split; [|exact Hp].
    cbn [RAGTranslationPipeline.translated_parts
         RAGTranslationPipeline.stream_previous map length keyless_events
         app].
    rewrite <- !app_assoc. cbn [app].
    rewrite missed_missed. reflexivity.
Qed.

Lemma translate_streaming_keyless p w text source_lang target_lang :
  keyless p ->
  SmartChunker.chunk_document text CHUNK_SIZE OVERLAP_SIZE <> [] ->
  let chunks := SmartChunker.chunk_document text CHUNK_SIZE OVERLAP_SIZE in
  exists ms stats p' w',
    translate_streaming p w text source_lang target_lang =
      ((RAGTranslationPipeline.EvStart (len_list chunks) (len text)
          :: keyless_events (len_list chunks) 0 chunks
          ++ [RAGTranslationPipeline.EvComplete
                (RAGTranslationPipeline._combine_chunks
                   (map DocumentChunk.text chunks)) ms stats],
        None), p', w') /\
    posts w' = posts w.
Proof.
  intros Hk Hne. cbv zeta.
  unfold RAGTranslationPipeline.translate_streaming.
  remember (SmartChunker.chunk_document text CHUNK_SIZE OVERLAP_SIZE)
    as chunks eqn:Ec. clear Ec.
  assert (Hz : (len_list chunks =? 0)%Z = false).
  { unfold len_list. destruct chunks; [congruence|]. simpl. lia. }
  rewrite Hz.
  edestruct (@stream_chunks_keyless source_lang target_lang
               (len_list chunks) chunks 0%Z
               (RAGTranslationPipeline.mk_stream_locals [] []))
    as (w' & -> & Hp); [exact Hk|].
  cbn [RAGTranslationPipeline.translated_parts app].
  eexists _, _, _, _. split; [reflexivity | exact Hp].
Qed.

End Keyless.

(** ** A failed chunk, in the two modes *)

Section FailedChunk.
Variable md5_hexdigest : pystr -> pystr.
Variable endpoint : nat -> pystr -> PostResult.

(** Blocking mode: a chunk that is not served from the cache and for which
    [generate] reports an error is replaced by the failure marker, the error
    is added to the list of errors, and the loop goes on. *)
Lemma translate_chunk_on_failure source_lang target_lang total i chunk st p w
  cached c text e g' w' :
  TranslationCache.get md5_hexdigest (RAGTranslationPipeline.cache p)
    (DocumentChunk.text chunk) = (cached, c) ->
  truthy_opt (RAGTranslationPipeline.seen cached) = false ->
  GeminiGenerator.generate endpoint (RAGTranslationPipeline.generator p) w
    (prompt_for source_lang target_lang i chunk
       (RAGTranslationPipeline.previous_translation st))
    = ((text, Some e), g', w') ->
  truthy e = true ->
  RAGTranslationPipeline.translate_chunk md5_hexdigest endpoint
    source_lang target_lang total i chunk st p w =
  (Ok (RAGTranslationPipeline.mk_locals
         (RAGTranslationPipeline.translated_chunks st
            ++ [RAGTranslationPipeline.failure_marker
                  (DocumentChunk.text chunk)])
         (RAGTranslationPipeline.chunk_errors st
            ++ [(DocumentChunk.id chunk, e)])
         (RAGTranslationPipeline.cached_count st)
         (RAGTranslationPipeline.previous_translation st)),
   RAGTranslationPipeline.mk (RAGTranslationPipeline.vector_store p) g' c,
   if (i <? total - 1)%Z then sleep 300 w' else w').
Proof.
  intros Hget Hseen Hgen He.
  unfold RAGTranslationPipeline.translate_chunk. rewrite Hget, Hseen.
  cbn [RAGTranslationPipeline.generator RAGTranslationPipeline.cache
       RAGTranslationPipeline.vector_store].
  unfold prompt_for in Hgen. rewrite Hgen.
  cbn [truthy_opt]. rewrite He. reflexivity.
Qed.

(** Streaming mode: the same chunk is replaced by its own, untranslated
    text; a [chunk_error] event is yielded and the loop goes on. *)
Lemma stream_chunk_on_failure source_lang target_lang total i chunk st p w
  cached c text e g' w' :
  TranslationCache.get md5_hexdigest (RAGTranslationPipeline.cache p)
    (DocumentChunk.text chunk) = (cached, c) ->
  truthy_opt (RAGTranslationPipeline.seen cached) = false ->
  GeminiGenerator.generate endpoint (RAGTranslationPipeline.generator p) w
    (prompt_for source_lang target_lang i chunk
       (RAGTranslationPipeline.stream_previous st))
    = ((text, Some e), g', w') ->
  truthy e = true ->
  RAGTranslationPipeline.stream_chunk md5_hexdigest endpoint
    source_lang target_lang total i chunk st p w =
  ([RAGTranslationPipeline.EvProgress (i + 1) total;
    RAGTranslationPipeline.EvChunkError (DocumentChunk.id chunk) e],
   Ok (RAGTranslationPipeline.mk_stream_locals
         (RAGTranslationPipeline.translated_parts st
            ++ [DocumentChunk.text chunk])
         (RAGTranslationPipeline.stream_previous st)),
   RAGTranslationPipeline.mk (RAGTranslationPipeline.vector_store p) g' c,
   sleep 300 w').
Proof.
  intros Hget Hseen Hgen He.
  unfold RAGTranslationPipeline.stream_chunk. rewrite Hget, Hseen.
  cbn [RAGTranslationPipeline.generator RAGTranslationPipeline.cache
       RAGTranslationPipeline.vector_store].
  unfold prompt_for in Hgen. rewrite Hgen.
  cbn [truthy_opt]. rewrite He. reflexivity.
Qed.

(** Blocking mode: an error whose message is the empty string is not taken
    for an error; the missing translation is cached and then subscripted,
    and the [TypeError] ends the run. *)
Lemma translate_chunk_on_empty_error source_lang target_lang total i chunk
  st p w cached c g' w' c' :
  TranslationCache.get md5_hexdigest (RAGTranslationPipeline.cache p)
    (DocumentChunk.text chunk) = (cached, c) ->
  truthy_opt (RAGTranslationPipeline.seen cached) = false ->
  GeminiGenerator.generate endpoint (RAGTranslationPipeline.generator p) w
    (prompt_for source_lang target_lang i chunk
       (RAGTranslationPipeline.previous_translation st))
    = ((None, Some []), g', w') ->
  TranslationCache.set md5_hexdigest c (DocumentChunk.text chunk) None
    = Ok c' ->
  RAGTranslationPipeline.translate_chunk md5_hexdigest endpoint
    source_lang target_lang total i chunk st p w =
  (Raise RAGTranslationPipeline.none_subscript,
   RAGTranslationPipeline.mk (RAGTranslationPipeline.vector_store p) g' c',
   w').
Proof.
  intros Hget Hseen Hgen Hset.
  unfold RAGTranslationPipeline.translate_chunk. rewrite Hget, Hseen.
  cbn [RAGTranslationPipeline.generator RAGTranslationPipeline.cache
       RAGTranslationPipeline.vector_store].
  unfold prompt_for in Hgen. rewrite Hgen.
  cbn [truthy_opt truthy RAGTranslationPipeline.generator
       RAGTranslationPipeline.cache RAGTranslationPipeline.vector_store].
  rewrite Hset. reflexivity.
Qed.

End FailedChunk.

Lemma short_document_chunks :
  SmartChunker.chunk_document Example.short_document CHUNK_SIZE OVERLAP_SIZE
  = [DocumentChunk.mk 0 Example.sentence 0 35 (Some 1%Z) None []].
Proof. vm_compute. reflexivity. Qed.

Lemma long_document_chunks :
  map DocumentChunk.id
    (SmartChunker.chunk_document Example.long_document CHUNK_SIZE
       OVERLAP_SIZE) = [0%Z; 1%Z].
Proof. vm_compute. reflexivity. Qed.

Lemma keyless_example : keyless Example.pipeline.
Proof. split; reflexivity. Qed.

(** C1, at a failing input.  A one-chunk document and a pipeline without a
    key, so that the chunk fails.  The blocking mode returns the failure
    marker as the text and records the error in the metadata.  The
    streaming mode yields the [chunk_error] event and goes on to the end,
    but the text of its [complete] event is the untranslated chunk, not the
    failure marker. *)
Theorem failed_chunk_output_by_mode (embed : pystr -> list R)
  (md5_hexdigest : pystr -> pystr) (endpoint : nat -> pystr -> PostResult) :
  (exists m p' w',
     RAGTranslationPipeline.translate_document embed md5_hexdigest endpoint
       Example.pipeline Example.world Example.short_document
       (lit "Urdu") (lit "English") =
     (Ok (lit "[Translation failed: Khasra number 42 belongs to Malik....]",
          RAGTranslationPipeline.Run m), p', w') /\
     RAGTranslationPipeline.errors m =
       Some [(0%Z, lit "API key not configured")]) /\
  (exists ms stats p' w',
     RAGTranslationPipeline.translate_streaming embed md5_hexdigest endpoint
       Example.pipeline Example.world Example.short_document
       (lit "Urdu") (lit "English") =
     (([RAGTranslationPipeline.EvStart 1 34;
        RAGTranslationPipeline.EvProgress 1 1;
        RAGTranslationPipeline.EvChunkError 0 (lit "API key not configured");
        RAGTranslationPipeline.EvComplete
          (lit "Khasra number 42 belongs to Malik.") ms stats],
       None), p', w')) /\
  lit "Khasra number 42 belongs to Malik." <>
  RAGTranslationPipeline.failure_marker Example.short_document.
Proof.
  assert (Hne : SmartChunker.chunk_document Example.short_document
                  CHUNK_SIZE OVERLAP_SIZE <> [])
    by (rewrite short_document_chunks; discriminate).
  split; [|split].
  - destruct (@translate_document_keyless embed md5_hexdigest endpoint
                Example.pipeline Example.world Example.short_document
                (lit "Urdu") (lit "English") keyless_example Hne)
      as (m & p' & w' & Heq & _ & _ & _ & _ & Herr & _).
    rewrite short_document_chunks in Heq, Herr.
    exists m, p', w'. split; [|exact Herr].
    rewrite Heq.
    replace (RAGTranslationPipeline._combine_chunks
               (map (fun c => RAGTranslationPipeline.failure_marker
                                (DocumentChunk.text c))
                  [DocumentChunk.mk 0 Example.sentence 0 35 (Some 1%Z)
                     None []]))
      with (lit "[Translation failed: Khasra number 42 belongs to Malik....]")
      by (vm_compute; reflexivity).
    reflexivity.
  - destruct (@translate_streaming_keyless embed md5_hexdigest endpoint
                Example.pipeline Example.world Example.short_document
                (lit "Urdu") (lit "English") keyless_example Hne)
      as (ms & stats & p' & w' & Heq & _).
    rewrite short_document_chunks in Heq.
    exists ms, stats, p', w'. rewrite Heq.
    replace (RAGTranslationPipeline._combine_chunks
               (map DocumentChunk.text
                  [DocumentChunk.mk 0 Example.sentence 0 35 (Some 1%Z)
                     None []]))
      with (lit "Khasra number 42 belongs to Malik.") by (vm_compute; reflexivity).
    replace (len Example.short_document) with 34%Z by (vm_compute; reflexivity).
    reflexivity.
  - vm_compute. discriminate.
Qed.

(** C2, as amended.  Without a key [generate] returns the error
    "API key not configured" at once, without posting a request, sleeping or
    retrying.  [translate_document] does not stop there: on a pipeline
    without a key and with nothing cached, it goes through every chunk of
    the document, records that error for each of them, puts the failure
    marker in place of each and returns the assembled text with metadata in
    which every chunk is counted as failed; no request is posted during the
    run. *)
Theorem missing_key_fails_every_chunk (embed : pystr -> list R)
  (md5_hexdigest : pystr -> pystr) (endpoint : nat -> pystr -> PostResult)
  (p : RAGTranslationPipeline.t) (w : World)
  (text source_lang target_lang : pystr) :
  keyless p ->
  SmartChunker.chunk_document text CHUNK_SIZE OVERLAP_SIZE <> [] ->
  let chunks := SmartChunker.chunk_document text CHUNK_SIZE OVERLAP_SIZE in
  (forall w0 prompt,
     GeminiGenerator.generate endpoint (RAGTranslationPipeline.generator p)
       w0 prompt =
     ((None, Some (lit "API key not configured")),
      RAGTranslationPipeline.generator p, w0)) /\
  exists m p' w',
    RAGTranslationPipeline.translate_document embed md5_hexdigest endpoint
      p w text source_lang target_lang =
      (Ok (RAGTranslationPipeline._combine_chunks
             (map (fun c => RAGTranslationPipeline.failure_marker
                              (DocumentChunk.text c)) chunks),
           RAGTranslationPipeline.Run m), p', w') /\
    RAGTranslationPipeline.total_chunks m = len_list chunks /\
    RAGTranslationPipeline.failed_chunks m = len_list chunks /\
    RAGTranslationPipeline.successful_chunks m = 0%Z /\
    RAGTranslationPipeline.errors m =
      Some (map (fun c => (DocumentChunk.id c,
                           lit "API key not configured")) chunks) /\
    posts w' = posts w.
Proof.
  intros Hk Hne chunks. split.
  - intros w0 prompt. apply generate_without_key. apply Hk.
  - destruct (@translate_document_keyless embed md5_hexdigest endpoint p w
                text source_lang target_lang Hk Hne)
      as (m & p' & w' & H1 & H2 & H3 & H4 & _ & H5 & H6 & _).
    exists m, p', w'. repeat split; assumption.
Qed.

(** The pipeline of a process without a key, and a document of two chunks. *)
Lemma missing_key_fails_every_chunk_witness :
  keyless Example.pipeline /\
  SmartChunker.chunk_document Example.long_document CHUNK_SIZE OVERLAP_SIZE
    <> [] /\
  exists m p' w',
    RAGTranslationPipeline.translate_document Example.embed
      Example.md5_hexdigest Example.endpoint_timeout Example.pipeline
      Example.world Example.long_document (lit "Urdu") (lit "English") =
      (Ok (RAGTranslationPipeline._combine_chunks
             (map (fun c => RAGTranslationPipeline.failure_marker
                              (DocumentChunk.text c))
                (SmartChunker.chunk_document Example.long_document
                   CHUNK_SIZE OVERLAP_SIZE)),
           RAGTranslationPipeline.Run m), p', w') /\
    RAGTranslationPipeline.failed_chunks m =
      len_list (SmartChunker.chunk_document Example.long_document
                  CHUNK_SIZE OVERLAP_SIZE).
Proof.
  assert (Hne : SmartChunker.chunk_document Example.long_document CHUNK_SIZE
                  OVERLAP_SIZE <> []).
  { intros H. apply (f_equal (map DocumentChunk.id)) in H.
    rewrite long_document_chunks in H. discriminate. }
  split; [exact keyless_example|]. split; [exact Hne|].
  destruct (proj2 (@missing_key_fails_every_chunk Example.embed
              Example.md5_hexdigest Example.endpoint_timeout
              Example.pipeline Example.world Example.long_document
              (lit "Urdu") (lit "English") keyless_example Hne))
    as (m & p' & w' & H1 & _ & H3 & _).
  exists m, p', w'. split; assumption.
Defined.

(** C2, as stated, fails: a document of two chunks, translated by a pipeline
    without a key, is not stopped at the first chunk.  The run returns
    normally, and its metadata list the error for chunk 0 and for chunk 1. *)
Lemma missing_key_not_fatal_counterexample :
  exists text m p' w',
    RAGTranslationPipeline.translate_document Example.embed
      Example.md5_hexdigest Example.endpoint_timeout Example.pipeline
      Example.world Example.long_document (lit "Urdu") (lit "English") =
      (Ok (text, RAGTranslationPipeline.Run m), p', w') /\
    RAGTranslationPipeline.total_chunks m = 2%Z /\
    RAGTranslationPipeline.failed_chunks m = 2%Z /\
    RAGTranslationPipeline.errors m =
      Some [(0%Z, lit "API key not configured");
            (1%Z, lit "API key not configured")].
Proof.
  assert (Hne : SmartChunker.chunk_document Example.long_document CHUNK_SIZE
                  OVERLAP_SIZE <> []).
  { intros H. apply (f_equal (map DocumentChunk.id)) in H.
    rewrite long_document_chunks in H. discriminate. }
  destruct (@translate_document_keyless Example.embed
              Example.md5_hexdigest Example.endpoint_timeout
              Example.pipeline Example.world Example.long_document
              (lit "Urdu") (lit "English") keyless_example Hne)
    as (m & p' & w' & H1 & H2 & H3 & _ & _ & H5 & _).
  eexists _, m, p', w'. split; [exact H1|].
  rewrite H2, H3, H5.
  split; [vm_compute; reflexivity|]. split; vm_compute; reflexivity.
Qed.

(** C10, as stated, fails: the marker of a failed chunk repeats the first
    100 characters of the chunk, and a chunk can contain the phrase
    "Translation unavailable".  A document of one such sentence, translated by
    a pipeline without a key: the text returned is the failure marker, and
    the issues of the run hold the tag. *)
Lemma failure_marker_triggers_tag_counterexample :
  In TranslationQuality.FAILED_CHUNKS
     (TranslationQuality.detect_issues
        (RAGTranslationPipeline.failure_marker
           (lit "Translation unavailable for Khasra 42."))) /\
  exists m p' w',
    RAGTranslationPipeline.translate_document Example.embed
      Example.md5_hexdigest Example.endpoint_timeout Example.pipeline
      Example.world (lit "Translation unavailable for Khasra 42.")
      (lit "Urdu") (lit "English") =
      (Ok (lit "[Translation failed: Translation unavailable for Khasra 42....]",
           RAGTranslationPipeline.Run m), p', w') /\
    RAGTranslationPipeline.quality_issues m =
      Some [TranslationQuality.FAILED_CHUNKS].
Proof.
  split; [vm_compute; left; reflexivity|].
  assert (Hc : SmartChunker.chunk_document
                 (lit "Translation unavailable for Khasra 42.") CHUNK_SIZE
                 OVERLAP_SIZE =
               [DocumentChunk.mk 0
                  (lit "Translation unavailable for Khasra 42.") 0 39
                  (Some 1%Z) None []])
    by (vm_compute; reflexivity).
  destruct (@translate_document_keyless_issues Example.embed
              Example.md5_hexdigest Example.endpoint_timeout
              Example.pipeline Example.world
              (lit "Translation unavailable for Khasra 42.")
              (lit "Urdu") (lit "English") keyless_example)
    as (m & p' & w' & Hrun & Hq).
  { rewrite Hc. discriminate. }
  rewrite Hc in Hrun, Hq. exists m, p', w'. split.
  - rewrite Hrun. vm_compute. reflexivity.
  - rewrite Hq. vm_compute. reflexivity.
Qed.

(** ** What a run leaves of the pipeline object *)

Section Frame.
Variable embed : pystr -> list R.
Variable md5_hexdigest : pystr -> pystr.
Variable endpoint : nat -> pystr -> PostResult.

Local Abbreviation pipeline := RAGTranslationPipeline.t.

Lemma kept_refl p : kept p p.
Proof. unfold kept. repeat split; lia. Qed.

Lemma kept_trans p q r : kept p q -> kept q r -> kept p r.
Proof.
  unfold kept. intros (A1 & A2 & A3 & A4 & A5) (B1 & B2 & B3 & B4 & B5).
  repeat split; try congruence; lia.
Qed.

Lemma attempt_once_count prompt attempt g w :
  (GeminiGenerator.request_count g <=
   GeminiGenerator.request_count
     (snd (fst (GeminiGenerator.attempt_once endpoint prompt attempt g w))))%Z.
Proof.
  unfold GeminiGenerator.attempt_once.
  destruct (endpoint (posts w) prompt) as [|e|took r].
  - destruct (GeminiGenerator.last_attempt attempt); simpl; lia.
  - destruct (GeminiGenerator.last_attempt attempt); simpl; lia.
  - destruct (status_code r =? 429)%Z; [simpl; lia|].
    destruct (status_code r =? 503)%Z; [simpl; lia|].
    destruct (_ && _); [|destruct (payload r)];
      destruct (GeminiGenerator.last_attempt attempt); simpl; lia.
Qed.

Lemma attempts_count prompt remaining :
  forall attempt g w,
    (GeminiGenerator.request_count g <=
     GeminiGenerator.request_count
       (snd (fst (GeminiGenerator.attempts endpoint prompt remaining attempt
                    g w))))%Z.
Proof.
  induction remaining as [|n IH]; intros attempt g w.
  - simpl. lia.
  - cbn [GeminiGenerator.attempts].
    pose proof (attempt_once_count prompt attempt g w) as H.
    destruct (GeminiGenerator.attempt_once endpoint prompt attempt g w)
      as [[[|text error] g1] w1]; cbn [fst snd] in *.
    + specialize (IH (S attempt) g1 w1). lia.
    + exact H.
Qed.

Lemma generate_count g w prompt :
  (GeminiGenerator.request_count g <=
   GeminiGenerator.request_count
     (snd (fst (GeminiGenerator.generate endpoint g w prompt))))%Z.
Proof.
  unfold GeminiGenerator.generate.
  destruct (negb _); [simpl; lia|].
  unfold GeminiGenerator._rate_limit.
  match goal with
  | |- context [GeminiGenerator.attempts _ _ _ _ ?g1 ?w1] =>
      pose proof (attempts_count prompt MAX_RETRIES 0 g1 w1) as H
  end.
  exact H.
Qed.

Lemma get_counters (c : TranslationCache.t (option pystr)) text :
  TranslationCache.max_size (snd (TranslationCache.get md5_hexdigest c text))
    = TranslationCache.max_size c /\
  (TranslationCache.hits c <=
   TranslationCache.hits (snd (TranslationCache.get md5_hexdigest c text)))%Z
  /\
  (TranslationCache.misses c <=
   TranslationCache.misses
     (snd (TranslationCache.get md5_hexdigest c text)))%Z.
Proof.
  unfold TranslationCache.get.
  destruct (OrderedDict.contains_key _ _); simpl; repeat split; lia.
Qed.

Lemma set_counters (c c' : TranslationCache.t (option pystr)) text v :
  TranslationCache.set md5_hexdigest c text v = Ok c' ->
  TranslationCache.max_size c' = TranslationCache.max_size c /\
  TranslationCache.hits c' = TranslationCache.hits c /\
  TranslationCache.misses c' = TranslationCache.misses c.
Proof.
  unfold TranslationCache.set. destruct (_ <=? _)%Z.
  - destruct (OrderedDict.popitem_first _) as [[e d]|]; [|discriminate].
    intros H; injection H as <-. auto.
  - intros H; injection H as <-. auto.
Qed.

Lemma translate_chunk_kept source_lang target_lang total i chunk st p w :
  kept p
    (snd (fst (RAGTranslationPipeline.translate_chunk md5_hexdigest endpoint
                 source_lang target_lang total i chunk st p w))).
Proof.
  unfold RAGTranslationPipeline.translate_chunk.
  pose proof (get_counters (RAGTranslationPipeline.cache p)
                (DocumentChunk.text chunk)) as (G1 & G2 & G3).
  destruct (TranslationCache.get md5_hexdigest
              (RAGTranslationPipeline.cache p) (DocumentChunk.text chunk))
    as [cached c]. cbn [snd] in G1, G2, G3.
  destruct (truthy_opt (RAGTranslationPipeline.seen cached)).
  { unfold kept. cbn. repeat split; auto; lia. }
  cbn [RAGTranslationPipeline.generator RAGTranslationPipeline.cache
       RAGTranslationPipeline.vector_store].
  match goal with
  | |- context [GeminiGenerator.generate endpoint ?g ?w0 ?pr] =>
      pose proof (generate_count g w0 pr) as Hg;
      destruct (GeminiGenerator.generate endpoint g w0 pr)
        as [[[translation error] g1] w1]
  end.
  cbn [fst snd] in Hg.
  destruct (truthy_opt error).
  { unfold kept. cbn. repeat split; auto; lia. }
  cbn [RAGTranslationPipeline.generator RAGTranslationPipeline.cache
       RAGTranslationPipeline.vector_store].
  destruct (TranslationCache.set md5_hexdigest c (DocumentChunk.text chunk)
              translation) as [c'|e] eqn:Es.
  - apply set_counters in Es as (S1 & S2 & S3).
    destruct translation; unfold kept; cbn; repeat split; auto; lia.
  - unfold kept. cbn. repeat split; auto; lia.
Qed.

Lemma translate_chunks_kept source_lang target_lang total chunks :
  forall i st p w,
    kept p
      (snd (fst (RAGTranslationPipeline.translate_chunks md5_hexdigest
                   endpoint source_lang target_lang total i chunks st p w))).
Proof.
  induction chunks as [|chunk rest IH]; intros i st p w.
  - apply kept_refl.
  - cbn [RAGTranslationPipeline.translate_chunks].
    pose proof (translate_chunk_kept source_lang target_lang total i chunk
                  st p w) as H.
    destruct (RAGTranslationPipeline.translate_chunk md5_hexdigest endpoint
                source_lang target_lang total i chunk st p w)
      as [[[st1|e] p1] w1]; cbn [fst snd] in H.
    + eapply kept_trans; [exact H | apply IH].
    + exact H.
Qed.

(** What [translate_document] does to the pipeline object.  A document
    without text leaves it untouched.  Otherwise the vector store holds the
    chunks of this document and nothing else, whether the run ends normally
    or not, the capacity of the cache is kept, and no counter goes down. *)
Lemma translate_document_frame p w text source_lang target_lang :
  let chunks := SmartChunker.chunk_document text CHUNK_SIZE OVERLAP_SIZE in
  let p' :=
    snd (fst (RAGTranslationPipeline.translate_document embed md5_hexdigest
                endpoint p w text source_lang target_lang)) in
  (chunks = [] -> p' = p) /\
  (chunks <> [] ->
   RAGTranslationPipeline.vector_store p' =
   InMemoryVectorStore.add_chunks embed InMemoryVectorStore.init chunks) /\
  TranslationCache.max_size (RAGTranslationPipeline.cache p') =
    TranslationCache.max_size (RAGTranslationPipeline.cache p) /\
  (TranslationCache.hits (RAGTranslationPipeline.cache p) <=
   TranslationCache.hits (RAGTranslationPipeline.cache p'))%Z /\
  (TranslationCache.misses (RAGTranslationPipeline.cache p) <=
   TranslationCache.misses (RAGTranslationPipeline.cache p'))%Z /\
  (GeminiGenerator.request_count (RAGTranslationPipeline.generator p) <=
   GeminiGenerator.request_count (RAGTranslationPipeline.generator p'))%Z.
Proof.
  cbv zeta. unfold RAGTranslationPipeline.translate_document.
  remember (SmartChunker.chunk_document text CHUNK_SIZE OVERLAP_SIZE)
    as chunks eqn:Ec. clear Ec.
  destruct chunks as [|c0 rest].
  - change (len_list (@nil DocumentChunk.t) =? 0)%Z with true. cbn [fst snd].
    repeat split; try congruence; lia.
  - assert (Hz : (len_list (c0 :: rest) =? 0)%Z = false)
      by (unfold len_list; simpl; lia).
    rewrite Hz.
    match goal with
    | |- context [RAGTranslationPipeline.translate_chunks _ _ ?sl ?tl ?tot
                    ?i ?cs ?st ?p0 ?w0] =>
        pose proof (translate_chunks_kept sl tl tot cs i st p0 w0) as H;
        destruct (RAGTranslationPipeline.translate_chunks md5_hexdigest
                    endpoint sl tl tot i cs st p0 w0) as [[[st1|e] p1] w1]
    end; cbn [fst snd] in *;
      destruct H as (H1 & H2 & H3 & H4 & H5);
      cbn [RAGTranslationPipeline.generator RAGTranslationPipeline.cache
           RAGTranslationPipeline.vector_store] in *;
      repeat split; try congruence; try lia; intros _; exact H1.
Qed.

End Frame.

(** ** The module-level pipeline *)

Section Singleton.
Variable hash : pystr -> Z.
Variable md5_hexdigest : pystr -> pystr.
Variable endpoint : nat -> pystr -> PostResult.

Local Abbreviation with_rag :=
  (translate_with_rag hash md5_hexdigest endpoint).
Local Abbreviation translate_document :=
  (RAGTranslationPipeline.translate_document (default_embed hash)
     md5_hexdigest endpoint).

Lemma nth_error_store r v h :
  r < length h -> nth_error (store r v h) r = Some v.
Proof.
  revert r; induction h as [|x h IH]; intros [|r] H; simpl in *;
    try lia; auto. apply IH. lia.
Qed.

Lemma length_store r v h : length (store r v h) = length h.
Proof.
  revert r; induction h as [|x h IH]; intros [|r]; simpl; auto.
Qed.

(** [get_rag_translator] allocates at most once: it leaves [_pipeline]
    referring to an allocated object, and from then on returns that
    reference and changes nothing. *)
Lemma get_rag_translator_once s :
  well_formed s ->
  exists r s1,
    get_rag_translator s = (r, s1) /\
    _pipeline s1 = Some r /\ r < length (heap s1) /\
    get_rag_translator s1 = (r, s1) /\
    (forall r0, _pipeline s = Some r0 -> r0 = r /\ s1 = s).
Proof.
  unfold well_formed, get_rag_translator. intros Hwf.
  destruct (_pipeline s) as [r0|] eqn:E.
  - exists r0, s. rewrite E. repeat split; auto; congruence.
  - destruct (RAGTranslationPipeline.init (world s)) as [p w].
    eexists _, _. split; [reflexivity|]. cbn [_pipeline heap].
    rewrite length_app. simpl. split; [reflexivity|]. split; [lia|].
    split; [reflexivity | discriminate].
Qed.

(** A call of [translate_with_rag] is a run of [translate_document] on the
    object [_pipeline] refers to, which it leaves in the heap under the same
    reference. *)
Lemma translate_with_rag_run s text source_lang target_lang :
  well_formed s ->
  exists r s0 p0,
    get_rag_translator s = (r, s0) /\
    nth_error (heap s0) r = Some p0 /\
    forall res p1 w1,
      translate_document p0 (world s0) text source_lang target_lang
        = (res, p1, w1) ->
      with_rag s text source_lang target_lang =
        (res, mk_process w1 (store r p1 (heap s0)) (Some r)) /\
      nth_error (store r p1 (heap s0)) r = Some p1 /\
      well_formed (mk_process w1 (store r p1 (heap s0)) (Some r)).
Proof.
  intros Hwf.
  destruct (get_rag_translator_once s Hwf) as (r & s0 & Hg & Hp & Hr & _).
  destruct (nth_error (heap s0) r) as [p0|] eqn:En.
  2:{ apply nth_error_None in En. lia. }
  exists r, s0, p0. repeat split; auto.
  - unfold translate_with_rag. rewrite Hg, En.
    fold translate_document. rewrite H. now rewrite Hp.
  - now apply nth_error_store.
  - unfold well_formed. cbn [_pipeline heap]. now rewrite length_store.
Qed.

End Singleton.

Lemma add_chunks_texts (embed : pystr -> list R) (s : InMemoryVectorStore.t)
  (cs : list DocumentChunk.t) :
  map DocumentChunk.text
    (InMemoryVectorStore.chunks (InMemoryVectorStore.add_chunks embed s cs)) =
  map DocumentChunk.text (InMemoryVectorStore.chunks s)
    ++ map DocumentChunk.text cs.
Proof.
  unfold InMemoryVectorStore.add_chunks. cbn [InMemoryVectorStore.chunks].
  generalize (InMemoryVectorStore.chunks s). clear s.
  induction cs as [|c cs IH]; intros acc; simpl.
  - now rewrite app_nil_r.
  - rewrite IH, map_app. simpl. rewrite <- app_assoc. simpl.
    unfold InMemoryVectorStore.embed_chunk.
    now destruct (DocumentChunk.embedding c).
Qed.

Section CacheUntouched.
Variable V : Type.
Variable md5_hexdigest : pystr -> pystr.

Local Abbreviation key := (TranslationCache._hash_key md5_hexdigest).

Lemma getitem_setitem_other k k' (v : V) d :
  k' <> k ->
  OrderedDict.getitem k (OrderedDict.setitem k' v d) = OrderedDict.getitem k d.
Proof.
  intros Hk. induction d as [|[k0 v0] d IH]; simpl.
  - assert (E : Py.eqb k k' = false) by (apply eqb_neq; congruence).
    now rewrite E.
  - destruct (Py.eqb k' k0) eqn:E0; simpl.
    + apply eqb_eq in E0. subst k0.
      assert (E : Py.eqb k k' = false) by (apply eqb_neq; congruence).
      now rewrite E.
    + now rewrite IH.
Qed.

Lemma getitem_delitem_other k k' (d : OrderedDict.t V) :
  k' <> k ->
  OrderedDict.getitem k (OrderedDict.delitem k' d) = OrderedDict.getitem k d.
Proof.
  intros Hk. induction d as [|[k0 v0] d IH]; simpl; [reflexivity|].
  destruct (Py.eqb k' k0) eqn:E0; simpl.
  - apply eqb_eq in E0. subst k0.
    assert (E : Py.eqb k k' = false) by (apply eqb_neq; congruence).
    now rewrite E.
  - now rewrite IH.
Qed.

Lemma getitem_app_other k k' (v : V) d :
  k' <> k ->
  OrderedDict.getitem k (d ++ [(k', v)]) = OrderedDict.getitem k d.
Proof.
  intros Hk. induction d as [|[k0 v0] d IH]; simpl.
  - assert (E : Py.eqb k k' = false) by (apply eqb_neq; congruence).
    now rewrite E.
  - now rewrite IH.
Qed.

Lemma getitem_move_to_end_other k k' (d : OrderedDict.t V) :
  k' <> k ->
  OrderedDict.getitem k (OrderedDict.move_to_end k' d)
  = OrderedDict.getitem k d.
Proof.
  intros Hk. unfold OrderedDict.move_to_end.
  destruct (OrderedDict.getitem k' d); [|reflexivity].
  rewrite getitem_app_other by exact Hk. now apply getitem_delitem_other.
Qed.

(** A call on another key, made while the cache has room, leaves the value
    of the key [k] as it was. *)
Lemma after_call_other (c : TranslationCache.t V) op k :
  (TranslationCache.size c + stores [op] <= TranslationCache.max_size c)%Z ->
  key (call_text op) <> k ->
  let c' := TranslationCache.after_call md5_hexdigest c op in
  OrderedDict.getitem k (TranslationCache.cache c')
    = OrderedDict.getitem k (TranslationCache.cache c) /\
  (TranslationCache.size c' <= TranslationCache.size c + stores [op])%Z /\
  TranslationCache.max_size c' = TranslationCache.max_size c.
Proof.
  intros Hroom Hk. destruct op as [text|text v];
    cbn [TranslationCache.after_call call_text] in *.
  - unfold TranslationCache.get.
    destruct (OrderedDict.contains_key _ _); cbv zeta;
      cbn [snd TranslationCache.cache TranslationCache.max_size];
      unfold TranslationCache.size; cbn [TranslationCache.cache].
    + rewrite getitem_move_to_end_other by exact Hk.
      rewrite length_move_to_end.
      change (stores [TranslationCache.CallGet V text]) with 0%Z.
      repeat split; lia.
    + change (stores [TranslationCache.CallGet V text]) with 0%Z.
      repeat split; lia.
  - change (stores [TranslationCache.CallSet text v]) with 1%Z in *.
    unfold TranslationCache.set.
    assert (E : (TranslationCache.max_size c <=? TranslationCache.size c)%Z
                = false) by (apply Z.leb_gt; lia).
    rewrite E. cbv zeta.
    cbn [TranslationCache.cache TranslationCache.max_size].
    unfold TranslationCache.size. cbn [TranslationCache.cache].
    rewrite getitem_setitem_other by exact Hk.
    pose proof (length_setitem (key text) v (TranslationCache.cache c)).
    repeat split; lia.
Qed.

Lemma stores_cons (op : TranslationCache.call V) ops :
  stores (op :: ops) = (stores [op] + stores ops)%Z.
Proof.
  unfold stores. destruct op; cbn [filter length]; lia.
Qed.

Lemma stores_app (ops1 ops2 : list (TranslationCache.call V)) :
  stores (ops1 ++ ops2) = (stores ops1 + stores ops2)%Z.
Proof.
  unfold stores. rewrite filter_app, length_app. lia.
Qed.

Lemma stores_nonneg (ops : list (TranslationCache.call V)) :
  (0 <= stores ops)%Z.
Proof. unfold stores. lia. Qed.

(** Calls on other keys, made while the cache has room for what they store,
    leave the value of the key [k] as it was. *)
Lemma after_calls_other ops k :
  forall c : TranslationCache.t V,
    (TranslationCache.size c + stores ops <= TranslationCache.max_size c)%Z ->
    Forall (fun op => key (call_text op) <> k) ops ->
    OrderedDict.getitem k
      (TranslationCache.cache
         (TranslationCache.after_calls md5_hexdigest c ops))
    = OrderedDict.getitem k (TranslationCache.cache c).
Proof.
  induction ops as [|op ops IH]; intros c Hroom Hk; [reflexivity|].
  unfold TranslationCache.after_calls. cbn [fold_left].
  apply Forall_cons_iff in Hk as [Hk Hks].
  rewrite stores_cons in Hroom.
  pose proof (stores_nonneg ops) as Hn.
  destruct (@after_call_other c op k ltac:(lia) Hk) as (Hg & Hs & Hm).
  fold (TranslationCache.after_calls md5_hexdigest
          (TranslationCache.after_call md5_hexdigest c op) ops).
  rewrite IH; [exact Hg | lia | exact Hks].
Qed.

End CacheUntouched.

Section RunCalls.
Variable embed : pystr -> list R.
Variable md5_hexdigest : pystr -> pystr.
Variable endpoint : nat -> pystr -> PostResult.

Local Abbreviation carried := (cache_carried_over md5_hexdigest).

Lemma carried_refl cs c : carried cs c c.
Proof.
  exists []. split; [reflexivity|]. split; [constructor|].
  unfold stores, len_list. simpl. lia.
Qed.

Lemma carried_app cs1 cs2 c1 c2 c3 :
  carried cs1 c1 c2 -> carried cs2 c2 c3 -> carried (cs1 ++ cs2) c1 c3.
Proof.
  intros (o1 & -> & F1 & S1) (o2 & -> & F2 & S2). exists (o1 ++ o2).
  split; [|split].
  - unfold TranslationCache.after_calls. now rewrite fold_left_app.
  - apply Forall_app. split.
    + eapply Forall_impl; [|exact F1]. cbv beta. intros op H.
      rewrite map_app. apply in_or_app. now left.
    + eapply Forall_impl; [|exact F2]. cbv beta. intros op H.
      rewrite map_app. apply in_or_app. now right.
  - rewrite stores_app. unfold len_list in *. rewrite length_app. lia.
Qed.

Lemma translate_chunk_calls source_lang target_lang total i chunk st p w :
  carried [chunk] (RAGTranslationPipeline.cache p)
    (RAGTranslationPipeline.cache
       (snd (fst (RAGTranslationPipeline.translate_chunk md5_hexdigest
                    endpoint source_lang target_lang total i chunk st p w)))).
Proof.
  assert (Hget : carried [chunk] (RAGTranslationPipeline.cache p)
            (snd (TranslationCache.get md5_hexdigest
                    (RAGTranslationPipeline.cache p)
                    (DocumentChunk.text chunk)))).
  { exists [TranslationCache.CallGet _ (DocumentChunk.text chunk)].
    split; [reflexivity|]. split.
    - constructor; [now left | constructor].
    - unfold stores, len_list. simpl. lia. }
  assert (Hset : forall translation c',
            TranslationCache.set md5_hexdigest
              (snd (TranslationCache.get md5_hexdigest
                      (RAGTranslationPipeline.cache p)
                      (DocumentChunk.text chunk)))
              (DocumentChunk.text chunk) translation = Ok c' ->
            carried [chunk] (RAGTranslationPipeline.cache p) c').
  { intros translation c' E.
    exists [TranslationCache.CallGet _ (DocumentChunk.text chunk);
            TranslationCache.CallSet (DocumentChunk.text chunk) translation].
    split; [|split].
    - unfold TranslationCache.after_calls. cbn [fold_left].
      cbn [TranslationCache.after_call]. now rewrite E.
    - repeat constructor.
    - unfold stores, len_list. simpl. lia. }
  unfold RAGTranslationPipeline.translate_chunk.
  destruct (TranslationCache.get md5_hexdigest
              (RAGTranslationPipeline.cache p) (DocumentChunk.text chunk))
    as [cached c]. cbn [snd] in Hget, Hset.
  destruct (truthy_opt (RAGTranslationPipeline.seen cached)); [exact Hget|].
  cbn [RAGTranslationPipeline.generator RAGTranslationPipeline.cache
       RAGTranslationPipeline.vector_store].
  match goal with
  | |- context [GeminiGenerator.generate endpoint ?g ?w0 ?pr] =>
      destruct (GeminiGenerator.generate endpoint g w0 pr)
        as [[[translation error] g1] w1]
  end.
  destruct (truthy_opt error); [exact Hget|].
  cbn [RAGTranslationPipeline.generator RAGTranslationPipeline.cache
       RAGTranslationPipeline.vector_store].
  destruct (TranslationCache.set md5_hexdigest c (DocumentChunk.text chunk)
              translation) as [c'|e] eqn:Es.
  - destruct translation; cbn [fst snd RAGTranslationPipeline.cache];
      eapply Hset; exact Es.
  - exact Hget.
Qed.

Lemma translate_chunks_calls source_lang target_lang total chunks :
  forall i st p w,
    carried chunks (RAGTranslationPipeline.cache p)
      (RAGTranslationPipeline.cache
         (snd (fst (RAGTranslationPipeline.translate_chunks md5_hexdigest
                      endpoint source_lang target_lang total i chunks st p
                      w)))).
Proof.
  induction chunks as [|chunk rest IH]; intros i st p w.
  - apply carried_refl.
  - cbn [RAGTranslationPipeline.translate_chunks].
    pose proof (translate_chunk_calls source_lang target_lang total i chunk
                  st p w) as H.
    destruct (RAGTranslationPipeline.translate_chunk md5_hexdigest endpoint
                source_lang target_lang total i chunk st p w)
      as [[[st1|e] p1] w1]; cbn [fst snd] in H.
    + change (chunk :: rest) with ([chunk] ++ rest).
      eapply carried_app; [exact H | apply IH].
    + cbn [fst snd]. change (chunk :: rest) with ([chunk] ++ rest).
      eapply carried_app; [exact H | apply carried_refl].
Qed.

Lemma translate_document_calls p w text source_lang target_lang :
  carried (SmartChunker.chunk_document text CHUNK_SIZE OVERLAP_SIZE)
    (RAGTranslationPipeline.cache p)
    (RAGTranslationPipeline.cache
       (snd (fst (RAGTranslationPipeline.translate_document embed
                    md5_hexdigest endpoint p w text source_lang
                    target_lang)))).
Proof.
  unfold RAGTranslationPipeline.translate_document.
  remember (SmartChunker.chunk_document text CHUNK_SIZE OVERLAP_SIZE)
    as chunks eqn:Ec. clear Ec.
  destruct (len_list chunks =? 0)%Z; [apply carried_refl|].
  match goal with
  | |- context [RAGTranslationPipeline.translate_chunks _ _ ?sl ?tl ?tot
                  ?i ?cs ?st ?p0 ?w0] =>
      pose proof (translate_chunks_calls sl tl tot cs i st p0 w0) as H;
      destruct (RAGTranslationPipeline.translate_chunks md5_hexdigest
                  endpoint sl tl tot i cs st p0 w0) as [[[st1|e] p1] w1]
  end; cbn [fst snd RAGTranslationPipeline.cache] in *; exact H.
Qed.

(** While the cache has room for the chunks of a document, a run on that
    document leaves every key that is not the key of one of its chunks with
    the value it had. *)
Lemma carried_other chunks (c c' : TranslationCache.t (option pystr)) k :
  carried chunks c c' ->
  (TranslationCache.size c + len_list chunks <= TranslationCache.max_size c)%Z
  ->
  (forall chunk, In chunk chunks ->
     TranslationCache._hash_key md5_hexdigest (DocumentChunk.text chunk) <> k)
  ->
  OrderedDict.getitem k (TranslationCache.cache c')
  = OrderedDict.getitem k (TranslationCache.cache c).
Proof.
  intros (ops & -> & Hops & Hstores) Hroom Hk.
  apply after_calls_other; [lia|].
  eapply Forall_impl; [|exact Hops]. cbv beta. intros op Hin.
  apply in_map_iff in Hin as (chunk & <- & Hc). now apply Hk.
Qed.

End RunCalls.

(** C9, as amended.  In a process whose [_pipeline] is unset or refers to
    an allocated object, [get_rag_translator] returns one and the same
    object at every call, and each [translate_with_rag] call is a run of
    [translate_document] on that object: the second run starts from the
    cache, the hit and miss counters and the request count that the first
    run left.  A run keeps the capacity of the cache and lowers no counter;
    it touches the dictionary of the cache only through [get] and [set]
    calls on the texts of its own chunks and never clears it, so that, while
    the cache has room for the chunks of the document, every key that is not
    the key of one of these chunks has after the run the value it had
    before.  A run replaces the content of the vector store by the chunks of
    its own document when that document has at least one chunk, and leaves
    the whole object untouched, vector store included, when the document
    has no text to chunk. *)
Theorem singleton_pipeline_shares_state (hash : pystr -> Z)
  (md5_hexdigest : pystr -> pystr) (endpoint : nat -> pystr -> PostResult)
  (s : Process) (text1 text2 source_lang target_lang : pystr) :
  well_formed s ->
  exists r s0 p0,
    get_rag_translator s = (r, s0) /\
    get_rag_translator s0 = (r, s0) /\
    nth_error (heap s0) r = Some p0 /\
    forall res1 p1 w1,
      RAGTranslationPipeline.translate_document (default_embed hash)
        md5_hexdigest endpoint p0 (world s0) text1 source_lang target_lang
        = (res1, p1, w1) ->
      let s1 := mk_process w1 (store r p1 (heap s0)) (Some r) in
      translate_with_rag hash md5_hexdigest endpoint s text1 source_lang
        target_lang = (res1, s1) /\
      get_rag_translator s1 = (r, s1) /\
      nth_error (heap s1) r = Some p1 /\
      forall res2 p2 w2,
        RAGTranslationPipeline.translate_document (default_embed hash)
          md5_hexdigest endpoint p1 w1 text2 source_lang target_lang
          = (res2, p2, w2) ->
        let chunks2 :=
          SmartChunker.chunk_document text2 CHUNK_SIZE OVERLAP_SIZE in
        translate_with_rag hash md5_hexdigest endpoint s1 text2 source_lang
          target_lang
          = (res2, mk_process w2 (store r p2 (heap s1)) (Some r)) /\
        (chunks2 = [] -> p2 = p1) /\
        (chunks2 <> [] ->
         RAGTranslationPipeline.vector_store p2 =
         InMemoryVectorStore.add_chunks (default_embed hash)
           InMemoryVectorStore.init chunks2) /\
        cache_carried_over md5_hexdigest chunks2
          (RAGTranslationPipeline.cache p1)
          (RAGTranslationPipeline.cache p2) /\
        ((TranslationCache.size (RAGTranslationPipeline.cache p1)
          + len_list chunks2
          <= TranslationCache.max_size (RAGTranslationPipeline.cache p1))%Z ->
         forall k,
           (forall chunk, In chunk chunks2 ->
              TranslationCache._hash_key md5_hexdigest
                (DocumentChunk.text chunk) <> k) ->
           OrderedDict.getitem k
             (TranslationCache.cache (RAGTranslationPipeline.cache p2))
           = OrderedDict.getitem k
               (TranslationCache.cache (RAGTranslationPipeline.cache p1))) /\
        TranslationCache.max_size (RAGTranslationPipeline.cache p2) =
          TranslationCache.max_size (RAGTranslationPipeline.cache p1) /\
        (TranslationCache.hits (RAGTranslationPipeline.cache p1) <=
         TranslationCache.hits (RAGTranslationPipeline.cache p2))%Z /\
        (TranslationCache.misses (RAGTranslationPipeline.cache p1) <=
         TranslationCache.misses (RAGTranslationPipeline.cache p2))%Z /\
        (GeminiGenerator.request_count (RAGTranslationPipeline.generator p1)
         <= GeminiGenerator.request_count
              (RAGTranslationPipeline.generator p2))%Z.
Proof.
  intros Hwf.
  destruct (get_rag_translator_once s Hwf) as (r & s0 & Hg & Hp & Hr & Hg0 & _).
  destruct (@translate_with_rag_run hash md5_hexdigest endpoint s text1
              source_lang target_lang Hwf)
    as (r' & s0' & p0 & Hg' & Hn & Hrun).
  rewrite Hg in Hg'. injection Hg' as <- <-.
  exists r, s0, p0.
  split; [exact Hg|]. split; [exact Hg0|]. split; [exact Hn|].
  intros res1 p1 w1 H1 s1.
  destruct (Hrun res1 p1 w1 H1) as (Ht1 & Hn1 & Hwf1). fold s1 in Ht1, Hwf1.
  destruct (get_rag_translator_once s1 Hwf1)
    as (r1 & s1' & Hg1 & _ & _ & _ & Hsame).
  destruct (Hsame r eq_refl) as [<- ->].
  split; [exact Ht1|]. split; [exact Hg1|]. split; [exact Hn1|].
  intros res2 p2 w2 H2 chunks2.
  destruct (@translate_with_rag_run hash md5_hexdigest endpoint s1 text2
              source_lang target_lang Hwf1)
    as (r2 & s2 & p1' & Hg2 & Hn2 & Hrun2).
  rewrite Hg1 in Hg2. injection Hg2 as <- <-.
  change (heap s1) with (store r p1 (heap s0)) in Hn2.
  rewrite Hn1 in Hn2. injection Hn2 as <-.
  destruct (Hrun2 res2 p2 w2 H2) as (Ht2 & _ & _).
  split; [exact Ht2|].
  pose proof (translate_document_frame (default_embed hash) md5_hexdigest
                endpoint p1 w1 text2 source_lang target_lang) as Hf.
  cbv zeta in Hf. rewrite H2 in Hf. cbn [fst snd] in Hf.
  destruct Hf as (F1 & F2 & F3 & F4 & F5 & F6).
  pose proof (translate_document_calls (default_embed hash) md5_hexdigest
                endpoint p1 w1 text2 source_lang target_lang) as Hc.
  rewrite H2 in Hc. cbn [fst snd] in Hc. fold chunks2 in Hc.
  split; [exact F1|]. split; [exact F2|]. split; [exact Hc|].
  split; [|auto].
  intros Hroom k Hk. now apply (carried_other Hc).
Qed.

(** A process with a key, and an endpoint that translates after two answers
    429.  The first call builds the pipeline and caches the translation of
    the first document; after the second call, on another document, that
    entry is still in the cache. *)
Lemma singleton_pipeline_shares_state_witness :
  let s := mk_process Fixture.world [] None in
  let text1 := Example.short_document in
  let text2 := lit "Owner Ali." in
  well_formed s /\
  exists res1 s1 p1 res2 s2 p2,
    translate_with_rag Example.hash Example.md5_hexdigest
      Example.endpoint_429_429_ok s text1 (lit "Urdu") (lit "English")
      = (res1, s1) /\
    nth_error (heap s1) 0 = Some p1 /\
    translate_with_rag Example.hash Example.md5_hexdigest
      Example.endpoint_429_429_ok s1 text2 (lit "Urdu") (lit "English")
      = (res2, s2) /\
    nth_error (heap s2) 0 = Some p2 /\
    OrderedDict.getitem (Example.md5_hexdigest text1)
      (TranslationCache.cache (RAGTranslationPipeline.cache p1))
      = Some (Some (lit "Khasra 42")) /\
    OrderedDict.getitem (Example.md5_hexdigest text1)
      (TranslationCache.cache (RAGTranslationPipeline.cache p2))
      = Some (Some (lit "Khasra 42")).
Proof.
  intros s text1 text2. split; [exact I|].
  destruct (@singleton_pipeline_shares_state Example.hash
              Example.md5_hexdigest Example.endpoint_429_429_ok s text1 text2
              (lit "Urdu") (lit "English") I)
    as (r & s0 & p0 & Hg & _ & Hn & Hrun).
  vm_compute in Hg. injection Hg as <- <-.
  vm_compute in Hn. injection Hn as <-.
  match type of Hrun with
  | forall res p w, ?run1 = _ -> _ =>
      destruct run1 as [[res1 p1] w1] eqn:E1
  end.
  destruct (Hrun res1 p1 w1 eq_refl) as (Ht1 & _ & Hn1 & Hrun2).
  assert (Hc1 : RAGTranslationPipeline.cache p1 =
                TranslationCache.mk
                  [(text1, Some (lit "Khasra 42"))] CACHE_SIZE 0 1).
  { apply (f_equal (fun x => RAGTranslationPipeline.cache (snd (fst x))))
      in E1. cbn [fst snd] in E1. rewrite <- E1. lazy. reflexivity. }
  match type of Hrun2 with
  | forall res p w, ?run2 = _ -> _ =>
      destruct run2 as [[res2 p2] w2] eqn:E2
  end.
  destruct (Hrun2 res2 p2 w2 eq_refl) as (Ht2 & _ & _ & _ & Hkeep & _).
  eexists res1, _, p1, res2, _, p2.
  split; [exact Ht1|]. split; [exact Hn1|].
  split; [exact Ht2|]. split; [reflexivity|].
  split; [rewrite Hc1; vm_compute; reflexivity|].
  rewrite Hkeep.
  - rewrite Hc1. vm_compute. reflexivity.
  - rewrite Hc1. vm_compute. discriminate.
  - intros chunk Hin. vm_compute in Hin. destruct Hin as [<-|[]].
    vm_compute. discriminate.
Defined.

(** C9, as stated, fails: a run on a document without text returns before
    the vector store is cleared.  After a first run on a one-chunk document
    and a second run on the empty text, the vector store of the pipeline
    object still holds the chunk of the first document. *)
Lemma vector_store_not_cleared_counterexample :
  exists res1 s1 res2 s2 p,
    translate_with_rag Example.hash Example.md5_hexdigest
      Example.endpoint_timeout (mk_process Example.world [] None)
      Example.short_document (lit "Urdu") (lit "English") = (res1, s1) /\
    translate_with_rag Example.hash Example.md5_hexdigest
      Example.endpoint_timeout s1 [] (lit "Urdu") (lit "English")
      = (res2, s2) /\
    nth_error (heap s2) 0 = Some p /\
    map DocumentChunk.text
      (InMemoryVectorStore.chunks (RAGTranslationPipeline.vector_store p))
    = [Example.sentence].
Proof.
  destruct (@translate_with_rag_run Example.hash Example.md5_hexdigest
              Example.endpoint_timeout (mk_process Example.world [] None)
              Example.short_document (lit "Urdu") (lit "English") I)
    as (r & s0 & p0 & Hg & Hn & Hrun).
  vm_compute in Hg. injection Hg as <- <-.
  vm_compute in Hn. injection Hn as <-.
  match type of Hrun with
  | forall res p w,
      RAGTranslationPipeline.translate_document _ _ _ ?p0 ?w0 _ _ _ = _ -> _
    =>
      pose proof (translate_document_frame
                    (default_embed Example.hash) Example.md5_hexdigest
                    Example.endpoint_timeout p0 w0 Example.short_document
                    (lit "Urdu") (lit "English")) as Hf;
      cbv zeta in Hf;
      destruct (RAGTranslationPipeline.translate_document
                  (default_embed Example.hash) Example.md5_hexdigest
                  Example.endpoint_timeout p0 w0 Example.short_document
                  (lit "Urdu") (lit "English")) as [[res1 p1] w1] eqn:H1
  end.
  cbn [fst snd] in Hf. destruct Hf as (_ & Hvs & _).
  rewrite short_document_chunks in Hvs.
  specialize (Hvs ltac:(discriminate)).
  destruct (Hrun res1 p1 w1 eq_refl) as (Ht1 & _ & _).
  eexists res1, _, _, _, p1.
  split; [exact Ht1|].
  split; [vm_compute; reflexivity|].
  split; [reflexivity|].
  rewrite Hvs, add_chunks_texts. reflexivity.
Qed.

(* ================================================================== *)
(** * Further properties of the code                                    *)
(* ================================================================== *)

(** ** The embedder: what the embedding depends on *)

Section EmbedNormalForm.
Variable hash : pystr -> Z.
Local Open Scope R_scope.

Local Abbreviation embed := (SimpleEmbedder.embed hash).

(** What [embed] computes from, once the text is lowered and trimmed. *)
Lemma embed_of_normal_form dim text :
  embed dim text =
  let t := strip (lower text) in
  let vector := SimpleEmbedder.zeros dim in
  let vector :=
    SimpleEmbedder.accumulate hash dim 1 (SimpleEmbedder.trigrams t) vector in
  let vector := SimpleEmbedder.accumulate hash dim (1 / 2) (split t) vector in
  map (fun x => x / SimpleEmbedder.magnitude vector) vector.
Proof.
  unfold SimpleEmbedder.embed. destruct text as [|c text']; [|reflexivity].
  simpl. unfold SimpleEmbedder.magnitude.
  rewrite sum_squares_zeros, sqrt_0.
  destruct (Req_dec_T 0 0); [|congruence].
  symmetry. apply map_div_one_zeros.
Qed.

End EmbedNormalForm.

(** X1.  the embedding of a text depends only on the text lowered and
    trimmed: two texts that differ in letter case or in leading and trailing
    whitespace have the same embedding. *)
Theorem embed_ignores_case_and_margins (hash : pystr -> Z) (dim : Z)
  (a b : pystr) :
  strip (lower a) = strip (lower b) ->
  SimpleEmbedder.embed hash dim a = SimpleEmbedder.embed hash dim b.
Proof.
  intros H. rewrite !embed_of_normal_form. cbv zeta. now rewrite H.
Qed.

Lemma embed_ignores_case_and_margins_witness :
  SimpleEmbedder.embed Example.hash 256 (lit "  Khasra 42 ") =
  SimpleEmbedder.embed Example.hash 256 (lit "KHASRA 42").
Proof.
  apply embed_ignores_case_and_margins. vm_compute. reflexivity.
Defined.

(** ** The vector store and the retriever *)

Lemma In_firstn (A : Type) (k : nat) (l : list A) (x : A) :
  In x (firstn k l) -> In x l.
Proof.
  intros H. rewrite <- (firstn_skipn k l). apply in_or_app. now left.
Qed.

Section SearchFacts.
Variable embed : pystr -> list R.
Local Open Scope R_scope.

Local Abbreviation store := InMemoryVectorStore.t.
Local Abbreviation chunks := InMemoryVectorStore.chunks.
Local Abbreviation add_chunks := (InMemoryVectorStore.add_chunks embed).
Local Abbreviation search := (InMemoryVectorStore.search embed).
Local Abbreviation sort_by_score := InMemoryVectorStore.sort_by_score.
Local Abbreviation insert_by_score := InMemoryVectorStore.insert_by_score.

Lemma add_chunks_chunks (s : store) cs :
  chunks (add_chunks s cs) =
  chunks s ++ map (InMemoryVectorStore.embed_chunk embed) cs.
Proof.
  unfold InMemoryVectorStore.add_chunks. cbn [InMemoryVectorStore.chunks].
  generalize (chunks s) as acc.
  induction cs as [|c cs IH]; intros acc; simpl.
  - now rewrite app_nil_r.
  - rewrite IH, <- app_assoc. reflexivity.
Qed.

Lemma embed_chunk_embedding c :
  DocumentChunk.embedding (InMemoryVectorStore.embed_chunk embed c) <> None.
Proof.
  unfold InMemoryVectorStore.embed_chunk.
  destruct (DocumentChunk.embedding c) eqn:E; [congruence | discriminate].
Qed.

Lemma add_chunks_keeps_indexed (s : store) cs :
  indexed s -> indexed (add_chunks s cs).
Proof.
  unfold indexed. rewrite add_chunks_chunks. intros H.
  apply Forall_app. split; [exact H|].
  apply Forall_forall. intros c Hc. apply in_map_iff in Hc as (c0 & <- & _).
  apply embed_chunk_embedding.
Qed.

Lemma scores_indexed q cs acc :
  Forall (fun c => DocumentChunk.embedding c <> None) cs ->
  InMemoryVectorStore.scores q cs acc = Ok (acc ++ map (scored q) cs).
Proof.
  intros H. revert acc. induction H as [|c cs Hc _ IH]; intros acc; simpl.
  - now rewrite app_nil_r.
  - unfold InMemoryVectorStore.score, scored at 1.
    destruct (DocumentChunk.embedding c) as [e|]; [|congruence].
    rewrite IH, <- app_assoc. reflexivity.
Qed.

Lemma insert_by_score_perm x l : Permutation (insert_by_score x l) (x :: l).
Proof.
  induction l as [|y l IH]; simpl; [reflexivity|].
  destruct (Rlt_dec (snd x) (snd y)); [|reflexivity].
  rewrite IH. apply perm_swap.
Qed.

Lemma sort_by_score_perm l : Permutation (sort_by_score l) l.
Proof.
  induction l as [|x l IH]; simpl; [reflexivity|].
  rewrite insert_by_score_perm. now constructor.
Qed.

Lemma insert_by_score_sorted x l :
  StronglySorted score_ge l -> StronglySorted score_ge (insert_by_score x l).
Proof.
  induction 1 as [|y l Hl IH Hy]; simpl.
  - repeat constructor.
  - destruct (Rlt_dec (snd x) (snd y)) as [Hlt|Hge].
    + constructor; [exact IH|].
      apply Forall_forall. intros z Hz.
      apply (Permutation_in _ (insert_by_score_perm x l)) in Hz.
      destruct Hz as [<-|Hz].
      * unfold score_ge. lra.
      * revert z Hz. now apply Forall_forall.
    + constructor; [now constructor|].
      constructor; [unfold score_ge; lra|].
      eapply Forall_impl; [|exact Hy].
      unfold score_ge. intros z Hz. lra.
Qed.

Lemma sort_by_score_sorted l : StronglySorted score_ge (sort_by_score l).
Proof.
  induction l as [|x l IH]; simpl; [constructor|].
  now apply insert_by_score_sorted.
Qed.

Lemma sorted_app_inv (l1 l2 : list (DocumentChunk.t * R)) :
  StronglySorted score_ge (l1 ++ l2) ->
  StronglySorted score_ge l1 /\
  forall x y, In x l1 -> In y l2 -> score_ge x y.
Proof.
  induction l1 as [|a l1 IH]; simpl; intros H.
  - split; [constructor | contradiction].
  - apply StronglySorted_inv in H as [H Ha].
    destruct (IH H) as [H1 H2]. apply Forall_app in Ha as [Ha1 Ha2].
    split; [now constructor|].
    intros x y [<-|Hx] Hy; [|now apply H2].
    revert y Hy. now apply Forall_forall.
Qed.

Lemma firstn_best_of k (l : list (DocumentChunk.t * R)) :
  StronglySorted score_ge l -> best_of (firstn k l) l.
Proof.
  intros H. rewrite <- (firstn_skipn k l) in H.
  apply sorted_app_inv in H as [H1 H2].
  split; [exact H1|]. exists (skipn k l). split; [|exact H2].
  now rewrite firstn_skipn.
Qed.

(** What [search] comes to on a store whose chunks have their embeddings. *)
Lemma search_indexed (s : store) query top_k :
  indexed s -> (0 <= top_k)%Z ->
  search s query top_k =
  Ok (firstn (Z.to_nat top_k)
        (sort_by_score (map (scored (embed query)) (chunks s)))).
Proof.
  intros Hs Hk. unfold InMemoryVectorStore.search.
  destruct (chunks s) as [|c cs] eqn:E; [now rewrite firstn_nil|].
  rewrite scores_indexed by (rewrite <- E; exact Hs).
  unfold InMemoryVectorStore.slice_to.
  destruct (top_k <? 0)%Z eqn:Ek; [apply Z.ltb_lt in Ek; lia|].
  reflexivity.
Qed.

Lemma search_returns (s : store) query top_k :
  indexed s -> exists results, search s query top_k = Ok results.
Proof.
  intros Hs. unfold InMemoryVectorStore.search.
  destruct (chunks s) as [|c cs] eqn:E; [now eexists|].
  rewrite scores_indexed by (rewrite <- E; exact Hs). now eexists.
Qed.

End SearchFacts.

(** X4.  the store keeps its invariant.  An empty store has every chunk
    embedded; [add_chunks] appends the new chunks after the old ones, each with
    an embedding (its own when it has one, that of its text otherwise); and a
    search of a store filled in this way returns a list, for any query and any
    [top_k]: it never raises. *)
Theorem add_chunks_makes_searchable (embed : pystr -> list R)
  (s : InMemoryVectorStore.t) (cs : list DocumentChunk.t) (query : pystr)
  (top_k : Z) :
  indexed s ->
  let s' := InMemoryVectorStore.add_chunks embed s cs in
  InMemoryVectorStore.chunks s' =
    InMemoryVectorStore.chunks s
      ++ map (InMemoryVectorStore.embed_chunk embed) cs /\
  InMemoryVectorStore.index_built s' = true /\
  indexed s' /\
  exists results, InMemoryVectorStore.search embed s' query top_k = Ok results.
Proof.
  intros Hs s'. split; [apply add_chunks_chunks|].
  split; [reflexivity|].
  assert (H : indexed s') by now apply add_chunks_keeps_indexed.
  split; [exact H|]. now apply search_returns.
Qed.

(** X5.  [search] returns the [top_k] best chunks.  On a store whose chunks
    have their embeddings, and for [0 <= top_k], the result holds
    [min(top_k, len(chunks))] pairs of a chunk of the store and its similarity
    to the query, sorted by descending score, and no chunk left out scores
    more than a chunk returned. *)
Theorem search_returns_top_k (embed : pystr -> list R)
  (s : InMemoryVectorStore.t) (query : pystr) (top_k : Z) :
  indexed s -> (0 <= top_k)%Z ->
  exists results,
    InMemoryVectorStore.search embed s query top_k = Ok results /\
    length results =
      Nat.min (Z.to_nat top_k) (length (InMemoryVectorStore.chunks s)) /\
    best_of results
      (map (scored (embed query)) (InMemoryVectorStore.chunks s)).
Proof.
  intros Hs Hk. eexists. split; [now apply search_indexed|].
  set (all := map (scored (embed query)) (InMemoryVectorStore.chunks s)).
  split.
  - rewrite length_firstn.
    rewrite (Permutation_length (sort_by_score_perm all)).
    unfold all. now rewrite length_map.
  - destruct (firstn_best_of (Z.to_nat top_k) (sort_by_score_sorted all))
      as (H1 & rest & H2 & H3).
    split; [exact H1|]. exists rest. split; [|exact H3].
    rewrite H2. apply sort_by_score_perm.
Qed.

(** A store of one chunk, embedded. *)
Lemma search_returns_top_k_witness :
  let s :=
    InMemoryVectorStore.mk
      [DocumentChunk.mk 0 (lit "Khasra 42") 0 10 (Some 1%Z) (Some [1%R]) []]
      true in
  exists results,
    InMemoryVectorStore.search (fun _ => [1%R]) s (lit "Khasra") 5
      = Ok results /\
    length results = 1%nat /\
    best_of results
      (map (scored [1%R]) (InMemoryVectorStore.chunks s)).
Proof.
  intros s.
  apply (@search_returns_top_k (fun _ => [1%R]) s (lit "Khasra") 5).
  - repeat constructor. discriminate.
  - lia.
Defined.

Lemma add_chunks_makes_searchable_witness :
  exists results,
    InMemoryVectorStore.search Example.embed
      (InMemoryVectorStore.add_chunks Example.embed InMemoryVectorStore.init
         [DocumentChunk.mk 0 (lit "Khasra 42") 0 10 (Some 1%Z) None []])
      (lit "Khasra") 5 = Ok results.
Proof.
  apply (@add_chunks_makes_searchable Example.embed InMemoryVectorStore.init
           [DocumentChunk.mk 0 (lit "Khasra 42") 0 10 (Some 1%Z) None []]
           (lit "Khasra") 5).
  constructor.
Defined.

Section RetrieverFacts.
Variable embed : pystr -> list R.
Local Open Scope R_scope.

Local Abbreviation retrieve_similar :=
  (TranslationRetriever.retrieve_similar embed).

Lemma above_threshold_filter (l : list (DocumentChunk.t * R)) x :
  In x (filter
          (fun r => if Rlt_dec SIMILARITY_THRESHOLD (snd r) then true else false)
          l) <->
  In x l /\ SIMILARITY_THRESHOLD < snd x.
Proof.
  rewrite filter_In.
  destruct (Rlt_dec SIMILARITY_THRESHOLD (snd x)); intuition congruence.
Qed.

End RetrieverFacts.

(** X6.  [retrieve_similar] returns at most [top_k] chunks, each a chunk of
    the store whose similarity to the query is above the threshold 0.7. *)
Theorem retrieve_similar_above_threshold (embed : pystr -> list R)
  (s : InMemoryVectorStore.t) (query : pystr) (top_k : Z) :
  indexed s -> (0 <= top_k)%Z ->
  exists found,
    TranslationRetriever.retrieve_similar embed s query top_k = Ok found /\
    (Z.of_nat (length found) <= top_k)%Z /\
    forall c, In c found ->
      In c (InMemoryVectorStore.chunks s) /\
      (SIMILARITY_THRESHOLD < snd (scored (embed query) c))%R.
Proof.
  intros Hs Hk. unfold TranslationRetriever.retrieve_similar.
  rewrite search_indexed by assumption.
  set (all := map (scored (embed query)) (InMemoryVectorStore.chunks s)).
  set (top := firstn (Z.to_nat top_k) (InMemoryVectorStore.sort_by_score all)).
  eexists. split; [reflexivity|]. split.
  - rewrite length_map.
    pose proof (filter_length_le
                  (fun r => if Rlt_dec SIMILARITY_THRESHOLD (snd r)
                            then true else false) top) as H1.
    assert (H2 : (length top <= Z.to_nat top_k)%nat)
      by (unfold top; rewrite length_firstn; lia).
    lia.
  - intros c Hc. apply in_map_iff in Hc as (x & <- & Hx).
    apply above_threshold_filter in Hx as [Hx Hlt].
    apply In_firstn in Hx.
    apply (Permutation_in _ (sort_by_score_perm all)) in Hx.
    apply in_map_iff in Hx as (c0 & <- & Hc0).
    split; [exact Hc0 | exact Hlt].
Qed.

Lemma retrieve_similar_above_threshold_witness :
  let s :=
    InMemoryVectorStore.mk
      [DocumentChunk.mk 0 (lit "Khasra 42") 0 10 (Some 1%Z) (Some [1%R]) []]
      true in
  exists found,
    TranslationRetriever.retrieve_similar (fun _ => [1%R]) s (lit "Khasra") 3
      = Ok found /\
    (Z.of_nat (length found) <= 3)%Z /\
    forall c, In c found ->
      In c (InMemoryVectorStore.chunks s) /\
      (SIMILARITY_THRESHOLD < snd (scored [1%R] c))%R.
Proof.
  intros s.
  apply (@retrieve_similar_above_threshold (fun _ => [1%R]) s
           (lit "Khasra") 3).
  - repeat constructor. discriminate.
  - lia.
Defined.

(** ** The chunker, beyond the size of its chunks *)

Section Nonspace.

Lemma nonspace_app x y : nonspace (x ++ y) = nonspace x ++ nonspace y.
Proof. apply filter_app. Qed.

Lemma nonspace_rev x : nonspace (rev x) = rev (nonspace x).
Proof.
  unfold nonspace. induction x as [|c x IH]; [reflexivity|]. simpl.
  rewrite filter_app, IH. simpl. destruct (negb (isspace c)); simpl.
  - reflexivity.
  - now rewrite app_nil_r.
Qed.

Lemma nonspace_lstrip x : nonspace (lstrip x) = nonspace x.
Proof.
  induction x as [|c x IH]; [reflexivity|]. simpl.
  destruct (isspace c) eqn:E; simpl; [exact IH|]. now rewrite E.
Qed.

Lemma nonspace_strip x : nonspace (strip x) = nonspace x.
Proof.
  unfold strip, rstrip.
  now rewrite nonspace_rev, nonspace_lstrip, nonspace_rev, rev_involutive,
    nonspace_lstrip.
Qed.

Lemma nonspace_nil_iff x : nonspace x = [] <-> blank x = true.
Proof.
  unfold blank. induction x as [|c x IH]; simpl; [tauto|].
  destruct (isspace c); simpl; [exact IH|]. split; discriminate.
Qed.

Lemma blank_app x y : blank (x ++ y) = blank x && blank y.
Proof. apply forallb_app. Qed.

Lemma nonspace_concat_nil (l : list pystr) :
  nonspace (concat l) = [] <-> Forall (fun x => blank x = true) l.
Proof.
  induction l as [|x l IH]; simpl.
  - split; [constructor | reflexivity].
  - rewrite nonspace_app. split.
    + intros H. apply app_eq_nil in H as [H1 H2].
      constructor; [now apply nonspace_nil_iff | now apply IH].
    + intros H. apply Forall_cons_iff in H as [H1 H2].
      apply nonspace_nil_iff in H1. apply IH in H2. now rewrite H1, H2.
Qed.

End Nonspace.

Section PageMarkers.

Lemma span_digits_app s :
  fst (SmartChunker.span_digits s) ++ snd (SmartChunker.span_digits s) = s /\
  forallb isdigit (fst (SmartChunker.span_digits s)) = true.
Proof.
  induction s as [|c s [IH1 IH2]]; simpl; [auto|].
  destruct (isdigit c) eqn:E; [|auto].
  destruct (SmartChunker.span_digits s) as [ds rest]. simpl in *.
  rewrite IH1, E, IH2. auto.
Qed.

Lemma skipn_app_exact (A : Type) (p t : list A) : skipn (length p) (p ++ t) = t.
Proof. induction p; simpl; auto. Qed.

(** A match is a prefix of the text it is found in, and is written
    [--- Page <digits> ---]. *)
Lemma match_page_marker_prefix s m ds :
  SmartChunker.match_page_marker s = Some (m, ds) ->
  m = lit "--- Page " ++ ds ++ lit " ---" /\
  ds <> [] /\ forallb isdigit ds = true /\
  exists rest, s = m ++ rest.
Proof.
  unfold SmartChunker.match_page_marker.
  destruct (startswith (lit "--- Page ") s) eqn:E1; [|discriminate].
  apply startswith_iff in E1 as [t ->].
  change 9%nat with (length (lit "--- Page ")). rewrite skipn_app_exact.
  pose proof (span_digits_app t) as [Happ Hdig].
  destruct (SmartChunker.span_digits t) as [ds' rest]. simpl in Happ, Hdig.
  destruct ds' as [|d ds2]; [discriminate|].
  destruct (startswith (lit " ---") rest) eqn:E2; [|discriminate].
  intros H. injection H as <- <-.
  apply startswith_iff in E2 as [t' ->].
  split; [reflexivity|]. split; [discriminate|]. split; [exact Hdig|].
  exists t'. rewrite <- Happ. vm_compute (lit "--- Page "). cbn [app].
  now rewrite <- app_assoc.
Qed.

Lemma split_pages_concat skip cur s :
  (skip <= length s)%nat ->
  concat (SmartChunker.split_pages skip cur s) = rev cur ++ skipn skip s.
Proof.
  revert skip cur; induction s as [|c s IH]; intros skip cur Hk.
  - simpl in *. replace skip with 0%nat by lia. simpl.
    now rewrite app_nil_r.
  - destruct skip as [|k].
    + cbn [SmartChunker.split_pages skipn].
      destruct (SmartChunker.match_page_marker (c :: s)) as [[m ds]|] eqn:E.
      * destruct (match_page_marker_prefix _ E) as (Hm & _ & _ & rest & Hs).
        assert (Hlen : (1 <= length m)%nat).
        { rewrite Hm. rewrite length_app. vm_compute (length (lit "--- Page ")).
          lia. }
        assert (Hle : (length m <= length (c :: s))%nat).
        { rewrite Hs, length_app. lia. }
        cbn [concat]. rewrite IH by (simpl in Hle; lia).
        simpl rev. cbn [app].
        replace (skipn (length m - 1) s) with (skipn (length m) (c :: s))
          by (destruct (length m); [lia | simpl; now rewrite Nat.sub_0_r]).
        assert (Hsk : skipn (length m) (c :: s) = rest)
          by (rewrite Hs; apply skipn_app_exact).
        rewrite Hsk, Hs. reflexivity.
      * rewrite IH by lia. simpl. now rewrite <- app_assoc.
    + simpl. apply IH. simpl in Hk. lia.
Qed.

Lemma scan_part_full_text st p :
  SmartChunker.full_text (SmartChunker.scan_part st p) =
  SmartChunker.full_text st ++ (if is_text_part p then p else []).
Proof.
  unfold SmartChunker.scan_part, is_text_part.
  destruct (SmartChunker.match_page_marker p) as [x|].
  - destruct (SmartChunker.search_page_number p);
      cbn [SmartChunker.full_text]; now rewrite app_nil_r.
  - reflexivity.
Qed.

Lemma fold_left_appends (A : Type) (f : A -> pystr -> A) (proj : A -> pystr)
  (keep : pystr -> bool) :
  (forall st p, proj (f st p) = proj st ++ (if keep p then p else [])) ->
  forall parts st,
    proj (fold_left f parts st) = proj st ++ concat (filter keep parts).
Proof.
  intros Hf. induction parts as [|p parts IH]; intros st; simpl.
  - now rewrite app_nil_r.
  - rewrite IH, Hf. destruct (keep p); simpl.
    + now rewrite <- app_assoc.
    + now rewrite app_nil_r.
Qed.

Lemma scan_parts_full_text parts st :
  SmartChunker.full_text (fold_left SmartChunker.scan_part parts st) =
  SmartChunker.full_text st ++ concat (filter is_text_part parts).
Proof.
  exact (fold_left_appends SmartChunker.scan_part SmartChunker.full_text
           is_text_part scan_part_full_text parts st).
Qed.

Lemma blank_concat_filter (f : pystr -> bool) (l : list pystr) :
  blank (concat l) = true -> blank (concat (filter f l)) = true.
Proof.
  induction l as [|x l IH]; simpl; [auto|].
  rewrite blank_app, andb_true_iff. intros [H1 H2].
  destruct (f x); simpl; [|auto]. rewrite blank_app, H1. now apply IH.
Qed.

Lemma body_of_blank text : blank text = true -> blank (body text) = true.
Proof.
  intros H. unfold body, SmartChunker.scan_parts.
  rewrite scan_parts_full_text. simpl.
  apply blank_concat_filter.
  rewrite split_pages_concat by lia. exact H.
Qed.

End PageMarkers.

Section Sentences.

Lemma nonspace_skip_space x c y :
  isspace c = true -> nonspace (x ++ c :: y) = nonspace (x ++ y).
Proof.
  intros H. rewrite !nonspace_app. simpl. now rewrite H.
Qed.

Lemma split_at_sentence_ends_nonspace cur prev_end in_sep s :
  nonspace (concat (SmartChunker.split_at_sentence_ends cur prev_end in_sep s))
  = nonspace (rev cur ++ s).
Proof.
  revert cur prev_end in_sep; induction s as [|c s IH];
    intros cur prev_end in_sep; simpl.
  - now rewrite !app_nil_r.
  - destruct (isspace c) eqn:E.
    + rewrite nonspace_skip_space by exact E.
      destruct in_sep; [apply IH|].
      destruct prev_end.
      * simpl. rewrite nonspace_app, IH. simpl. now rewrite nonspace_app.
      * rewrite IH. simpl. rewrite <- app_assoc. simpl.
        now apply nonspace_skip_space.
    + rewrite IH. simpl. now rewrite <- app_assoc.
Qed.

Lemma nonspace_concat_stripped (l : list pystr) :
  nonspace (concat (map strip (filter (fun s => truthy (strip s)) l)))
  = nonspace (concat l).
Proof.
  induction l as [|x l IH]; [reflexivity|]. cbn [filter concat].
  rewrite nonspace_app, <- IH.
  destruct (truthy (strip x)) eqn:E; cbn [map concat].
  - now rewrite nonspace_app, nonspace_strip.
  - assert (Hx : nonspace x = []).
    { apply nonspace_nil_iff, strip_nil_iff.
      destruct (strip x); [reflexivity | discriminate]. }
    now rewrite Hx.
Qed.

Lemma split_into_sentences_nonspace text :
  nonspace (concat (SmartChunker._split_into_sentences text)) = nonspace text.
Proof.
  unfold SmartChunker._split_into_sentences.
  rewrite nonspace_concat_stripped, split_at_sentence_ends_nonspace.
  reflexivity.
Qed.

Lemma sentences_trimmed text s :
  In s (SmartChunker._split_into_sentences text) -> trimmed s.
Proof.
  intros H. apply split_into_sentences_stripped in H as (raw & -> & Hne).
  split; [exact Hne|]. split; [apply lstrip_strip | apply rstrip_strip].
Qed.

Lemma trimmed_not_blank s : trimmed s -> blank s = false.
Proof.
  intros (Hne & Hl & _). destruct (blank s) eqn:E; [|reflexivity].
  apply lstrip_nil_iff in E. congruence.
Qed.

Lemma split_into_sentences_nil_iff text :
  SmartChunker._split_into_sentences text = [] <-> blank text = true.
Proof.
  split; intros H.
  - apply nonspace_nil_iff. rewrite <- split_into_sentences_nonspace, H.
    reflexivity.
  - destruct (SmartChunker._split_into_sentences text) as [|s l] eqn:E;
      [reflexivity|]. exfalso.
    assert (Hs : trimmed s) by (apply (@sentences_trimmed text); rewrite E;
                                now left).
    apply trimmed_not_blank in Hs.
    apply nonspace_nil_iff in H.
    rewrite <- split_into_sentences_nonspace, E in H.
    apply nonspace_concat_nil in H. apply Forall_cons_iff in H as [H _].
    congruence.
Qed.

Lemma lstrip_inside a s b :
  s <> [] -> lstrip s = s -> lstrip (a ++ s ++ b) = lstrip a ++ s ++ b.
Proof.
  intros Hne Hs. rewrite lstrip_app.
  destruct (lstrip a); [|reflexivity].
  rewrite lstrip_app, Hs. destruct s; [congruence | reflexivity].
Qed.

Lemma inside_strip s x : trimmed s -> inside s x -> inside s (strip x).
Proof.
  intros (Hne & Hl & Hr) (a & b & ->).
  unfold strip. rewrite lstrip_inside by assumption.
  unfold rstrip. rewrite !rev_app_distr, <- app_assoc.
  assert (Hrev : lstrip (rev s) = rev s).
  { unfold rstrip in Hr. apply (f_equal (@rev N)) in Hr.
    now rewrite rev_involutive in Hr. }
  rewrite lstrip_inside; [| |exact Hrev].
  - rewrite !rev_app_distr, !rev_involutive, <- app_assoc.
    now exists (lstrip a), (rev (lstrip (rev b))).
  - intros H. apply (f_equal (@rev N)) in H. rewrite rev_involutive in H.
    now apply Hne.
Qed.

Lemma inside_blank s x : trimmed s -> inside s x -> blank x = false.
Proof.
  intros Hs (a & b & ->). rewrite !blank_app, (trimmed_not_blank Hs).
  now rewrite andb_false_r.
Qed.

End Sentences.

Section ChunkSequence.
Variables chunk_size overlap : Z.
Variable pp : list (Z * Z).

Local Abbreviation flush := (SmartChunker.flush pp).
Local Abbreviation add_sentence :=
  (SmartChunker.add_sentence chunk_size overlap pp).
Local Abbreviation chunks := SmartChunker.chunks.
Local Abbreviation buffer := SmartChunker.current_chunk.

Lemma last_some_cons (x : DocumentChunk.t) cs prev :
  last (map Some (x :: cs)) prev = last (map Some cs) (Some x).
Proof.
  revert x prev; induction cs as [|y cs IH]; intros x prev; [reflexivity|].
  change (last (map Some (x :: y :: cs)) prev)
    with (last (map Some (y :: cs)) prev).
  now rewrite (IH y prev), (IH y (Some x)).
Qed.

Lemma last_chunk_snoc cs c : last_chunk (cs ++ [c]) = Some c.
Proof. unfold last_chunk. rewrite map_app. apply last_last. Qed.

Lemma len_list_snoc (A : Type) (l : list A) x :
  len_list (l ++ [x]) = (len_list l + 1)%Z.
Proof. unfold len_list. rewrite length_app. simpl. lia. Qed.

Lemma in_sequence_snoc i prev cs c :
  in_sequence overlap i prev cs ->
  chunk_shape overlap (i + len_list cs) (last (map Some cs) prev) c ->
  in_sequence overlap i prev (cs ++ [c]).
Proof.
  revert i prev; induction cs as [|x cs IH]; intros i prev H Hc.
  - simpl in *. split; [|exact I].
    replace i with (i + len_list (@nil DocumentChunk.t))%Z
      by (unfold len_list; simpl; lia). exact Hc.
  - destruct H as [Hx H]. split; [exact Hx|]. apply IH; [exact H|].
    rewrite last_some_cons in Hc.
    replace (i + 1 + len_list cs)%Z with (i + len_list (x :: cs))%Z
      by (unfold len_list; simpl length; lia).
    exact Hc.
Qed.

Lemma in_sequence_nth i0 prev cs i c :
  in_sequence overlap i0 prev cs ->
  nth_error cs i = Some c ->
  chunk_shape overlap (i0 + Z.of_nat i)
    (match i with O => prev | S j => nth_error cs j end) c.
Proof.
  revert i0 prev i; induction cs as [|x cs IH]; intros i0 prev i H Hi.
  - destruct i; discriminate.
  - destruct H as [Hx H]. destruct i as [|i].
    + injection Hi as <-. now rewrite Z.add_0_r.
    + specialize (IH (i0 + 1)%Z (Some x) i H Hi).
      replace (i0 + Z.of_nat (S i))%Z with (i0 + 1 + Z.of_nat i)%Z by lia.
      destruct i; exact IH.
Qed.

Lemma buffer_longer_than_strip cur :
  (cur = [] \/ exists x, cur = x ++ SmartChunker.space) ->
  strip cur <> [] -> (len (strip cur) < len cur)%Z.
Proof.
  intros [->|[x ->]] Hne; [now elim Hne|].
  rewrite strip_app_space, len_app. pose proof (len_strip x).
  change (len SmartChunker.space) with 1%Z. lia.
Qed.

Lemma strip_strip s : strip (strip s) = strip s.
Proof. unfold strip at 1. rewrite lstrip_strip. apply rstrip_strip. Qed.

Lemma flush_sequence st :
  sequence_inv overlap st ->
  in_sequence overlap 0 None (chunks (flush st)) /\
  SmartChunker.chunk_id (flush st) = len_list (chunks (flush st)).
Proof.
  intros (Hseq & Hid & Hstart & Hbuf). unfold SmartChunker.flush.
  destruct (truthy (strip (buffer st))) eqn:E; [|now split].
  cbn [SmartChunker.chunks SmartChunker.chunk_id]. split.
  - apply in_sequence_snoc; [exact Hseq|].
    assert (Hne : strip (buffer st) <> [])
      by (destruct (strip (buffer st)); [discriminate | discriminate]).
    unfold chunk_shape, SmartChunker.make_chunk.
    cbn [DocumentChunk.id DocumentChunk.text DocumentChunk.page_number
         DocumentChunk.embedding DocumentChunk.start_pos
         DocumentChunk.end_pos].
    split; [lia|]. split; [exact Hne|]. split; [apply strip_strip|].
    split; [discriminate|]. split; [reflexivity|]. split; [exact Hstart|].
    pose proof (buffer_longer_than_strip Hbuf Hne). lia.
  - rewrite len_list_snoc. lia.
Qed.

Lemma add_sentence_sequence st s :
  sequence_inv overlap st -> sequence_inv overlap (add_sentence st s).
Proof.
  intros Hst. unfold SmartChunker.add_sentence.
  destruct (_ <=? _)%Z.
  - destruct Hst as (Hseq & Hid & Hstart & Hbuf).
    split; [exact Hseq|]. split; [exact Hid|]. split; [exact Hstart|].
    right. exists (buffer st ++ s). cbn [SmartChunker.current_chunk].
    now rewrite app_assoc.
  - destruct (flush_sequence Hst) as [Hseq Hid]. cbv zeta.
    unfold sequence_inv, last_chunk.
    destruct (last (map Some (chunks (flush st))) None) as [prev|] eqn:El.
    + destruct (0 <? overlap)%Z eqn:Eo;
        cbn [SmartChunker.chunks SmartChunker.chunk_id
             SmartChunker.current_start SmartChunker.current_chunk];
        rewrite El; unfold next_start; rewrite Eo;
        (split; [exact Hseq|]); (split; [exact Hid|]);
        (split; [reflexivity|]); right.
      * exists (suffix (Z.to_nat overlap) (DocumentChunk.text prev)
                  ++ SmartChunker.space ++ s).
        now rewrite <- !app_assoc.
      * now exists s.
    + cbn [SmartChunker.chunks SmartChunker.chunk_id
           SmartChunker.current_start SmartChunker.current_chunk].
      rewrite El.
      split; [exact Hseq|]. split; [exact Hid|]. split; [reflexivity|].
      right. now exists s.
Qed.

Lemma fold_add_sentence_sequence ss st :
  sequence_inv overlap st ->
  sequence_inv overlap (fold_left add_sentence ss st).
Proof.
  revert st; induction ss as [|s ss IH]; intros st H; [exact H|].
  simpl. apply IH. now apply add_sentence_sequence.
Qed.

Lemma chunk_sentences_sequence ss :
  in_sequence overlap 0 None
    (SmartChunker.chunk_sentences chunk_size overlap pp ss).
Proof.
  unfold SmartChunker.chunk_sentences.
  apply flush_sequence, fold_add_sentence_sequence.
  split; [exact I|]. split; [reflexivity|]. split; [reflexivity|]. now left.
Qed.

(** No sentence is dropped. *)

Lemma flush_held st s :
  trimmed s -> held s st ->
  Exists (fun c => inside s (DocumentChunk.text c)) (chunks (flush st)).
Proof.
  intros Hs [H|H]; unfold SmartChunker.flush.
  - destruct (truthy (strip (buffer st))); [|exact H].
    cbn [SmartChunker.chunks]. apply Exists_app. now left.
  - pose proof (inside_strip Hs H) as Hin.
    destruct (truthy (strip (buffer st))) eqn:E.
    + cbn [SmartChunker.chunks]. apply Exists_app. right.
      constructor. exact Hin.
    + exfalso. pose proof (inside_blank Hs H) as Hb.
      assert (Hnil : strip (buffer st) = [])
        by (destruct (strip (buffer st)); [reflexivity | discriminate]).
      apply strip_nil_iff in Hnil. congruence.
Qed.

Lemma add_sentence_held st s s' :
  trimmed s -> held s st -> held s (add_sentence st s').
Proof.
  intros Hs H. unfold SmartChunker.add_sentence.
  destruct (_ <=? _)%Z.
  - destruct H as [H|(a & b & H)]; [now left|]. right.
    cbn [SmartChunker.current_chunk]. rewrite H.
    exists a, (b ++ s' ++ SmartChunker.space). now rewrite <- !app_assoc.
  - left. pose proof (flush_held Hs H) as Hf. cbv zeta.
    destruct (last (map Some (chunks (flush st))) None);
      [destruct (0 <? overlap)%Z|]; exact Hf.
Qed.

Lemma add_sentence_holds st s : held s (add_sentence st s).
Proof.
  right. unfold SmartChunker.add_sentence.
  destruct (_ <=? _)%Z; cbv zeta.
  - exists (buffer st), SmartChunker.space. reflexivity.
  - destruct (last (map Some (chunks (flush st))) None) as [prev|];
      [destruct (0 <? overlap)%Z|]; cbn [SmartChunker.current_chunk].
    + exists (suffix (Z.to_nat overlap) (DocumentChunk.text prev)
                ++ SmartChunker.space), SmartChunker.space.
      now rewrite <- !app_assoc.
    + now exists [], SmartChunker.space.
    + now exists [], SmartChunker.space.
Qed.

Lemma fold_add_sentence_held ss st s :
  trimmed s -> held s st -> held s (fold_left add_sentence ss st).
Proof.
  intros Hs. revert st; induction ss as [|x ss IH]; intros st H; [exact H|].
  simpl. apply IH. now apply add_sentence_held.
Qed.

Lemma fold_add_sentence_holds ss st s :
  trimmed s -> In s ss -> held s (fold_left add_sentence ss st).
Proof.
  intros Hs. revert st; induction ss as [|x ss IH]; intros st Hin;
    [destruct Hin|].
  simpl. destruct Hin as [->|Hin].
  - apply fold_add_sentence_held; [exact Hs | apply add_sentence_holds].
  - now apply IH.
Qed.

Lemma chunk_sentences_hold ss s :
  trimmed s -> In s ss ->
  Exists (fun c => inside s (DocumentChunk.text c))
    (SmartChunker.chunk_sentences chunk_size overlap pp ss).
Proof.
  intros Hs Hin. unfold SmartChunker.chunk_sentences.
  apply flush_held; [exact Hs|]. now apply fold_add_sentence_holds.
Qed.

(** Without overlap, nothing is repeated either. *)

Lemma nonspace_space : nonspace SmartChunker.space = [].
Proof. reflexivity. Qed.

Lemma flush_contents st :
  nonspace (concat (map DocumentChunk.text (chunks (flush st))))
  = nonspace (contents st).
Proof.
  unfold contents, SmartChunker.flush. rewrite nonspace_app.
  destruct (truthy (strip (buffer st))) eqn:E.
  - cbn [SmartChunker.chunks]. rewrite map_app, concat_app, nonspace_app.
    cbn [map concat DocumentChunk.text SmartChunker.make_chunk].
    now rewrite app_nil_r, nonspace_strip.
  - assert (Hb : nonspace (buffer st) = []).
    { apply nonspace_nil_iff, strip_nil_iff.
      destruct (strip (buffer st)); [reflexivity | discriminate]. }
    now rewrite Hb, app_nil_r.
Qed.

Lemma add_sentence_contents st s :
  (overlap <= 0)%Z ->
  nonspace (contents (add_sentence st s)) = nonspace (contents st) ++ nonspace s.
Proof.
  intros Hov. unfold SmartChunker.add_sentence.
  destruct (_ <=? _)%Z.
  - unfold contents. cbn [SmartChunker.chunks SmartChunker.current_chunk].
    rewrite !nonspace_app, nonspace_space, app_nil_r, app_assoc. reflexivity.
  - cbv zeta. rewrite <- (flush_contents st).
    assert (Eo : (0 <? overlap)%Z = false) by (apply Z.ltb_ge; lia).
    rewrite Eo.
    destruct (last (map Some (chunks (flush st))) None);
      unfold contents; cbn [SmartChunker.chunks SmartChunker.current_chunk];
      rewrite !nonspace_app, nonspace_space, app_nil_r; reflexivity.
Qed.

Lemma fold_add_sentence_contents ss st :
  (overlap <= 0)%Z ->
  nonspace (contents (fold_left add_sentence ss st))
  = nonspace (contents st) ++ nonspace (concat ss).
Proof.
  intros Hov. revert st; induction ss as [|s ss IH]; intros st; simpl.
  - now rewrite app_nil_r.
  - rewrite IH, add_sentence_contents by exact Hov.
    now rewrite nonspace_app, app_assoc.
Qed.

Lemma chunk_sentences_contents ss :
  (overlap <= 0)%Z ->
  nonspace
    (concat (map DocumentChunk.text
               (SmartChunker.chunk_sentences chunk_size overlap pp ss)))
  = nonspace (concat ss).
Proof.
  intros Hov. unfold SmartChunker.chunk_sentences.
  rewrite flush_contents, fold_add_sentence_contents by exact Hov.
  reflexivity.
Qed.

End ChunkSequence.

Section PageNumbers.

Lemma page_at_In pp start :
  SmartChunker.page_at pp start = 1%Z \/
  In (SmartChunker.page_at pp start) (map snd pp).
Proof.
  unfold SmartChunker.page_at.
  assert (H : forall a,
    fold_left
      (fun page_num '(pos, page) =>
         if (pos <=? start)%Z then page else page_num) pp a = a \/
    In (fold_left
          (fun page_num '(pos, page) =>
             if (pos <=? start)%Z then page else page_num) pp a)
       (map snd pp)).
  { induction pp as [|[pos page] pp IH]; intros a; [now left|].
    cbn [fold_left map snd].
    destruct (IH (if (pos <=? start)%Z then page else a)) as [H|H].
    - rewrite H. destruct (pos <=? start)%Z; [right; now left | now left].
    - right. now right. }
  apply H.
Qed.

Lemma dict_set_values k v d x :
  In x (map snd (SmartChunker.dict_set k v d)) -> x = v \/ In x (map snd d).
Proof.
  induction d as [|[k' v'] d IH]; simpl.
  - intros [<-|[]]. now left.
  - destruct (k =? k')%Z; simpl.
    + intros [<-|H]; [now left | right; now right].
    + intros [<-|H]; [right; now left|].
      destruct (IH H) as [->|H']; [now left | right; now right].
Qed.

Lemma span_digits_stop ds c r :
  forallb isdigit ds = true -> isdigit c = false ->
  SmartChunker.span_digits (ds ++ c :: r) = (ds, c :: r).
Proof.
  intros Hd Hc. induction ds as [|d ds IH]; simpl.
  - now rewrite Hc.
  - simpl in Hd. apply andb_true_iff in Hd as [H1 H2].
    rewrite H1, (IH H2). reflexivity.
Qed.

(** In a part that starts with a page marker, the first [Page <digits>] is
    the number of the marker. *)
Lemma search_page_number_marker part m ds :
  SmartChunker.match_page_marker part = Some (m, ds) ->
  SmartChunker.search_page_number part = Some ds.
Proof.
  intros H.
  destruct (match_page_marker_prefix _ H) as (-> & Hne & Hd & rest & ->).
  vm_compute (lit "--- Page "). vm_compute (lit " ---").
  rewrite <- !app_assoc. cbn [app].
  unfold SmartChunker.search_page_number.
  vm_compute (lit "Page ").
  cbn [startswith N.eqb Pos.eqb andb].
  fold SmartChunker.search_page_number.
  cbn [skipn].
  rewrite span_digits_stop by (exact Hd || reflexivity).
  cbn [fst]. destruct ds; [congruence | reflexivity].
Qed.

Lemma parts_inside text part :
  In part (SmartChunker.split_pages 0 [] text) -> inside part text.
Proof.
  intros H. apply in_split in H as (l1 & l2 & H).
  pose proof (@split_pages_concat 0%nat [] text ltac:(lia)) as Hc.
  rewrite H in Hc. rewrite concat_app in Hc. cbn [concat rev app skipn] in Hc.
  exists (concat l1), (concat l2). now rewrite <- Hc.
Qed.

Lemma inside_prefix x rest text : inside (x ++ rest) text -> inside x text.
Proof.
  intros (a & b & ->). exists a, (rest ++ b). now rewrite <- app_assoc.
Qed.

Lemma scan_part_pages text st part :
  inside part text ->
  marked_page text (SmartChunker.current_page st) ->
  Forall (marked_page text) (map snd (SmartChunker.page_positions st)) ->
  marked_page text (SmartChunker.current_page (SmartChunker.scan_part st part))
  /\
  Forall (marked_page text)
    (map snd (SmartChunker.page_positions (SmartChunker.scan_part st part))).
Proof.
  intros Hin Hc Hp. unfold SmartChunker.scan_part.
  destruct (SmartChunker.match_page_marker part) as [[m ds]|] eqn:E.
  - rewrite (search_page_number_marker _ E).
    cbn [SmartChunker.current_page SmartChunker.page_positions].
    split; [|exact Hp]. right.
    destruct (match_page_marker_prefix _ E) as (Hm & Hne & Hd & rest & Hpart).
    exists ds. split; [exact Hne|]. split; [exact Hd|]. split; [|reflexivity].
    rewrite <- Hm. apply inside_prefix with rest. now rewrite <- Hpart.
  - cbn [SmartChunker.current_page SmartChunker.page_positions].
    split; [exact Hc|]. apply Forall_forall. intros x Hx.
    apply dict_set_values in Hx as [->|Hx]; [exact Hc|].
    revert x Hx. now apply Forall_forall.
Qed.

Lemma scan_parts_pages text parts :
  forall st,
    (forall part, In part parts -> inside part text) ->
    marked_page text (SmartChunker.current_page st) ->
    Forall (marked_page text) (map snd (SmartChunker.page_positions st)) ->
    Forall (marked_page text)
      (map snd (SmartChunker.page_positions
                  (fold_left SmartChunker.scan_part parts st))).
Proof.
  induction parts as [|part parts IH]; intros st Hin Hc Hp; [exact Hp|].
  cbn [fold_left].
  destruct (@scan_part_pages text st part (Hin _ (or_introl eq_refl)) Hc Hp)
    as [Hc' Hp'].
  apply IH; auto. intros x Hx. apply Hin. now right.
Qed.

Lemma document_pages text :
  Forall (marked_page text)
    (map snd (SmartChunker.page_positions
                (SmartChunker.scan_parts (SmartChunker.split_pages 0 [] text)))).
Proof.
  unfold SmartChunker.scan_parts. apply scan_parts_pages.
  - apply parts_inside.
  - now left.
  - constructor.
Qed.

Section Chunking.
Variables chunk_size overlap : Z.
Variable pp : list (Z * Z).

Local Abbreviation paged :=
  (fun c : DocumentChunk.t =>
     exists s, DocumentChunk.page_number c = Some (SmartChunker.page_at pp s)).

Lemma flush_paged st :
  Forall paged (SmartChunker.chunks st) ->
  Forall paged (SmartChunker.chunks (SmartChunker.flush pp st)).
Proof.
  intros H. unfold SmartChunker.flush.
  destruct (truthy (strip (SmartChunker.current_chunk st))); [|exact H].
  cbn [SmartChunker.chunks]. apply Forall_app. split; [exact H|].
  constructor; [|constructor]. now eexists.
Qed.

Lemma add_sentence_paged st s :
  Forall paged (SmartChunker.chunks st) ->
  Forall paged
    (SmartChunker.chunks (SmartChunker.add_sentence chunk_size overlap pp st s)).
Proof.
  intros H. unfold SmartChunker.add_sentence.
  destruct (_ <=? _)%Z; [exact H|]. cbv zeta.
  pose proof (flush_paged st H) as Hf.
  destruct (last (map Some (SmartChunker.chunks (SmartChunker.flush pp st)))
              None); [destruct (0 <? overlap)%Z|]; exact Hf.
Qed.

Lemma chunk_sentences_paged ss :
  Forall paged (SmartChunker.chunk_sentences chunk_size overlap pp ss).
Proof.
  unfold SmartChunker.chunk_sentences. apply flush_paged.
  assert (H : forall st,
    Forall paged (SmartChunker.chunks st) ->
    Forall paged
      (SmartChunker.chunks
         (fold_left (SmartChunker.add_sentence chunk_size overlap pp) ss st))).
  { induction ss as [|s ss IH]; intros st H; [exact H|].
    cbn [fold_left]. apply IH. now apply add_sentence_paged. }
  apply H. constructor.
Qed.

End Chunking.

Lemma chunk_document_pages text chunk_size overlap c :
  In c (SmartChunker.chunk_document text chunk_size overlap) ->
  exists n, DocumentChunk.page_number c = Some n /\ marked_page text n.
Proof.
  unfold SmartChunker.chunk_document.
  destruct (_ || _); [intros []|]. cbv zeta. intros H.
  pose proof (chunk_sentences_paged chunk_size overlap
                (SmartChunker.page_positions
                   (SmartChunker.scan_parts
                      (SmartChunker.split_pages 0 [] text)))
                (SmartChunker._split_into_sentences
                   (SmartChunker.full_text
                      (SmartChunker.scan_parts
                         (SmartChunker.split_pages 0 [] text))))) as Hp.
  rewrite Forall_forall in Hp. destruct (Hp c H) as [s Hs].
  eexists. split; [exact Hs|].
  destruct (page_at_In
              (SmartChunker.page_positions
                 (SmartChunker.scan_parts (SmartChunker.split_pages 0 [] text)))
              s) as [->|Hin]; [now left|].
  pose proof (document_pages text) as Hd. rewrite Forall_forall in Hd.
  now apply Hd.
Qed.

End PageNumbers.

Section ChunkDocument.
Variable text : pystr.
Variables chunk_size overlap : Z.

Local Abbreviation chunk_document :=
  (SmartChunker.chunk_document text chunk_size overlap).

(** When the guard of [chunk_document] returns early, the document has no
    sentence either. *)
Lemma guard_blank :
  negb (truthy text) || negb (truthy (strip text)) = true ->
  blank text = true.
Proof.
  intros H. apply strip_nil_iff. destruct text as [|c t] eqn:E; [reflexivity|].
  simpl negb in H. rewrite orb_false_l in H.
  destruct (strip (c :: t)); [reflexivity | discriminate].
Qed.

Lemma blank_guard :
  blank text = true ->
  negb (truthy text) || negb (truthy (strip text)) = true.
Proof.
  intros H. apply strip_nil_iff in H. rewrite H. apply orb_true_r.
Qed.

Lemma sentences_of_blank :
  blank text = true -> SmartChunker.document_sentences text = [].
Proof.
  intros H. apply split_into_sentences_nil_iff. now apply body_of_blank.
Qed.

Lemma chunk_document_sentences :
  chunk_document =
  SmartChunker.chunk_sentences chunk_size overlap
    (SmartChunker.page_positions
       (SmartChunker.scan_parts (SmartChunker.split_pages 0 [] text)))
    (SmartChunker.document_sentences text).
Proof.
  unfold SmartChunker.chunk_document.
  destruct (negb (truthy text) || negb (truthy (strip text))) eqn:E;
    [|reflexivity].
  rewrite (sentences_of_blank (guard_blank E)). reflexivity.
Qed.

Lemma chunk_document_sequence : in_sequence overlap 0 None chunk_document.
Proof. rewrite chunk_document_sentences. apply chunk_sentences_sequence. Qed.

Lemma chunk_document_holds s :
  In s (SmartChunker.document_sentences text) ->
  Exists (fun c => inside s (DocumentChunk.text c)) chunk_document.
Proof.
  intros H. rewrite chunk_document_sentences.
  apply chunk_sentences_hold; [|exact H].
  exact (@sentences_trimmed _ s H).
Qed.

End ChunkDocument.

(** ** The size of the chunks *)

Section LongSentence.
Variables chunk_size overlap : Z.
Variable pp : list (Z * Z).
Variable s : pystr.
Hypothesis Hne : s <> [].
Hypothesis Hstrip : strip s = s.
Hypothesis Hlong : (chunk_size < len s)%Z.

Local Abbreviation bound := (Z.max 0 overlap + 1)%Z.
Local Abbreviation kept := (long_kept bound s).

Lemma flush_long_kept st :
  kept st ->
  Exists (own_chunk bound s) (SmartChunker.chunks (SmartChunker.flush pp st)).
Proof.
  intros [H|(seed & Hseed & Hcur)]; unfold SmartChunker.flush.
  - destruct (truthy _); [|exact H]. cbn [SmartChunker.chunks].
    apply Exists_app. now left.
  - assert (Hs : strip (SmartChunker.current_chunk st) = lstrip seed ++ s).
    { rewrite Hcur, app_assoc, strip_app_space. rewrite <- Hstrip.
      apply strip_seed_sentence. now rewrite Hstrip. }
    rewrite Hs.
    assert (Ht : truthy (lstrip seed ++ s) = true).
    { destruct (lstrip seed); [|reflexivity]. simpl.
      destruct s; [congruence | reflexivity]. }
    rewrite Ht. cbn [SmartChunker.chunks]. apply Exists_app. right.
    constructor. exists (lstrip seed). split.
    + pose proof (length_lstrip seed). unfold len in *. lia.
    + cbn [SmartChunker.make_chunk DocumentChunk.text]. exact Hs.
Qed.

Lemma add_sentence_long_kept st x :
  kept st -> kept (SmartChunker.add_sentence chunk_size overlap pp st x).
Proof.
  intros H. unfold SmartChunker.add_sentence.
  destruct (_ <=? _)%Z eqn:E.
  - destruct H as [H|(seed & Hseed & Hcur)]; [now left|].
    exfalso. apply Z.leb_le in E. rewrite Hcur, !len_app in E.
    unfold len in *. lia.
  - left. apply flush_long_kept in H.
    destruct (last (map Some (SmartChunker.chunks (SmartChunker.flush pp st)))
                None); [destruct (0 <? overlap)%Z|]; exact H.
Qed.

Lemma add_long_sentence st :
  kept (SmartChunker.add_sentence chunk_size overlap pp st s).
Proof.
  unfold SmartChunker.add_sentence.
  assert (E : (len (SmartChunker.current_chunk st) + len s <=? chunk_size)%Z
              = false).
  { apply Z.leb_gt. unfold len in *. lia. }
  rewrite E. right.
  destruct (last (map Some (SmartChunker.chunks (SmartChunker.flush pp st)))
              None) as [prev|]; [destruct (0 <? overlap)%Z eqn:Eo|];
    cbn [SmartChunker.current_chunk].
  - exists (suffix (Z.to_nat overlap) (DocumentChunk.text prev)
            ++ SmartChunker.space).
    split; [|now rewrite <- app_assoc].
    rewrite len_app.
    pose proof (len_suffix (Z.to_nat overlap) (DocumentChunk.text prev)) as Hl.
    apply Z.ltb_lt in Eo. rewrite Z2Nat.id in Hl by lia.
    change (len SmartChunker.space) with 1%Z.
    lia.
  - exists []. split; [change (len []) with 0%Z; lia | reflexivity].
  - exists []. split; [change (len []) with 0%Z; lia | reflexivity].
Qed.

Lemma fold_long_kept ss :
  forall st,
    kept st ->
    kept (fold_left (SmartChunker.add_sentence chunk_size overlap pp) ss st).
Proof.
  induction ss as [|x ss IH]; intros st H; [exact H|].
  cbn [fold_left]. apply IH. now apply add_sentence_long_kept.
Qed.

Lemma chunk_sentences_long ss :
  In s ss ->
  Exists (own_chunk bound s)
    (SmartChunker.chunk_sentences chunk_size overlap pp ss).
Proof.
  intros Hin. unfold SmartChunker.chunk_sentences. apply flush_long_kept.
  generalize (SmartChunker.mk_state [] [] 0 0).
  induction ss as [|x ss IH]; intros st; [destruct Hin|].
  cbn [fold_left]. destruct Hin as [->|Hin].
  - apply fold_long_kept. apply add_long_sentence.
  - now apply IH.
Qed.

End LongSentence.




(** ** The chunks of a document *)

(** X8.  the chunks are numbered and well formed.  For a document whose
    page markers read as the model reads them ([plain_numbers]), the chunk at
    position [i] of the list has the id [i]; its text is not empty and has no
    whitespace at either end; its page number is 1 or the number written in
    a page marker of the document; it has no embedding yet. *)
Theorem chunks_numbered_and_trimmed (text : pystr) (chunk_size overlap : Z)
  (i : nat) (c : DocumentChunk.t) :
  plain_numbers text = true ->
  nth_error (SmartChunker.chunk_document text chunk_size overlap) i = Some c ->
  DocumentChunk.id c = Z.of_nat i /\
  DocumentChunk.text c <> [] /\
  strip (DocumentChunk.text c) = DocumentChunk.text c /\
  (exists n, DocumentChunk.page_number c = Some n /\ marked_page text n) /\
  DocumentChunk.embedding c = None.
Proof.
  intros _ H.
  destruct (@in_sequence_nth overlap 0 None _ i c
              (chunk_document_sequence text chunk_size overlap) H)
    as (H1 & H2 & H3 & _ & H5 & _).
  rewrite Z.add_0_l in H1.
  split; [exact H1|]. split; [exact H2|]. split; [exact H3|].
  split; [|exact H5].
  apply chunk_document_pages with chunk_size overlap.
  now apply nth_error_In with i.
Qed.

Lemma chunks_numbered_and_trimmed_witness :
  let text := lit "--- Page 2 ---Khasra 42. Owner Ali." in
  let c := DocumentChunk.mk 1 (lit "42. Owner Ali.") 8 23 (Some 2%Z) None [] in
  plain_numbers text = true /\
  DocumentChunk.id c = 1%Z /\
  DocumentChunk.text c <> [] /\
  strip (DocumentChunk.text c) = DocumentChunk.text c /\
  (exists n, DocumentChunk.page_number c = Some n /\ marked_page text n) /\
  DocumentChunk.embedding c = None.
Proof.
  intros text c. split; [vm_compute; reflexivity|].
  apply (@chunks_numbered_and_trimmed text 10 3 1 c).
  - vm_compute. reflexivity.
  - vm_compute. reflexivity.
Defined.

(** X9.  the positions of the chunks are chained.  The first chunk starts at
    0; every other chunk starts [overlap] characters before the end of the
    chunk before it when [overlap > 0], and at its end otherwise; and the
    span [end_pos - start_pos] of a chunk is greater than the length of its
    text (the buffer it was cut from ends with a space). *)
Theorem chunk_positions_chained (text : pystr) (chunk_size overlap : Z)
  (i : nat) (c : DocumentChunk.t) :
  let chunks := SmartChunker.chunk_document text chunk_size overlap in
  nth_error chunks i = Some c ->
  DocumentChunk.start_pos c =
    next_start overlap
      (match i with O => None | S j => nth_error chunks j end) /\
  (DocumentChunk.start_pos c + len (DocumentChunk.text c)
   < DocumentChunk.end_pos c)%Z.
Proof.
  intros chunks H.
  destruct (@in_sequence_nth overlap 0 None _ i c
              (chunk_document_sequence text chunk_size overlap) H)
    as (_ & _ & _ & _ & _ & H6 & H7).
  auto.
Qed.

Lemma chunk_positions_chained_witness :
  let chunks :=
    SmartChunker.chunk_document (lit "Khasra 42. Owner Ali.") 10 3 in
  let c := DocumentChunk.mk 1 (lit "42. Owner Ali.") 8 23 (Some 1%Z) None [] in
  DocumentChunk.start_pos c = next_start 3 (nth_error chunks 0) /\
  (DocumentChunk.start_pos c + len (DocumentChunk.text c)
   < DocumentChunk.end_pos c)%Z.
Proof.
  intros chunks c.
  apply (@chunk_positions_chained (lit "Khasra 42. Owner Ali.") 10 3 1 c).
  vm_compute. reflexivity.
Defined.

(** X10.  no sentence is lost.  For a document whose page markers read as
    the model reads them ([plain_numbers]), every sentence of the document
    stands whole in the text of some chunk, whatever [chunk_size] and
    [overlap]. *)
Theorem every_sentence_in_a_chunk (text : pystr) (chunk_size overlap : Z)
  (s : pystr) :
  plain_numbers text = true ->
  In s (SmartChunker.document_sentences text) ->
  exists c,
    In c (SmartChunker.chunk_document text chunk_size overlap) /\
    inside s (DocumentChunk.text c).
Proof.
  intros _ H. apply Exists_exists. now apply chunk_document_holds.
Qed.

(** A document with a page marker between its two sentences. *)
Lemma every_sentence_in_a_chunk_witness :
  let text := lit "Khasra 42. --- Page 2 ---Owner Ali." in
  plain_numbers text = true /\
  SmartChunker.document_sentences text =
    [lit "Khasra 42."; lit "Owner Ali."] /\
  exists c,
    In c (SmartChunker.chunk_document text 10 3) /\
    inside (lit "Owner Ali.") (DocumentChunk.text c).
Proof.
  intros text.
  split; [vm_compute; reflexivity|]. split; [vm_compute; reflexivity|].
  apply (@every_sentence_in_a_chunk text 10 3 (lit "Owner Ali.")).
  - vm_compute. reflexivity.
  - vm_compute. right. left. reflexivity.
Defined.

(** X11.  for a document whose page markers read as the model reads them
    ([plain_numbers]), [chunk_document] returns no chunk exactly when the
    document, its page markers taken out, is empty or made of whitespace
    only; so does a document that is blank itself, and one made of page
    markers only. *)
Theorem no_chunk_iff_blank_body (text : pystr) (chunk_size overlap : Z) :
  plain_numbers text = true ->
  (SmartChunker.chunk_document text chunk_size overlap = [] <->
   blank (body text) = true) /\
  (blank text = true -> blank (body text) = true).
Proof.
  intros _. split; [|apply body_of_blank]. split.
  - intros H.
    apply split_into_sentences_nil_iff.
    change (SmartChunker._split_into_sentences (body text))
      with (SmartChunker.document_sentences text).
    destruct (SmartChunker.document_sentences text) as [|s l] eqn:E;
      [reflexivity|]. exfalso.
    assert (Hs : In s (SmartChunker.document_sentences text))
      by (rewrite E; now left).
    apply (chunk_document_holds text chunk_size overlap) in Hs.
    rewrite H in Hs. inversion Hs.
  - intros H. rewrite chunk_document_sentences.
    apply split_into_sentences_nil_iff in H.
    change (SmartChunker._split_into_sentences (body text))
      with (SmartChunker.document_sentences text) in H.
    rewrite H. reflexivity.
Qed.

(** A document made of two page markers and a space. *)
Lemma no_chunk_iff_blank_body_witness :
  let text := lit "--- Page 1 --- --- Page 2 ---" in
  plain_numbers text = true /\
  body text = lit " " /\
  SmartChunker.chunk_document text 10 3 = [].
Proof.
  intros text.
  split; [vm_compute; reflexivity|]. split; [vm_compute; reflexivity|].
  apply (proj1 (@no_chunk_iff_blank_body text 10 3
                  ltac:(vm_compute; reflexivity))).
  vm_compute. reflexivity.
Defined.

(** X12.  splitting into sentences drops whitespace only.  The sentences of a
    text, put end to end, have the characters of the text that are not
    whitespace, in the same order; and every sentence is trimmed and not
    empty. *)
Theorem sentences_keep_the_characters (text : pystr) :
  nonspace (concat (SmartChunker._split_into_sentences text)) = nonspace text
  /\
  forall s, In s (SmartChunker._split_into_sentences text) ->
            s <> [] /\ strip s = s.
Proof.
  split; [apply split_into_sentences_nonspace|].
  intros s H. apply split_into_sentences_stripped in H as (raw & -> & Hne).
  split; [exact Hne | apply strip_strip].
Qed.

(** X13.  without overlap the chunks partition the document.  For a document
    whose page markers read as the model reads them ([plain_numbers]) and
    [overlap <= 0], the texts of the chunks, put end to end, have exactly the
    characters of the document (page markers taken out) that are not
    whitespace, each once and in their order. *)
Theorem chunks_partition_without_overlap (text : pystr)
  (chunk_size overlap : Z) :
  plain_numbers text = true ->
  (overlap <= 0)%Z ->
  nonspace
    (concat (map DocumentChunk.text
               (SmartChunker.chunk_document text chunk_size overlap)))
  = nonspace (body text).
Proof.
  intros _ Hov. rewrite chunk_document_sentences.
  rewrite chunk_sentences_contents by exact Hov.
  apply split_into_sentences_nonspace.
Qed.

(** A document with a page marker between its two sentences, without
    overlap: two chunks, and the marker in neither. *)
Lemma chunks_partition_without_overlap_witness :
  let text := lit "Khasra 42. --- Page 2 ---Owner Ali." in
  plain_numbers text = true /\
  map DocumentChunk.text (SmartChunker.chunk_document text 10 0) =
    [lit "Khasra 42."; lit "Owner Ali."] /\
  nonspace
    (concat (map DocumentChunk.text (SmartChunker.chunk_document text 10 0)))
  = nonspace (body text).
Proof.
  intros text.
  split; [vm_compute; reflexivity|]. split; [vm_compute; reflexivity|].
  apply (@chunks_partition_without_overlap text 10 0).
  - vm_compute. reflexivity.
  - lia.
Defined.

(** X14.  the split at the page markers loses nothing.  For a document whose
    page markers read as the model reads them ([plain_numbers]), the parts
    that [re.split] returns, markers included, put end to end are the text;
    the text that is chunked is made of the parts that are not markers, so it
    is never longer than the document. *)
Theorem split_pages_round_trip (text : pystr) :
  plain_numbers text = true ->
  let parts := SmartChunker.split_pages 0 [] text in
  concat parts = text /\
  body text = concat (filter is_text_part parts) /\
  (len (body text) <= len text)%Z.
Proof.
  intros _ parts.
  assert (H1 : concat parts = text).
  { unfold parts. rewrite split_pages_concat by lia. reflexivity. }
  assert (H2 : body text = concat (filter is_text_part parts)).
  { unfold body, SmartChunker.scan_parts. rewrite scan_parts_full_text.
    reflexivity. }
  split; [exact H1|]. split; [exact H2|].
  rewrite H2. clear H2. clearbody parts. subst text.
  unfold len. apply inj_le.
  induction parts as [|x l IH]; simpl; [lia|].
  destruct (is_text_part x); simpl; rewrite !length_app; lia.
Qed.

(** A document with a page marker between its two sentences. *)
Lemma split_pages_round_trip_witness :
  let text := lit "Khasra 42. --- Page 2 ---Owner Ali." in
  let parts := SmartChunker.split_pages 0 [] text in
  plain_numbers text = true /\
  parts = [lit "Khasra 42. "; lit "--- Page 2 ---"; lit "Owner Ali."] /\
  concat parts = text /\
  body text = concat (filter is_text_part parts) /\
  (len (body text) <= len text)%Z.
Proof.
  intros text parts.
  split; [vm_compute; reflexivity|]. split; [vm_compute; reflexivity|].
  apply (@split_pages_round_trip text). vm_compute. reflexivity.
Defined.

Section Context.

Lemma find_by_id overlap i0 prev cs (k : nat) :
  in_sequence overlap i0 prev cs ->
  find (fun x => (DocumentChunk.id x =? i0 + Z.of_nat k)%Z) cs
  = nth_error cs k.
Proof.
  revert i0 prev k; induction cs as [|x cs IH]; intros i0 prev k H.
  - now destruct k.
  - destruct H as [(Hid & _) H]. cbn [find]. destruct k as [|k].
    + rewrite Hid, Z.add_0_r, Z.eqb_refl. reflexivity.
    + assert (E : (DocumentChunk.id x =? i0 + Z.of_nat (S k))%Z = false)
        by (apply Z.eqb_neq; lia).
      rewrite E. cbn [nth_error].
      replace (i0 + Z.of_nat (S k))%Z with (i0 + 1 + Z.of_nat k)%Z by lia.
      exact (IH (i0 + 1)%Z (Some x) k H).
Qed.

End Context.

(** X15.  the translation context of a chunk of a document.  For the first
    chunk of [chunk_document] it is the text of the chunk; for every other
    chunk it is the last 100 characters of the chunk before it, a space, and
    the text of the chunk. *)
Theorem context_of_document_chunk (text : pystr) (chunk_size overlap : Z)
  (i : nat) (c : DocumentChunk.t) :
  let chunks := SmartChunker.chunk_document text chunk_size overlap in
  nth_error chunks i = Some c ->
  match i with
  | O =>
      TranslationRetriever.get_translation_context c chunks
      = DocumentChunk.text c
  | S j =>
      exists prev,
        nth_error chunks j = Some prev /\
        TranslationRetriever.get_translation_context c chunks
        = suffix 100 (DocumentChunk.text prev) ++ lit " "
            ++ DocumentChunk.text c
  end.
Proof.
  intros chunks H.
  pose proof (chunk_document_sequence text chunk_size overlap) as Hseq.
  fold chunks in Hseq.
  destruct (@in_sequence_nth overlap 0 None _ i c Hseq H) as (Hid & _).
  rewrite Z.add_0_l in Hid.
  unfold TranslationRetriever.get_translation_context. rewrite Hid.
  destruct i as [|j].
  - reflexivity.
  - assert (E : (0 <? Z.of_nat (S j))%Z = true) by (apply Z.ltb_lt; lia).
    rewrite E.
    replace (Z.of_nat (S j) - 1)%Z with (0 + Z.of_nat j)%Z by lia.
    rewrite (@find_by_id overlap 0 None chunks j Hseq).
    destruct (nth_error chunks j) as [prev|] eqn:Ej.
    + exists prev. split; reflexivity.
    + exfalso. apply nth_error_None in Ej.
      assert (Hlt : (S j < length chunks)%nat)
        by (apply nth_error_Some; congruence).
      lia.
Qed.

Lemma context_of_document_chunk_witness :
  let chunks :=
    SmartChunker.chunk_document (lit "Khasra 42. Owner Ali.") 10 3 in
  let c := DocumentChunk.mk 1 (lit "42. Owner Ali.") 8 23 (Some 1%Z) None [] in
  exists prev,
    nth_error chunks 0 = Some prev /\
    TranslationRetriever.get_translation_context c chunks
    = suffix 100 (DocumentChunk.text prev) ++ lit " " ++ DocumentChunk.text c.
Proof.
  intros chunks c.
  apply (@context_of_document_chunk (lit "Khasra 42. Owner Ali.") 10 3 1 c).
  vm_compute. reflexivity.
Defined.

(** ** The prompts *)

(** X16.  which prompt is built.  With a context that is not empty the prompt
    is the continuation template: it does not depend on the source and
    target languages, and only on the first 200 characters of the context.
    An empty context gives the same prompt as no context: the full template,
    naming the languages.  In every case the text to translate stands whole
    in the prompt. *)
Theorem prompt_by_context (text source_lang target_lang : pystr) :
  PromptTemplates.get_translation_prompt text source_lang target_lang
    (Some [])
  = PromptTemplates.get_translation_prompt text source_lang target_lang None
  /\
  (forall context context' source_lang' target_lang',
     context <> [] ->
     prefix 200 context = prefix 200 context' ->
     PromptTemplates.get_translation_prompt text source_lang target_lang
       (Some context)
     = PromptTemplates.get_translation_prompt text source_lang' target_lang'
         (Some context')) /\
  (forall context,
     inside text
       (PromptTemplates.get_translation_prompt text source_lang target_lang
          context)).
Proof.
  split; [|split].
  - unfold PromptTemplates.get_translation_prompt. cbn [truthy].
    reflexivity.
  - intros context context' sl' tl' Hne Hp.
    unfold PromptTemplates.get_translation_prompt.
    destruct context as [|c ctx]; [congruence|].
    destruct context' as [|c' ctx']; [discriminate|].
    cbn [truthy]. rewrite Hp. reflexivity.
  - intros context. unfold PromptTemplates.get_translation_prompt, inside.
    destruct context as [[|c ctx]|]; cbn [truthy].
    + exists (PromptTemplates.TRANSLATION_PROMPT_1 ++ source_lang
                ++ PromptTemplates.TRANSLATION_PROMPT_2 ++ target_lang
                ++ PromptTemplates.TRANSLATION_PROMPT_3),
             PromptTemplates.TRANSLATION_PROMPT_4.
      rewrite <- !app_assoc. reflexivity.
    + exists (PromptTemplates.CONTEXT_PROMPT_1 ++ prefix 200 (c :: ctx)
                ++ PromptTemplates.CONTEXT_PROMPT_2),
             PromptTemplates.CONTEXT_PROMPT_3.
      rewrite <- !app_assoc. reflexivity.
    + exists (PromptTemplates.TRANSLATION_PROMPT_1 ++ source_lang
                ++ PromptTemplates.TRANSLATION_PROMPT_2 ++ target_lang
                ++ PromptTemplates.TRANSLATION_PROMPT_3),
             PromptTemplates.TRANSLATION_PROMPT_4.
      rewrite <- !app_assoc. reflexivity.
Qed.

(** ** The generator client: what a call costs *)

Section GeneratorBounds.
Variable endpoint : nat -> pystr -> PostResult.

Local Abbreviation generate := (GeminiGenerator.generate endpoint).
Local Abbreviation attempts := (GeminiGenerator.attempts endpoint).
Local Abbreviation attempt_once := (GeminiGenerator.attempt_once endpoint).

Lemma slept_ms_sleep ms w : slept_ms (sleep ms w) = (ms + slept_ms w)%Z.
Proof. reflexivity. Qed.

Lemma slept_ms_posted took w : slept_ms (posted took w) = slept_ms w.
Proof. reflexivity. Qed.

Lemma longest_wait_bounds attempt :
  (2000 <= longest_wait attempt)%Z /\
  ((2 ^ Z.of_nat attempt + 1) * 1000 <= longest_wait attempt)%Z /\
  (0 < (2 ^ Z.of_nat attempt + 1) * 1000)%Z.
Proof.
  unfold longest_wait.
  pose proof (Z.pow_pos_nonneg 2 (Z.of_nat attempt) ltac:(lia) ltac:(lia)).
  lia.
Qed.

(** One attempt: one post, one wait at most, the key and the stamp kept. *)
Lemma attempt_once_bounds prompt attempt g w :
  let out := attempt_once prompt attempt g w in
  posts (snd out) = S (posts w) /\
  (slept_ms w <= slept_ms (snd out) <= slept_ms w + longest_wait attempt)%Z /\
  GeminiGenerator.api_key (snd (fst out)) = GeminiGenerator.api_key g /\
  GeminiGenerator.last_request_time (snd (fst out))
    = GeminiGenerator.last_request_time g.
Proof.
  pose proof (longest_wait_bounds attempt) as (H1 & H2 & H3).
  unfold GeminiGenerator.attempt_once.
  destruct (endpoint (posts w) prompt) as [|e|took r].
  - destruct (GeminiGenerator.last_attempt attempt); cbn [fst snd];
      rewrite ?slept_ms_sleep, ?slept_ms_posted; cbn [posts sleep posted];
      repeat split; lia.
  - destruct (GeminiGenerator.last_attempt attempt); cbn [fst snd];
      rewrite ?slept_ms_sleep, ?slept_ms_posted; cbn [posts sleep posted];
      repeat split; lia.
  - destruct (status_code r =? 429)%Z;
      [cbn [fst snd]; rewrite ?slept_ms_sleep, ?slept_ms_posted;
       cbn [posts sleep posted]; repeat split; lia|].
    destruct (status_code r =? 503)%Z;
      [cbn [fst snd]; rewrite ?slept_ms_sleep, ?slept_ms_posted;
       cbn [posts sleep posted]; repeat split; lia|].
    destruct (_ && _); [|destruct (payload r)];
      destruct (GeminiGenerator.last_attempt attempt); cbn [fst snd];
      rewrite ?slept_ms_sleep, ?slept_ms_posted;
      cbn [posts sleep posted GeminiGenerator.api_key
           GeminiGenerator.last_request_time];
      repeat split; lia.
Qed.

Lemma backoff_budget_nonneg attempt remaining :
  (0 <= backoff_budget attempt remaining)%Z.
Proof.
  revert attempt; induction remaining as [|r IH]; intros attempt; simpl;
    [lia|].
  pose proof (longest_wait_bounds attempt). specialize (IH (S attempt)). lia.
Qed.

Lemma attempts_bounds prompt remaining :
  forall attempt g w,
    let out := attempts prompt remaining attempt g w in
    (posts w <= posts (snd out) <= posts w + remaining)%nat /\
    (0 < remaining -> posts w < posts (snd out))%nat /\
    (slept_ms w <= slept_ms (snd out)
     <= slept_ms w + backoff_budget attempt remaining)%Z /\
    GeminiGenerator.api_key (snd (fst out)) = GeminiGenerator.api_key g /\
    GeminiGenerator.last_request_time (snd (fst out))
      = GeminiGenerator.last_request_time g.
Proof.
  induction remaining as [|n IH]; intros attempt g w.
  - cbn. repeat split; lia.
  - cbn [GeminiGenerator.attempts backoff_budget].
    pose proof (attempt_once_bounds prompt attempt g w) as H.
    pose proof (backoff_budget_nonneg (S attempt) n) as Hb.
    destruct (attempt_once prompt attempt g w) as [[[|text error] g1] w1].
    + cbv zeta in H. cbn [fst snd] in H.
      destruct H as (H1 & H2 & H3 & H4).
      specialize (IH (S attempt) g1 w1). cbv zeta in IH.
      destruct IH as (I1 & _ & I3 & I4 & I5).
      cbv zeta. repeat split; try lia; congruence.
    + cbv zeta in H. cbn [fst snd] in H.
      destruct H as (H1 & H2 & H3 & H4).
      cbv zeta. cbn [fst snd]. repeat split; try lia; assumption.
Qed.

Lemma rate_limit_bounds g w :
  let out := GeminiGenerator._rate_limit g w in
  posts (snd out) = posts w /\
  (slept_ms w <= slept_ms (snd out) <= slept_ms w + 500)%Z /\
  GeminiGenerator.api_key (fst out) = GeminiGenerator.api_key g /\
  GeminiGenerator.request_count (fst out) = GeminiGenerator.request_count g /\
  GeminiGenerator.last_request_time (fst out) = clock (snd out) /\
  (clock w <= clock (snd out))%Z /\
  (GeminiGenerator.last_request_time g <= clock w ->
   GeminiGenerator.last_request_time g + 500 <= clock (snd out))%Z.
Proof.
  unfold GeminiGenerator._rate_limit.
  destruct (clock w - GeminiGenerator.last_request_time g <? 500)%Z eqn:E;
    cbv zeta; cbn [fst snd GeminiGenerator.api_key
                   GeminiGenerator.request_count
                   GeminiGenerator.last_request_time];
    rewrite ?slept_ms_sleep; cbn [posts clock sleep];
    repeat split; lia.
Qed.

(** What a call of [generate] costs, whatever the endpoint does. *)
Lemma generate_bounds g w prompt :
  let out := generate g w prompt in
  (posts w <= posts (snd out) <= posts w + MAX_RETRIES)%nat /\
  (truthy_opt (GeminiGenerator.api_key g) = true ->
   posts w < posts (snd out))%nat /\
  (truthy_opt (GeminiGenerator.api_key g) = false ->
   posts (snd out) = posts w) /\
  (slept_ms w <= slept_ms (snd out) <= slept_ms w + 10500)%Z /\
  GeminiGenerator.api_key (snd (fst out)) = GeminiGenerator.api_key g.
Proof.
  unfold GeminiGenerator.generate.
  destruct (truthy_opt (GeminiGenerator.api_key g)) eqn:Ek; simpl negb;
    cbv iota.
  - pose proof (rate_limit_bounds g w) as Hr.
    destruct (GeminiGenerator._rate_limit g w) as [g1 w1].
    cbv zeta in Hr. cbn [fst snd] in Hr.
    destruct Hr as (R1 & R2 & R3 & _).
    pose proof (attempts_bounds prompt MAX_RETRIES 0 g1 w1) as Ha.
    cbv zeta in Ha. destruct Ha as (A1 & A2 & A3 & A4 & _).
    change (backoff_budget 0 MAX_RETRIES) with 10000%Z in A3.
    specialize (A2 ltac:(unfold MAX_RETRIES; lia)).
    cbv zeta. repeat split; try lia; try congruence.
  - cbv zeta. cbn [fst snd]. unfold MAX_RETRIES.
    repeat split; try lia; congruence.
Qed.

End GeneratorBounds.

(** X17.  what one call of [generate] costs.  Whatever the endpoint answers, a
    call makes at most [MAX_RETRIES] = 3 posts (at least one when the
    generator has a key, none when it has not), sleeps 10.5 seconds at most
    (the 0.5 s of the rate limit and the back-offs of 2, 3 and 5 s), and
    leaves the key of the generator as it was. *)
Theorem generate_cost_bounded (endpoint : nat -> pystr -> PostResult)
  (g : GeminiGenerator.t) (w : World) (prompt : pystr) :
  let out := GeminiGenerator.generate endpoint g w prompt in
  (posts w <= posts (snd out) <= posts w + MAX_RETRIES)%nat /\
  (truthy_opt (GeminiGenerator.api_key g) = true ->
   posts w < posts (snd out))%nat /\
  (truthy_opt (GeminiGenerator.api_key g) = false ->
   posts (snd out) = posts w) /\
  (slept_ms w <= slept_ms (snd out) <= slept_ms w + 10500)%Z /\
  GeminiGenerator.api_key (snd (fst out)) = GeminiGenerator.api_key g.
Proof. apply generate_bounds. Qed.

(** X18.  an endpoint that stays busy.  When the generator has a key and every
    request is answered with 429 or 503, [generate] gives up with the error
    "Max retries exceeded" after exactly 3 posts, and does not count a
    request. *)
Theorem generate_gives_up_when_busy (endpoint : nat -> pystr -> PostResult)
  (g : GeminiGenerator.t) (w : World) (prompt : pystr) :
  truthy_opt (GeminiGenerator.api_key g) = true ->
  always_busy endpoint prompt ->
  exists g' w',
    GeminiGenerator.generate endpoint g w prompt =
      ((None, Some (lit "Max retries exceeded")), g', w') /\
    posts w' = posts w + 3 /\
    GeminiGenerator.request_count g' = GeminiGenerator.request_count g.
Proof.
  intros Hkey Hbusy.
  assert (Hstep : forall attempt g0 w0, exists w1,
            GeminiGenerator.attempt_once endpoint prompt attempt g0 w0
              = (GeminiGenerator.Continue, g0, w1) /\
            posts w1 = S (posts w0)).
  { intros attempt g0 w0. unfold GeminiGenerator.attempt_once.
    destruct (Hbusy (posts w0)) as (took & r & -> & Hs).
    destruct (status_code r =? 429)%Z eqn:E1; [eexists; split; reflexivity|].
    destruct (status_code r =? 503)%Z eqn:E2; [eexists; split; reflexivity|].
    lia. }
  unfold GeminiGenerator.generate. rewrite Hkey. simpl negb. cbv iota.
  pose proof (rate_limit_bounds g w) as Hr.
  destruct (GeminiGenerator._rate_limit g w) as [g1 w1].
  cbv zeta in Hr. cbn [fst snd] in Hr. destruct Hr as (R1 & _ & _ & R4 & _).
  unfold MAX_RETRIES. cbn [GeminiGenerator.attempts].
  destruct (Hstep 0%nat g1 w1) as (w2 & -> & P2).
  destruct (Hstep 1%nat g1 w2) as (w3 & -> & P3).
  destruct (Hstep 2%nat g1 w3) as (w4 & -> & P4).
  exists g1, w4. split; [reflexivity|]. split; [lia | exact R4].
Qed.

Lemma generate_gives_up_when_busy_witness :
  exists g' w',
    GeminiGenerator.generate Fixture.endpoint_busy Fixture.generator
      Fixture.world (lit "Translate") =
      ((None, Some (lit "Max retries exceeded")), g', w') /\
    posts w' = posts Fixture.world + 3 /\
    GeminiGenerator.request_count g'
      = GeminiGenerator.request_count Fixture.generator.
Proof.
  apply generate_gives_up_when_busy.
  - reflexivity.
  - intros n. eexists _, _. split; [reflexivity|]. left. reflexivity.
Defined.



(** ** The API key *)

Lemma get_api_key_cached w :
  truthy_opt (GEMINI_API_KEY w) = true ->
  get_api_key w = (GEMINI_API_KEY w, w).
Proof. intros H. unfold get_api_key. now rewrite H. Qed.

Lemma get_api_key_stores w :
  truthy_opt (fst (get_api_key w)) = true ->
  GEMINI_API_KEY (snd (get_api_key w)) = fst (get_api_key w).
Proof.
  unfold get_api_key.
  destruct (truthy_opt (GEMINI_API_KEY w)) eqn:Eg; [reflexivity|].
  cbn [set_GEMINI_API_KEY GEMINI_API_KEY flask_GOOGLE_GEMINI_API_KEY].
  destruct (truthy_opt (environ_GOOGLE_GEMINI_API_KEY w)); simpl negb;
    cbv iota; [reflexivity|].
  destruct (flask_GOOGLE_GEMINI_API_KEY w); reflexivity.
Qed.

Lemma get_api_key_agrees w : get_api_key w = GeminiGenerator._get_api_key w.
Proof.
  unfold get_api_key, GeminiGenerator._get_api_key.
  destruct (truthy_opt (GEMINI_API_KEY w)); [reflexivity|].
  cbn [set_GEMINI_API_KEY GEMINI_API_KEY flask_GOOGLE_GEMINI_API_KEY].
  destruct (truthy_opt (environ_GOOGLE_GEMINI_API_KEY w)); simpl negb;
    cbv iota; [reflexivity|].
  destruct (flask_GOOGLE_GEMINI_API_KEY w); reflexivity.
Qed.

(** X20.  the lookup of the key.  The legacy [get_api_key] returns what the
    generator's [_get_api_key] returns and leaves the same module global; a
    key of the environment is preferred to the Flask configuration; and a key
    that was found once is returned ever after, whatever the environment and
    the configuration become. *)
Theorem api_key_lookup_is_sticky (w : World) :
  get_api_key w = GeminiGenerator._get_api_key w /\
  (truthy_opt (GEMINI_API_KEY w) = false ->
   truthy_opt (environ_GOOGLE_GEMINI_API_KEY w) = true ->
   fst (get_api_key w) = environ_GOOGLE_GEMINI_API_KEY w) /\
  (truthy_opt (fst (get_api_key w)) = true ->
   forall environ flask,
     get_api_key (with_configuration environ flask (snd (get_api_key w)))
     = (fst (get_api_key w),
        with_configuration environ flask (snd (get_api_key w)))).
Proof.
  split; [apply get_api_key_agrees|]. split.
  - intros Hg He. unfold get_api_key. rewrite Hg.
    cbn [set_GEMINI_API_KEY GEMINI_API_KEY]. now rewrite He.
  - intros Hk environ flask.
    pose proof (get_api_key_stores w Hk) as Hs.
    rewrite get_api_key_cached.
    + cbn [with_configuration GEMINI_API_KEY]. now rewrite Hs.
    + cbn [with_configuration GEMINI_API_KEY]. now rewrite Hs.
Qed.

Section LateKey.
Variable hash : pystr -> Z.
Variable md5_hexdigest : pystr -> pystr.
Variable endpoint : nat -> pystr -> PostResult.

Local Abbreviation with_rag := (translate_with_rag hash md5_hexdigest endpoint).
Local Abbreviation translate_document :=
  (RAGTranslationPipeline.translate_document (default_embed hash)
     md5_hexdigest endpoint).

Lemma init_unconfigured w :
  unconfigured w -> keyless (fst (RAGTranslationPipeline.init w)).
Proof.
  intros (Hg & He & Hf).
  unfold RAGTranslationPipeline.init, GeminiGenerator.init,
    GeminiGenerator._get_api_key.
  rewrite Hg, He.
  destruct (flask_GOOGLE_GEMINI_API_KEY w) as [k|]; split;
    cbn [fst RAGTranslationPipeline.generator GeminiGenerator.api_key
         RAGTranslationPipeline.cache TranslationCache.cache
         TranslationCache.init]; auto.
Qed.

Lemma translate_document_stays_keyless p w text source_lang target_lang :
  keyless p ->
  keyless (snd (fst (translate_document p w text source_lang target_lang))).
Proof.
  intros Hp.
  destruct (SmartChunker.chunk_document text CHUNK_SIZE OVERLAP_SIZE)
    as [|c cs] eqn:E.
  - unfold RAGTranslationPipeline.translate_document. rewrite E.
    cbn. exact Hp.
  - destruct (@translate_document_keyless (default_embed hash) md5_hexdigest
                endpoint p w text source_lang target_lang Hp)
      as (m & p' & w' & Hrun & _ & _ & _ & _ & _ & _ & _ & Hk).
    + rewrite E. discriminate.
    + rewrite Hrun. exact Hk.
Qed.

(** The first call of a fresh process: the pipeline is built, it is the
    object 0, and the run leaves it without a key if there was none. *)
Lemma first_call w text source_lang target_lang :
  unconfigured w ->
  exists p1 w1,
    snd (with_rag (fresh_process w) text source_lang target_lang)
    = mk_process w1 [p1] (Some 0%nat) /\
    keyless p1.
Proof.
  intros Hw. unfold translate_with_rag, get_rag_translator, fresh_process.
  cbn [_pipeline world heap].
  pose proof (init_unconfigured Hw) as Hk.
  destruct (RAGTranslationPipeline.init w) as [p0 w0]. cbn [fst] in Hk.
  cbn [length app heap nth_error world _pipeline].
  pose proof (translate_document_stays_keyless w0 text source_lang
                target_lang Hk) as Hk1.
  destruct (translate_document p0 w0 text source_lang target_lang)
    as [[res p1] w1]. cbn [fst snd] in Hk1.
  exists p1, w1. cbn [snd store]. split; [reflexivity | exact Hk1].
Qed.

(** A later call, whatever the surroundings have become, runs on the same
    object and leaves it without a key. *)
Lemma later_call p w c :
  keyless p ->
  exists p' w',
    snd (with_rag (in_world (later_world c) (mk_process w [p] (Some 0%nat)))
           (later_text c) (later_source_lang c) (later_target_lang c))
    = mk_process w' [p'] (Some 0%nat) /\
    keyless p'.
Proof.
  intros Hk. unfold translate_with_rag, get_rag_translator, in_world.
  cbn [_pipeline heap world nth_error].
  pose proof (translate_document_stays_keyless (later_world c) (later_text c)
                (later_source_lang c) (later_target_lang c) Hk) as Hk1.
  destruct (translate_document p (later_world c) (later_text c)
              (later_source_lang c) (later_target_lang c))
    as [[res p1] w1]. cbn [fst snd] in Hk1.
  exists p1, w1. cbn [snd store]. split; [reflexivity | exact Hk1].
Qed.

Lemma later_calls calls :
  forall p w,
    keyless p ->
    exists p' w',
      after_later_calls hash md5_hexdigest endpoint
        (mk_process w [p] (Some 0%nat)) calls
      = mk_process w' [p'] (Some 0%nat) /\
      keyless p'.
Proof.
  induction calls as [|c calls IH]; intros p w Hk.
  - exists p, w. split; [reflexivity | exact Hk].
  - unfold after_later_calls. cbn [fold_left].
    destruct (later_call w c Hk) as (p1 & w1 & -> & Hk1).
    apply IH. exact Hk1.
Qed.

End LateKey.

(** X21.  a key configured late is never seen.  When a process makes its first
    call of [translate_with_rag] while no key is configured anywhere, the
    pipeline it builds has no key, and it keeps that pipeline: whatever the
    surroundings become afterwards (a key in the environment, in the Flask
    configuration, in the module global), and however many calls were made
    in between, every later call on a document with text fails each of its
    chunks with "API key not configured" and posts no request. *)
Theorem late_key_is_never_seen (hash : pystr -> Z)
  (md5_hexdigest : pystr -> pystr) (endpoint : nat -> pystr -> PostResult)
  (w w' : World)
  (text1 source_lang1 target_lang1 text2 source_lang2 target_lang2 : pystr)
  (calls : list LaterCall) :
  unconfigured w ->
  SmartChunker.chunk_document text2 CHUNK_SIZE OVERLAP_SIZE <> [] ->
  let chunks := SmartChunker.chunk_document text2 CHUNK_SIZE OVERLAP_SIZE in
  let s1 :=
    snd (translate_with_rag hash md5_hexdigest endpoint (fresh_process w)
           text1 source_lang1 target_lang1) in
  let s := after_later_calls hash md5_hexdigest endpoint s1 calls in
  exists final_text m s2,
    translate_with_rag hash md5_hexdigest endpoint (in_world w' s) text2
      source_lang2 target_lang2
    = (Ok (final_text, RAGTranslationPipeline.Run m), s2) /\
    RAGTranslationPipeline.total_chunks m = len_list chunks /\
    RAGTranslationPipeline.failed_chunks m = len_list chunks /\
    RAGTranslationPipeline.errors m =
      Some (map (fun c => (DocumentChunk.id c, lit "API key not configured"))
              chunks) /\
    posts (world s2) = posts w'.
Proof.
  intros Hw Hne chunks s1 s.
  destruct (first_call hash md5_hexdigest endpoint text1 source_lang1
              target_lang1 Hw) as (p1 & w1 & Hs1 & Hk1).
  destruct (later_calls hash md5_hexdigest endpoint calls w1 Hk1)
    as (p & w0 & Hs & Hk).
  unfold s, s1. rewrite Hs1, Hs.
  unfold translate_with_rag, get_rag_translator, in_world.
  cbn [_pipeline heap world nth_error].
  destruct (@translate_document_keyless (default_embed hash) md5_hexdigest
              endpoint p w' text2 source_lang2 target_lang2 Hk Hne)
    as (m & p' & w2 & Hrun & Ht & Hf & _ & _ & He & Hp & _).
  rewrite Hrun. eexists _, m, _. split; [reflexivity|].
  cbn [world]. auto.
Qed.

(** A first call without a key; then a key is configured, a call is made on
    the long document, and another on the short one. *)
Lemma late_key_is_never_seen_witness :
  let chunks :=
    SmartChunker.chunk_document Example.short_document CHUNK_SIZE
      OVERLAP_SIZE in
  let configured :=
    mk_world 0 0 [] (Some (lit "key")) (Some (lit "key")) None in
  let s1 :=
    snd (translate_with_rag Example.hash Example.md5_hexdigest
           Example.endpoint_timeout (fresh_process Example.world)
           Example.short_document (lit "Urdu") (lit "English")) in
  let s :=
    after_later_calls Example.hash Example.md5_hexdigest
      Example.endpoint_timeout s1
      [mk_later_call configured Example.long_document (lit "Urdu")
         (lit "English")] in
  exists final_text m s2,
    translate_with_rag Example.hash Example.md5_hexdigest
      Example.endpoint_timeout (in_world configured s)
      Example.short_document (lit "Hindi") (lit "English")
    = (Ok (final_text, RAGTranslationPipeline.Run m), s2) /\
    RAGTranslationPipeline.total_chunks m = len_list chunks /\
    RAGTranslationPipeline.failed_chunks m = len_list chunks /\
    RAGTranslationPipeline.errors m =
      Some (map (fun c => (DocumentChunk.id c, lit "API key not configured"))
              chunks) /\
    posts (world s2) = posts configured.
Proof.
  intros chunks configured s1 s.
  apply (@late_key_is_never_seen Example.hash Example.md5_hexdigest
           Example.endpoint_timeout Example.world configured
           Example.short_document (lit "Urdu") (lit "English")
           Example.short_document (lit "Hindi") (lit "English")
           [mk_later_call configured Example.long_document (lit "Urdu")
              (lit "English")]).
  - repeat split.
  - rewrite short_document_chunks. discriminate.
Defined.

(** ** The translation cache: what stays in it *)

Section DictSplit.
Variable V : Type.
Implicit Types d : OrderedDict.t V.

Lemma contains_key_false_iff k d :
  OrderedDict.contains_key k d = false <-> ~ In k (OrderedDict.keys d).
Proof.
  rewrite <- contains_key_In. destruct (OrderedDict.contains_key k d);
    split; congruence.
Qed.

Lemma getitem_app k d1 d2 :
  OrderedDict.getitem k (d1 ++ d2) =
  if OrderedDict.contains_key k d1 then OrderedDict.getitem k d1
  else OrderedDict.getitem k d2.
Proof.
  induction d1 as [|[k' v'] d1 IH]; simpl; [reflexivity|].
  destruct (Py.eqb k k'); simpl; [reflexivity | exact IH].
Qed.

Lemma delitem_app k d1 d2 :
  OrderedDict.delitem k (d1 ++ d2) =
  if OrderedDict.contains_key k d1 then OrderedDict.delitem k d1 ++ d2
  else d1 ++ OrderedDict.delitem k d2.
Proof.
  induction d1 as [|[k' v'] d1 IH]; simpl; [reflexivity|].
  destruct (Py.eqb k k'); simpl; [reflexivity|].
  rewrite IH. now destruct (OrderedDict.contains_key k d1).
Qed.

Lemma setitem_app k v d1 d2 :
  OrderedDict.setitem k v (d1 ++ d2) =
  if OrderedDict.contains_key k d1 then OrderedDict.setitem k v d1 ++ d2
  else d1 ++ OrderedDict.setitem k v d2.
Proof.
  induction d1 as [|[k' v'] d1 IH]; simpl; [reflexivity|].
  destruct (Py.eqb k k'); simpl; [reflexivity|].
  rewrite IH. now destruct (OrderedDict.contains_key k d1).
Qed.

Lemma contains_key_app k d1 d2 :
  OrderedDict.contains_key k (d1 ++ d2) =
  OrderedDict.contains_key k d1 || OrderedDict.contains_key k d2.
Proof.
  induction d1 as [|[k' v'] d1 IH]; simpl; [reflexivity|].
  now rewrite IH, orb_assoc.
Qed.

Lemma length_delitem_le k d :
  (length (OrderedDict.delitem k d) <= length d)%nat.
Proof.
  induction d as [|[k' v'] d IH]; simpl; [lia|].
  destruct (Py.eqb k k'); simpl; lia.
Qed.

Lemma keys_setitem_incl k v d x :
  In x (OrderedDict.keys (OrderedDict.setitem k v d)) ->
  x = k \/ In x (OrderedDict.keys d).
Proof.
  induction d as [|[k' v'] d IH]; simpl.
  - intros [<-|[]]. now left.
  - destruct (Py.eqb k k') eqn:E; simpl.
    + intros [<-|H]; right; [now left | now right].
    + intros [<-|H]; [right; now left|].
      destruct (IH H) as [->|H']; [now left | right; now right].
Qed.

Lemma parked_getitem k v j d :
  parked k v j d ->
  OrderedDict.contains_key k d = true /\ OrderedDict.getitem k d = Some v /\
  OrderedDict.getitem k (OrderedDict.move_to_end k d) = Some v.
Proof.
  intros (pre & post & -> & Hpre & Hpost & _).
  apply contains_key_false_iff in Hpre, Hpost.
  assert (Hg : OrderedDict.getitem k (pre ++ (k, v) :: post) = Some v).
  { rewrite getitem_app, Hpre. simpl. now rewrite eqb_refl. }
  split.
  - rewrite contains_key_app. simpl. rewrite eqb_refl. apply orb_true_r.
  - split; [exact Hg|].
    unfold OrderedDict.move_to_end. rewrite Hg.
    rewrite delitem_app, Hpre. simpl. rewrite eqb_refl.
    rewrite getitem_app, contains_key_app, Hpre, Hpost. simpl.
    now rewrite eqb_refl.
Qed.

(** A lookup leaves the entry in, at most one place further from the end. *)
Lemma parked_move_to_end k v j k' d :
  parked k v j d -> parked k v (S j) (OrderedDict.move_to_end k' d).
Proof.
  intros (pre & post & -> & Hpre & Hpost & Hlen).
  unfold OrderedDict.move_to_end.
  destruct (OrderedDict.getitem k' (pre ++ (k, v) :: post)) as [v'|] eqn:Eg;
    [|exists pre, post; repeat split; auto].
  destruct (Py.eqb k' k) eqn:Ek.
  - apply eqb_eq in Ek. subst k'.
    assert (Hc : OrderedDict.contains_key k pre = false)
      by now apply contains_key_false_iff.
    rewrite getitem_app, Hc in Eg. simpl in Eg. rewrite eqb_refl in Eg.
    injection Eg as <-.
    rewrite delitem_app, Hc. simpl. rewrite eqb_refl.
    exists (pre ++ post), []. rewrite <- app_assoc.
    split; [reflexivity|]. split.
    + rewrite keys_app. intros H. apply in_app_or in H. tauto.
    + split; [intros [] | simpl; lia].
  - assert (Hne : k <> k') by (apply eqb_neq in Ek; congruence).
    rewrite delitem_app.
    destruct (OrderedDict.contains_key k' pre) eqn:Ec.
    + exists (OrderedDict.delitem k' pre), (post ++ [(k', v')]).
      rewrite <- app_assoc. split; [reflexivity|]. split.
      * intros H. apply Hpre. eapply keys_delitem_incl; eauto.
      * split.
        -- rewrite keys_app. intros H. apply in_app_or in H.
           destruct H as [H|[H|[]]]; [tauto | now apply Hne].
        -- rewrite length_app. simpl. lia.
    + simpl. rewrite Ek.
      exists pre, (OrderedDict.delitem k' post ++ [(k', v')]).
      rewrite <- app_assoc. split; [reflexivity|]. split; [exact Hpre|].
      split.
      * rewrite keys_app. intros H. apply in_app_or in H.
        destruct H as [H|[H|[]]]; [|now apply Hne].
        apply Hpost. eapply keys_delitem_incl; eauto.
      * rewrite length_app. pose proof (length_delitem_le k' post).
        simpl. lia.
Qed.

(** Storing under another key leaves the entry in, at most one place
    further from the end. *)
Lemma parked_setitem k v j k' v' d :
  k' <> k -> parked k v j d -> parked k v (S j) (OrderedDict.setitem k' v' d).
Proof.
  intros Hne (pre & post & -> & Hpre & Hpost & Hlen).
  assert (Ek : Py.eqb k' k = false) by now apply eqb_neq.
  rewrite setitem_app.
  destruct (OrderedDict.contains_key k' pre) eqn:Ec.
  - exists (OrderedDict.setitem k' v' pre), post.
    split; [reflexivity|]. split; [|split; [exact Hpost | lia]].
    intros H. apply keys_setitem_incl in H as [H|H]; [congruence | tauto].
  - simpl. rewrite Ek.
    exists pre, (OrderedDict.setitem k' v' post).
    split; [reflexivity|]. split; [exact Hpre|]. split.
    + intros H. apply keys_setitem_incl in H as [H|H]; [congruence | tauto].
    + pose proof (length_setitem k' v' post). lia.
Qed.

(** The entry is not at the head when fewer entries follow it than the
    dictionary holds besides it. *)
Lemma parked_tl k v j d :
  parked k v j d -> (S j < length d)%nat -> parked k v j (tl d).
Proof.
  intros (pre & post & -> & Hpre & Hpost & Hlen) Hd.
  destruct pre as [|e pre].
  - simpl in Hd. lia.
  - exists pre, post. split; [reflexivity|]. split; [|split; assumption].
    intros H. apply Hpre. simpl. now right.
Qed.

End DictSplit.

Section CacheSurvival.
Variable V : Type.
Variable md5_hexdigest : pystr -> pystr.

Local Abbreviation get := (TranslationCache.get md5_hexdigest).
Local Abbreviation set := (TranslationCache.set md5_hexdigest).
Local Abbreviation after_call := (TranslationCache.after_call md5_hexdigest).
Local Abbreviation after_calls := (TranslationCache.after_calls md5_hexdigest).
Local Abbreviation key := (TranslationCache._hash_key md5_hexdigest).
Local Abbreviation entries := (@TranslationCache.cache V).
Local Abbreviation alone := (@leaves_alone V md5_hexdigest).

Lemma parked_weaken k (v : V) j j' d :
  (j <= j')%nat -> parked k v j d -> parked k v j' d.
Proof.
  intros Hj (pre & post & H1 & H2 & H3 & H4).
  exists pre, post. repeat split; auto. lia.
Qed.

Lemma parked_after_call text (v : V) j c op :
  parked (key text) v j (entries c) ->
  (Z.of_nat j + 1 < TranslationCache.max_size c)%Z ->
  alone text op ->
  parked (key text) v (S j) (entries (after_call c op)) /\
  TranslationCache.max_size (after_call c op) = TranslationCache.max_size c.
Proof.
  intros Hp Hj Hop. destruct op as [text'|text' v'].
  - cbn [TranslationCache.after_call]. unfold TranslationCache.get.
    destruct (OrderedDict.contains_key _ _); cbn [snd entries
      TranslationCache.max_size]; (split; [|reflexivity]).
    + now apply parked_move_to_end.
    + now apply parked_weaken with j; [lia|].
  - cbn [TranslationCache.after_call]. unfold TranslationCache.set.
    cbn in Hop.
    destruct (TranslationCache.max_size c <=? TranslationCache.size c)%Z
      eqn:Efull.
    + unfold OrderedDict.popitem_first.
      destruct (entries c) as [|e d] eqn:Ed.
      * destruct Hp as (pre & post & H & _). destruct pre; discriminate.
      * cbn [entries TranslationCache.max_size]. split; [|reflexivity].
        apply parked_setitem; [exact Hop|].
        change d with (tl (e :: d)). apply parked_tl; [exact Hp|].
        apply Z.leb_le in Efull. unfold TranslationCache.size in Efull.
        rewrite Ed in Efull. lia.
    + cbn [entries TranslationCache.max_size]. split; [|reflexivity].
      now apply parked_setitem.
Qed.

Lemma parked_after_calls text (v : V) ops :
  forall j c,
    parked (key text) v j (entries c) ->
    (Z.of_nat j + Z.of_nat (length ops) < TranslationCache.max_size c)%Z ->
    Forall (alone text) ops ->
    parked (key text) v (j + length ops) (entries (after_calls c ops)).
Proof.
  induction ops as [|op ops IH]; intros j c Hp Hj Hops.
  - simpl. now rewrite Nat.add_0_r.
  - apply Forall_cons_iff in Hops as [Hop Hops].
    cbn [length] in *. unfold TranslationCache.after_calls. cbn [fold_left].
    destruct (@parked_after_call text v j c op Hp ltac:(lia) Hop)
      as [Hp' Hm].
    replace (j + S (length ops))%nat with (S j + length ops)%nat by lia.
    apply IH; [exact Hp' | rewrite Hm; lia | exact Hops].
Qed.

(** A new entry goes to the end of the order. *)
Lemma set_fresh_parked (c : TranslationCache.t V) text v :
  (1 <= TranslationCache.max_size c)%Z ->
  OrderedDict.contains_key (key text) (entries c) = false ->
  exists c1,
    set c text v = Ok c1 /\
    parked (key text) v 0 (entries c1) /\
    TranslationCache.max_size c1 = TranslationCache.max_size c.
Proof.
  intros Hmax Hfresh. unfold TranslationCache.set.
  destruct (TranslationCache.max_size c <=? TranslationCache.size c)%Z
    eqn:Efull.
  - unfold OrderedDict.popitem_first.
    destruct (entries c) as [|e d] eqn:Ed.
    + apply Z.leb_le in Efull. unfold TranslationCache.size in Efull.
      rewrite Ed in Efull. simpl in Efull. lia.
    + assert (Hd : OrderedDict.contains_key (key text) d = false).
      { simpl in Hfresh. destruct e. apply orb_false_iff in Hfresh. tauto. }
      eexists. split; [reflexivity|]. cbn [entries TranslationCache.max_size].
      split; [|reflexivity]. rewrite setitem_fresh by exact Hd.
      exists d, []. split; [reflexivity|].
      split; [now apply contains_key_false_iff|].
      split; [intros [] | simpl; lia].
  - eexists. split; [reflexivity|]. cbn [entries TranslationCache.max_size].
    split; [|reflexivity]. rewrite setitem_fresh by exact Hfresh.
    exists (entries c), []. split; [reflexivity|].
    split; [now apply contains_key_false_iff|].
    split; [intros [] | simpl; lia].
Qed.

Lemma get_parked (c : TranslationCache.t V) text v j :
  parked (key text) v j (entries c) -> fst (get c text) = Some v.
Proof.
  intros Hp. apply parked_getitem in Hp as (Hc & _ & Hg).
  unfold TranslationCache.get. rewrite Hc. exact Hg.
Qed.

Lemma counters_after_call (c : TranslationCache.t V) op :
  let c' := after_call c op in
  (TranslationCache.hits c <= TranslationCache.hits c')%Z /\
  (TranslationCache.misses c <= TranslationCache.misses c')%Z /\
  (TranslationCache.hits c' + TranslationCache.misses c'
   = TranslationCache.hits c + TranslationCache.misses c + lookups [op])%Z.
Proof.
  destruct op as [text|text v]; cbn [TranslationCache.after_call].
  - unfold TranslationCache.get.
    destruct (OrderedDict.contains_key _ _); cbv zeta;
      cbn [snd TranslationCache.hits TranslationCache.misses];
      change (lookups [TranslationCache.CallGet V text]) with 1%Z; lia.
  - unfold TranslationCache.set.
    destruct (_ <=? _)%Z; [destruct (OrderedDict.popitem_first _)
                             as [[e d]|]|];
      cbv zeta; cbn [TranslationCache.hits TranslationCache.misses];
      change (lookups [TranslationCache.CallSet text v]) with 0%Z; lia.
Qed.

Lemma lookups_cons (op : TranslationCache.call V) ops :
  lookups (op :: ops) = (lookups [op] + lookups ops)%Z.
Proof.
  unfold lookups. destruct op; cbn [filter length]; lia.
Qed.

End CacheSurvival.

(** X22.  a cached translation survives the next [max_size - 1] calls.  When a
    text that is not cached is stored, and fewer than [max_size] calls
    follow, none of which stores under the same key, then a lookup of the text
    returns the stored value: it was not evicted, whatever the calls were. *)
Theorem cached_entry_survives (V : Type) (md5_hexdigest : pystr -> pystr)
  (c : TranslationCache.t V) (text : pystr) (v : V)
  (ops : list (TranslationCache.call V)) :
  OrderedDict.contains_key (TranslationCache._hash_key md5_hexdigest text)
    (TranslationCache.cache c) = false ->
  (Z.of_nat (length ops) < TranslationCache.max_size c)%Z ->
  Forall (leaves_alone md5_hexdigest text) ops ->
  exists c1,
    TranslationCache.set md5_hexdigest c text v = Ok c1 /\
    fst (TranslationCache.get md5_hexdigest
           (TranslationCache.after_calls md5_hexdigest c1 ops) text)
    = Some v.
Proof.
  intros Hfresh Hlen Hops.
  destruct (@set_fresh_parked V md5_hexdigest c text v ltac:(lia) Hfresh)
    as (c1 & Hset & Hp & Hm).
  exists c1. split; [exact Hset|].
  apply get_parked with (0 + length ops)%nat.
  apply parked_after_calls; [exact Hp | rewrite Hm; lia | exact Hops].
Qed.

Lemma cached_entry_survives_witness :
  exists c1,
    TranslationCache.set Example.md5_hexdigest
      (TranslationCache.init nat 2) (lit "a") 1%nat = Ok c1 /\
    fst (TranslationCache.get Example.md5_hexdigest
           (TranslationCache.after_calls Example.md5_hexdigest c1
              [TranslationCache.CallSet (lit "b") 2%nat])
           (lit "a"))
    = Some 1%nat.
Proof.
  apply (@cached_entry_survives nat Example.md5_hexdigest
           (TranslationCache.init nat 2) (lit "a") 1%nat
           [TranslationCache.CallSet (lit "b") 2%nat]).
  - reflexivity.
  - simpl. lia.
  - repeat constructor. vm_compute. discriminate.
Defined.

(** X23.  every lookup is counted once.  Over any sequence of calls the hit
    and the miss counters never decrease, and their sum grows by the number
    of lookups: a [get] is counted as a hit or as a miss, a [set] is not
    counted. *)
Theorem cache_counts_every_lookup (V : Type) (md5_hexdigest : pystr -> pystr)
  (c : TranslationCache.t V) (ops : list (TranslationCache.call V)) :
  let c' := TranslationCache.after_calls md5_hexdigest c ops in
  (TranslationCache.hits c <= TranslationCache.hits c')%Z /\
  (TranslationCache.misses c <= TranslationCache.misses c')%Z /\
  (TranslationCache.hits c' + TranslationCache.misses c'
   = TranslationCache.hits c + TranslationCache.misses c + lookups ops)%Z.
Proof.
  revert c. induction ops as [|op ops IH]; intros c.
  - cbv zeta. unfold TranslationCache.after_calls. cbn [fold_left].
    change (lookups (@nil (TranslationCache.call V))) with 0%Z. lia.
  - cbv zeta. unfold TranslationCache.after_calls. cbn [fold_left].
    pose proof (counters_after_call md5_hexdigest c op) as H. cbv zeta in H.
    specialize (IH (TranslationCache.after_call md5_hexdigest c op)).
    cbv zeta in IH. unfold TranslationCache.after_calls in IH.
    rewrite lookups_cons. lia.
Qed.

(** X24.  what is stored can be read back.  In a cache with room for one entry
    at least, reached from a new cache by any calls, [set] returns and a
    [get] of the same text right after it returns the stored value; a new
    cache of capacity 0 or less cannot store anything: [set] raises the
    [KeyError] of [popitem] on the empty dictionary. *)
Theorem cache_set_then_get (V : Type) (md5_hexdigest : pystr -> pystr)
  (max_size : Z) (history : list (TranslationCache.call V))
  (text : pystr) (v : V) :
  let c :=
    TranslationCache.after_calls md5_hexdigest
      (TranslationCache.init V max_size) history in
  ((1 <= max_size)%Z ->
   exists c1,
     TranslationCache.set md5_hexdigest c text v = Ok c1 /\
     fst (TranslationCache.get md5_hexdigest c1 text) = Some v) /\
  ((max_size <= 0)%Z ->
   exists e,
     TranslationCache.set md5_hexdigest
       (TranslationCache.init V max_size) text v = Raise e).
Proof.
  intros c. split.
  - intros Hmax.
    assert (Hm : TranslationCache.max_size c = max_size).
    { unfold c.
      destruct (@after_calls_bounded V md5_hexdigest history
                  (TranslationCache.init V max_size)) as [_ H];
        [cbn; lia | exact H]. }
    assert (Hnd : NoDup (OrderedDict.keys (TranslationCache.cache c))).
    { unfold c. apply NoDup_keys_after_calls. constructor. }
    destruct (@set_ok V md5_hexdigest c text v ltac:(lia)) as [c1 Hset].
    exists c1. split; [exact Hset|].
    set (k := TranslationCache._hash_key md5_hexdigest text).
    assert (Hg : OrderedDict.getitem k (TranslationCache.cache c1) = Some v).
    { unfold TranslationCache.set in Hset. fold k in Hset.
      assert (Hsi : forall d : OrderedDict.t V,
                OrderedDict.getitem k (OrderedDict.setitem k v d) = Some v).
      { induction d as [|[k' v'] d IH]; simpl.
        - now rewrite eqb_refl.
        - destruct (Py.eqb k k') eqn:E; simpl; rewrite E; auto. }
      destruct (_ <=? _)%Z;
        [destruct (OrderedDict.popitem_first _) as [[e d]|]; [|discriminate]|];
        injection Hset as <-; apply Hsi. }
    assert (Hnd1 : NoDup (OrderedDict.keys (TranslationCache.cache c1))).
    { change c1 with
        (match Ok c1 with Ok c' => c' | Raise _ => c end).
      rewrite <- Hset.
      change (NoDup (OrderedDict.keys (TranslationCache.cache
               (TranslationCache.after_call md5_hexdigest c
                  (TranslationCache.CallSet text v))))).
      now apply NoDup_keys_after_call. }
    rewrite (@get_hit V md5_hexdigest c1 text v Hg Hnd1). reflexivity.
  - intros Hmax. unfold TranslationCache.set, TranslationCache.init.
    cbn [TranslationCache.max_size TranslationCache.cache].
    unfold TranslationCache.size. cbn [TranslationCache.cache length].
    destruct (max_size <=? Z.of_nat 0)%Z eqn:E; [|apply Z.leb_gt in E; lia].
    cbn. eexists. reflexivity.
Qed.

(** ** The quality metrics and the reassembly, in general *)

Section Coverage.
Import TranslationQuality.

Lemma mem_In x l : mem x l = true <-> In x l.
Proof.
  unfold mem. rewrite existsb_exists. split.
  - intros (y & Hy & E). apply eqb_eq in E. now subst.
  - intros H. exists x. split; [exact H | apply eqb_refl].
Qed.

Lemma distinct_acc_In l acc x :
  In x (fold_left (fun acc x => if mem x acc then acc else acc ++ [x]) l acc)
  <-> In x acc \/ In x l.
Proof.
  revert acc; induction l as [|y l IH]; intros acc; simpl; [tauto|].
  rewrite IH. destruct (mem y acc) eqn:E.
  - apply mem_In in E. split; [tauto|]. intros [H|[<-|H]]; auto.
  - rewrite in_app_iff. simpl. tauto.
Qed.

Lemma distinct_In l x : In x (distinct l) <-> In x l.
Proof. unfold distinct. rewrite distinct_acc_In. simpl. tauto. Qed.

Lemma filter_all (A : Type) (f : A -> bool) (l : list A) :
  (forall x, In x l -> f x = true) -> filter f l = l.
Proof.
  induction l as [|a l IH]; simpl; [reflexivity|].
  intros H. rewrite (H a) by auto. f_equal. apply IH. auto.
Qed.

End Coverage.

(** X25.  the coverage is a fraction.  For an original and a translation
    whose decimal digits are ASCII ([ascii_numbered]), [calculate_coverage]
    returns a quotient with a positive denominator and a numerator between 0
    and the denominator, so a value between 0 and 1; and it returns 1
    whenever every number of the original occurs in the translation, in
    particular when the translation is the original itself. *)
Theorem coverage_is_a_fraction (original translated : pystr) :
  ascii_numbered original = true ->
  ascii_numbered translated = true ->
  let cov := TranslationQuality.calculate_coverage original translated in
  (0 <= fst cov <= snd cov)%Z /\ (0 < snd cov)%Z /\
  ((forall x, In x (TranslationQuality.findall_digits [] original) ->
              In x (TranslationQuality.findall_digits [] translated)) ->
   fst cov = snd cov) /\
  fst (TranslationQuality.calculate_coverage original original)
  = snd (TranslationQuality.calculate_coverage original original).
Proof.
  assert (Hfull : forall o t,
    (forall x, In x (TranslationQuality.findall_digits [] o) ->
               In x (TranslationQuality.findall_digits [] t)) ->
    fst (TranslationQuality.calculate_coverage o t)
    = snd (TranslationQuality.calculate_coverage o t)).
  { intros o t H. unfold TranslationQuality.calculate_coverage.
    destruct (negb (truthy o)); [reflexivity|]. cbv zeta.
    destruct (TranslationQuality.distinct
                (TranslationQuality.findall_digits [] o)) as [|a l] eqn:E;
      [reflexivity|].
    cbn [fst snd]. rewrite filter_all; [reflexivity|].
    intros x Hx. apply mem_In, distinct_In, H.
    apply distinct_In. rewrite E. exact Hx. }
  intros _ _. cbv zeta. split; [|split; [|split]].
  - unfold TranslationQuality.calculate_coverage.
    destruct (negb (truthy original)); [cbn; lia|]. cbv zeta.
    destruct (TranslationQuality.distinct
                (TranslationQuality.findall_digits [] original)) as [|a l];
      [cbn; lia|].
    cbn [fst snd].
    pose proof (filter_length_le
      (fun x => TranslationQuality.mem x
         (TranslationQuality.distinct
            (TranslationQuality.findall_digits [] translated))) (a :: l)).
    lia.
  - unfold TranslationQuality.calculate_coverage.
    destruct (negb (truthy original)); [cbn; lia|]. cbv zeta.
    destruct (TranslationQuality.distinct
                (TranslationQuality.findall_digits [] original)) as [|a l];
      [cbn; lia|].
    cbn [fst snd length]. lia.
  - apply Hfull.
  - apply Hfull. auto.
Qed.

(** An original in Urdu with the numbers 42 and 7, and a translation that
    keeps 42 only: the coverage is 1/2. *)
Lemma coverage_is_a_fraction_witness :
  let original := lit "خسرہ نمبر 42، کھاتہ 7" in
  let translated := lit "Khasra number 42" in
  ascii_numbered original = true /\
  ascii_numbered translated = true /\
  TranslationQuality.calculate_coverage original translated = (1, 2)%Z /\
  let cov := TranslationQuality.calculate_coverage original translated in
  (0 <= fst cov <= snd cov)%Z /\ (0 < snd cov)%Z.
Proof.
  intros original translated.
  split; [vm_compute; reflexivity|]. split; [vm_compute; reflexivity|].
  split; [vm_compute; reflexivity|].
  destruct (@coverage_is_a_fraction original translated
              ltac:(vm_compute; reflexivity) ltac:(vm_compute; reflexivity))
    as (H1 & H2 & _).
  split; [exact H1 | exact H2].
Defined.

Section CombineBounds.
Import RAGTranslationPipeline.

Lemma len_drop k s : (len (drop k s) <= len s)%Z.
Proof. unfold len, drop. rewrite length_skipn. lia. Qed.

Lemma len_combine_step result chunk :
  (len (combine_step result chunk) <= len result + 1 + len chunk)%Z.
Proof.
  unfold combine_step. destruct (find_overlap result chunk) as [k|].
  - rewrite len_app. pose proof (len_drop k chunk). unfold len in *. lia.
  - rewrite !len_app. change (len (lit " ")) with 1%Z. lia.
Qed.

Lemma len_fold_combine rest :
  forall first,
    (len (fold_left combine_step rest first)
     <= len first + total_len rest + len_list rest)%Z.
Proof.
  induction rest as [|c rest IH]; intros first.
  - cbn. unfold len_list. simpl. lia.
  - cbn [fold_left total_len fold_right].
    specialize (IH (combine_step first c)).
    pose proof (len_combine_step first c).
    unfold total_len in *. unfold len_list in *. cbn [length].
    lia.
Qed.

End CombineBounds.

(** X26.  the reassembled text is trimmed and bounded.  [_combine_chunks]
    returns a text without whitespace at either end, and never longer than
    its chunks joined by single spaces: the sum of their lengths plus one
    per chunk after the first. *)
Theorem combine_chunks_trimmed_and_bounded (chunks : list pystr) :
  let result := RAGTranslationPipeline._combine_chunks chunks in
  strip result = result /\
  (len result <= total_len chunks + Z.max 0 (len_list chunks - 1))%Z.
Proof.
  cbv zeta. unfold RAGTranslationPipeline._combine_chunks.
  destruct chunks as [|first rest].
  - split; [reflexivity | cbn; lia].
  - split.
    + unfold strip at 1. rewrite lstrip_strip. apply rstrip_strip.
    + pose proof (len_strip
                    (fold_left RAGTranslationPipeline.combine_step rest first)).
      pose proof (len_fold_combine rest first).
      cbn [total_len fold_right]. unfold total_len in *.
      unfold len_list in *. cbn [length]. lia.
Qed.

(** ** The orchestrator: accounting, events, and the two modes *)

Section Orchestrator.
Variable embed : pystr -> list R.
Variable md5_hexdigest : pystr -> pystr.
Variable endpoint : nat -> pystr -> PostResult.

Local Abbreviation pipeline := RAGTranslationPipeline.t.
Local Abbreviation translate_chunk :=
  (RAGTranslationPipeline.translate_chunk md5_hexdigest endpoint).
Local Abbreviation translate_chunks :=
  (RAGTranslationPipeline.translate_chunks md5_hexdigest endpoint).
Local Abbreviation translate_document :=
  (RAGTranslationPipeline.translate_document embed md5_hexdigest endpoint).
Local Abbreviation stream_chunk :=
  (RAGTranslationPipeline.stream_chunk md5_hexdigest endpoint).
Local Abbreviation stream_chunks :=
  (RAGTranslationPipeline.stream_chunks md5_hexdigest endpoint).
Local Abbreviation translate_streaming :=
  (RAGTranslationPipeline.translate_streaming embed md5_hexdigest endpoint).

Lemma accounted_refl st w : accounted 0 st st w w.
Proof. unfold accounted. cbv zeta. lia. Qed.

Lemma accounted_trans n1 n2 st1 st2 st3 w1 w2 w3 :
  (0 <= n1)%Z -> (0 <= n2)%Z ->
  accounted n1 st1 st2 w1 w2 -> accounted n2 st2 st3 w2 w3 ->
  accounted (n1 + n2) st1 st3 w1 w3.
Proof. unfold accounted. cbv zeta. lia. Qed.

Lemma posts_pause (b : bool) w : posts (if b then sleep 300 w else w) = posts w.
Proof. now destruct b. Qed.

Lemma translate_chunk_accounted source_lang target_lang total i chunk st p w :
  match translate_chunk source_lang target_lang total i chunk st p w with
  | (Ok st', _, w') => accounted 1 st st' w w'
  | (Raise _, _, _) => True
  end.
Proof.
  unfold RAGTranslationPipeline.translate_chunk.
  destruct (TranslationCache.get md5_hexdigest
              (RAGTranslationPipeline.cache p) (DocumentChunk.text chunk))
    as [cached c].
  destruct (truthy_opt (RAGTranslationPipeline.seen cached)).
  { unfold accounted. cbv zeta.
    cbn [RAGTranslationPipeline.translated_chunks
         RAGTranslationPipeline.chunk_errors
         RAGTranslationPipeline.cached_count].
    rewrite len_list_snoc. lia. }
  cbn [RAGTranslationPipeline.generator RAGTranslationPipeline.cache
       RAGTranslationPipeline.vector_store].
  match goal with
  | |- context [GeminiGenerator.generate endpoint ?g ?w0 ?pr] =>
      pose proof (generate_bounds endpoint g w0 pr) as Hg;
      destruct (GeminiGenerator.generate endpoint g w0 pr)
        as [[[translation error] g1] w1]
  end.
  cbv zeta in Hg. cbn [fst snd] in Hg. destruct Hg as (Hp & _).
  unfold MAX_RETRIES in Hp.
  destruct (truthy_opt error).
  { unfold accounted. cbv zeta.
    cbn [RAGTranslationPipeline.translated_chunks
         RAGTranslationPipeline.chunk_errors
         RAGTranslationPipeline.cached_count].
    rewrite !len_list_snoc, posts_pause. lia. }
  cbn [RAGTranslationPipeline.generator RAGTranslationPipeline.cache
       RAGTranslationPipeline.vector_store].
  destruct (TranslationCache.set md5_hexdigest c (DocumentChunk.text chunk)
              translation) as [c'|e]; [|exact I].
  destruct translation as [tr|]; [|exact I].
  unfold accounted. cbv zeta.
  cbn [RAGTranslationPipeline.translated_chunks
       RAGTranslationPipeline.chunk_errors
       RAGTranslationPipeline.cached_count].
  rewrite len_list_snoc, posts_pause. lia.
Qed.

Lemma translate_chunks_accounted source_lang target_lang total chunks :
  forall i st p w,
    match translate_chunks source_lang target_lang total i chunks st p w with
    | (Ok st', _, w') => accounted (len_list chunks) st st' w w'
    | (Raise _, _, _) => True
    end.
Proof.
  induction chunks as [|chunk rest IH]; intros i st p w.
  - cbn [RAGTranslationPipeline.translate_chunks]. apply accounted_refl.
  - cbn [RAGTranslationPipeline.translate_chunks].
    pose proof (translate_chunk_accounted source_lang target_lang total i
                  chunk st p w) as H1.
    destruct (translate_chunk source_lang target_lang total i chunk st p w)
      as [[[st1|e] p1] w1]; [|exact I].
    specialize (IH (i + 1)%Z st1 p1 w1).
    destruct (translate_chunks source_lang target_lang total (i + 1) rest
                st1 p1 w1) as [[[st2|e] p2] w2]; [|exact I].
    replace (len_list (chunk :: rest)) with (1 + len_list rest)%Z
      by (unfold len_list; cbn [length]; lia).
    apply accounted_trans with st1 w1; auto; unfold len_list; lia.
Qed.

End Orchestrator.

Section Modes.
Variable embed : pystr -> list R.
Variable md5_hexdigest : pystr -> pystr.
Variable endpoint : nat -> pystr -> PostResult.

Local Abbreviation translate_chunk :=
  (RAGTranslationPipeline.translate_chunk md5_hexdigest endpoint).
Local Abbreviation translate_chunks :=
  (RAGTranslationPipeline.translate_chunks md5_hexdigest endpoint).
Local Abbreviation translate_document :=
  (RAGTranslationPipeline.translate_document embed md5_hexdigest endpoint).
Local Abbreviation stream_chunk :=
  (RAGTranslationPipeline.stream_chunk md5_hexdigest endpoint).
Local Abbreviation stream_chunks :=
  (RAGTranslationPipeline.stream_chunks md5_hexdigest endpoint).
Local Abbreviation translate_streaming :=
  (RAGTranslationPipeline.translate_streaming embed md5_hexdigest endpoint).

Lemma stream_chunk_events source_lang target_lang total i chunk st p w :
  match stream_chunk source_lang target_lang total i chunk st p w with
  | (evs, Ok _, _, _) => chunk_events total i [chunk] evs
  | (_, Raise _, _, _) => True
  end.
Proof.
  unfold RAGTranslationPipeline.stream_chunk.
  destruct (TranslationCache.get md5_hexdigest
              (RAGTranslationPipeline.cache p) (DocumentChunk.text chunk))
    as [cached c].
  destruct (truthy_opt (RAGTranslationPipeline.seen cached)).
  { cbn [chunk_events]. auto. }
  cbn [RAGTranslationPipeline.generator RAGTranslationPipeline.cache
       RAGTranslationPipeline.vector_store].
  match goal with
  | |- context [GeminiGenerator.generate endpoint ?g ?w0 ?pr] =>
      destruct (GeminiGenerator.generate endpoint g w0 pr)
        as [[[translation error] g1] w1]
  end.
  destruct (truthy_opt error).
  { cbn [chunk_events]. auto. }
  cbn [RAGTranslationPipeline.generator RAGTranslationPipeline.cache
       RAGTranslationPipeline.vector_store].
  destruct (TranslationCache.set md5_hexdigest c (DocumentChunk.text chunk)
              translation) as [c'|e]; [|exact I].
  destruct translation as [tr|]; [|exact I].
  cbn [chunk_events]. auto.
Qed.

Lemma chunk_events_app total chunk rest i evs1 evs2 :
  chunk_events total i [chunk] evs1 ->
  chunk_events total (i + 1) rest evs2 ->
  chunk_events total i (chunk :: rest) (evs1 ++ evs2).
Proof.
  intros H1 H2.
  destruct evs1 as [|e1 evs1]; [contradiction|].
  destruct e1; try contradiction.
  destruct evs1 as [|ev evs1]; [contradiction|].
  destruct H1 as (Hc & Ht & He & Hrest).
  destruct evs1; [|contradiction].
  cbn [app chunk_events]. auto.
Qed.

Lemma stream_chunks_events source_lang target_lang total chunks :
  forall i st p w,
    match stream_chunks source_lang target_lang total i chunks st p w with
    | (evs, Ok _, _, _) => chunk_events total i chunks evs
    | (_, Raise _, _, _) => True
    end.
Proof.
  induction chunks as [|chunk rest IH]; intros i st p w.
  - cbn [RAGTranslationPipeline.stream_chunks chunk_events]. exact I.
  - cbn [RAGTranslationPipeline.stream_chunks].
    pose proof (stream_chunk_events source_lang target_lang total i chunk
                  st p w) as H1.
    destruct (stream_chunk source_lang target_lang total i chunk st p w)
      as [[[evs1 [st1|e]] p1] w1]; [|exact I].
    specialize (IH (i + 1)%Z st1 p1 w1).
    destruct (stream_chunks source_lang target_lang total (i + 1) rest
                st1 p1 w1) as [[[evs2 [st2|e]] p2] w2]; [|exact I].
    now apply chunk_events_app.
Qed.

(** One chunk in the two modes, from the same state. *)
Lemma chunk_modes_agree source_lang target_lang total i chunk b s p w :
  RAGTranslationPipeline.previous_translation b
    = RAGTranslationPipeline.stream_previous s ->
  match translate_chunk source_lang target_lang total i chunk b p w,
        stream_chunk source_lang target_lang total i chunk s p w with
  | (Ok b', pb, wb), (_, Ok s', ps, ws) =>
      ps = pb /\ posts ws = posts wb /\
      ((i <? total - 1)%Z = true -> ws = wb) /\
      RAGTranslationPipeline.previous_translation b'
        = RAGTranslationPipeline.stream_previous s' /\
      ((RAGTranslationPipeline.chunk_errors b' = [] ->
        RAGTranslationPipeline.chunk_errors b = [] /\
        exists x,
          RAGTranslationPipeline.translated_chunks b'
            = RAGTranslationPipeline.translated_chunks b ++ [x] /\
          RAGTranslationPipeline.translated_parts s'
            = RAGTranslationPipeline.translated_parts s ++ [x]))
  | (Raise e, pb, wb), (_, Raise e', ps, ws) =>
      e' = e /\ ps = pb /\ ws = wb
  | _, _ => False
  end.
Proof.
  intros Hprev.
  unfold RAGTranslationPipeline.translate_chunk,
    RAGTranslationPipeline.stream_chunk.
  rewrite <- Hprev.
  destruct (TranslationCache.get md5_hexdigest
              (RAGTranslationPipeline.cache p) (DocumentChunk.text chunk))
    as [cached c].
  destruct (truthy_opt (RAGTranslationPipeline.seen cached)).
  { cbn [RAGTranslationPipeline.previous_translation
         RAGTranslationPipeline.stream_previous
         RAGTranslationPipeline.chunk_errors
         RAGTranslationPipeline.translated_chunks
         RAGTranslationPipeline.translated_parts].
    repeat split; auto. eexists. split; reflexivity. }
  cbn [RAGTranslationPipeline.generator RAGTranslationPipeline.cache
       RAGTranslationPipeline.vector_store].
  match goal with
  | |- context [GeminiGenerator.generate endpoint ?g ?w0 ?pr] =>
      destruct (GeminiGenerator.generate endpoint g w0 pr)
        as [[[translation error] g1] w1]
  end.
  destruct (truthy_opt error).
  { cbn [RAGTranslationPipeline.previous_translation
         RAGTranslationPipeline.stream_previous
         RAGTranslationPipeline.chunk_errors
         RAGTranslationPipeline.translated_chunks
         RAGTranslationPipeline.translated_parts].
    split; [reflexivity|]. split; [now rewrite posts_pause|].
    split; [now intros ->|]. split; [reflexivity|].
    intros H. destruct (RAGTranslationPipeline.chunk_errors b); discriminate. }
  cbn [RAGTranslationPipeline.generator RAGTranslationPipeline.cache
       RAGTranslationPipeline.vector_store].
  destruct (TranslationCache.set md5_hexdigest c (DocumentChunk.text chunk)
              translation) as [c'|e]; [|auto].
  destruct translation as [tr|]; [|auto].
  cbn [RAGTranslationPipeline.previous_translation
       RAGTranslationPipeline.stream_previous
       RAGTranslationPipeline.chunk_errors
       RAGTranslationPipeline.translated_chunks
       RAGTranslationPipeline.translated_parts].
  split; [reflexivity|]. split; [now rewrite posts_pause|].
  split; [now intros ->|]. split; [reflexivity|].
  intros H. split; [exact H|]. eexists. split; reflexivity.
Qed.

(** The loops of the two modes over the same chunks, from the same state. *)
Lemma chunks_modes_agree source_lang target_lang total chunks :
  forall i b s p w,
    (i + len_list chunks = total)%Z ->
    same_progress b s ->
    match translate_chunks source_lang target_lang total i chunks b p w,
          stream_chunks source_lang target_lang total i chunks s p w with
    | (Ok b', pb, wb), (_, Ok s', ps, ws) =>
        ps = pb /\ posts ws = posts wb /\ same_progress b' s'
    | (Raise e, pb, wb), (_, Raise e', ps, ws) =>
        e' = e /\ ps = pb /\ posts ws = posts wb
    | _, _ => False
    end.
Proof.
  induction chunks as [|chunk rest IH]; intros i b s p w Hi Hsame.
  - cbn [RAGTranslationPipeline.translate_chunks
         RAGTranslationPipeline.stream_chunks]. auto.
  - cbn [RAGTranslationPipeline.translate_chunks
         RAGTranslationPipeline.stream_chunks].
    pose proof (@chunk_modes_agree source_lang target_lang total i chunk b s
                  p w (proj1 Hsame)) as H1.
    destruct (translate_chunk source_lang target_lang total i chunk b p w)
      as [[[b1|e] pb] wb];
      destruct (stream_chunk source_lang target_lang total i chunk s p w)
        as [[[evs1 [s1|e']] ps] ws]; try contradiction.
    + destruct H1 as (-> & Hposts & Hw & Hprev & Hparts).
      assert (Hsame1 : same_progress b1 s1).
      { split; [exact Hprev|]. intros He.
        destruct (Hparts He) as (Hb & x & -> & ->).
        now rewrite (proj2 Hsame Hb). }
      destruct rest as [|chunk' rest'].
      * cbn [RAGTranslationPipeline.translate_chunks
             RAGTranslationPipeline.stream_chunks]. auto.
      * assert (Hlt : (i <? total - 1)%Z = true).
        { apply Z.ltb_lt. unfold len_list in Hi. cbn [length] in Hi. lia. }
        rewrite (Hw Hlt).
        specialize (IH (i + 1)%Z b1 s1 pb wb).
        destruct (translate_chunks source_lang target_lang total (i + 1)
                    (chunk' :: rest') b1 pb wb) as [[[b2|e] pb2] wb2];
          destruct (stream_chunks source_lang target_lang total (i + 1)
                      (chunk' :: rest') s1 pb wb)
            as [[[evs2 [s2|e']] ps2] ws2];
          apply IH; auto; unfold len_list in *; cbn [length] in *; lia.
    + destruct H1 as (-> & -> & ->). auto.
Qed.

End Modes.

(** X27.  the accounts of a run.  A run of [translate_document] that returns
    without an exception either found no text (no chunk: the pipeline and the
    surroundings are as before), or reports [total_chunks] as the number of
    chunks, with [successful_chunks + failed_chunks = total_chunks], with
    [cached_chunks + failed_chunks <= total_chunks], with [errors] present
    exactly when a chunk failed, and after at most 3 posts for each chunk that
    was not served from the cache. *)
Theorem translate_document_accounts (embed : pystr -> list R)
  (md5_hexdigest : pystr -> pystr) (endpoint : nat -> pystr -> PostResult)
  (p : RAGTranslationPipeline.t) (w : World)
  (text source_lang target_lang : pystr) :
  let chunks := SmartChunker.chunk_document text CHUNK_SIZE OVERLAP_SIZE in
  let out :=
    RAGTranslationPipeline.translate_document embed md5_hexdigest endpoint
      p w text source_lang target_lang in
  match fst (fst out) with
  | Raise _ => True
  | Ok (final_text, RAGTranslationPipeline.NoText _ n) =>
      chunks = [] /\ final_text = [] /\ n = 0%Z /\
      snd (fst out) = p /\ snd out = w
  | Ok (final_text, RAGTranslationPipeline.Run m) =>
      chunks <> [] /\
      RAGTranslationPipeline.total_chunks m = len_list chunks /\
      (RAGTranslationPipeline.successful_chunks m
       + RAGTranslationPipeline.failed_chunks m
       = RAGTranslationPipeline.total_chunks m)%Z /\
      (0 <= RAGTranslationPipeline.cached_chunks m)%Z /\
      (0 <= RAGTranslationPipeline.failed_chunks m)%Z /\
      (RAGTranslationPipeline.cached_chunks m
       + RAGTranslationPipeline.failed_chunks m
       <= RAGTranslationPipeline.total_chunks m)%Z /\
      (RAGTranslationPipeline.errors m = None <->
       RAGTranslationPipeline.failed_chunks m = 0%Z) /\
      RAGTranslationPipeline.translated_length m = len final_text /\
      (Z.of_nat (posts w) <= Z.of_nat (posts (snd out))
       <= Z.of_nat (posts w)
          + 3 * (RAGTranslationPipeline.total_chunks m
                 - RAGTranslationPipeline.cached_chunks m))%Z
  end.
Proof.
  cbv zeta. unfold RAGTranslationPipeline.translate_document. cbv zeta.
  destruct (SmartChunker.chunk_document text CHUNK_SIZE OVERLAP_SIZE)
    as [|c cs] eqn:E.
  - cbn. auto.
  - set (chunks := c :: cs).
    assert (Hz : (len_list chunks =? 0)%Z = false).
    { apply Z.eqb_neq. unfold len_list, chunks. cbn [length]. lia. }
    rewrite Hz.
    match goal with
    | |- context [RAGTranslationPipeline.translate_chunks _ _ ?sl ?tl ?tot ?i
                    ?cks ?st ?p0 ?w0] =>
        pose proof (@translate_chunks_accounted md5_hexdigest endpoint sl tl
                      tot cks i st p0 w0) as H;
        destruct (RAGTranslationPipeline.translate_chunks md5_hexdigest
                    endpoint sl tl tot i cks st p0 w0) as [[[st'|e] p'] w']
    end; [|exact I].
    cbn [fst snd RAGTranslationPipeline.total_chunks
         RAGTranslationPipeline.successful_chunks
         RAGTranslationPipeline.failed_chunks
         RAGTranslationPipeline.cached_chunks
         RAGTranslationPipeline.errors
         RAGTranslationPipeline.translated_length].
    unfold accounted in H. cbv zeta in H.
    cbn [RAGTranslationPipeline.translated_chunks
         RAGTranslationPipeline.chunk_errors
         RAGTranslationPipeline.cached_count] in H.
    change (len_list (@nil (Z * pystr))) with 0%Z in H.
    destruct H as (_ & H2 & H3 & H4 & H5).
    split; [discriminate|]. split; [reflexivity|]. split; [lia|].
    split; [lia|]. split; [lia|]. split; [lia|]. split; [|split; [reflexivity|lia]].
    unfold RAGTranslationPipeline.nonempty, len_list.
    destruct (RAGTranslationPipeline.chunk_errors st'); cbn [length];
      split; intros; try discriminate; try reflexivity; lia.
Qed.

(** X28.  the events of a streamed run.  A document without text yields the
    single event "No text to translate" and changes nothing.  Otherwise the
    first event is [start], with the number of chunks and the length of the
    text, and when the iteration is not cut short by an exception there
    follow, for each chunk in turn, a [progress] event numbered from 1 with
    the total and one [chunk_complete] or [chunk_error] event carrying the id
    of the chunk, and last a single [complete] event. *)
Theorem streaming_events_in_order (embed : pystr -> list R)
  (md5_hexdigest : pystr -> pystr) (endpoint : nat -> pystr -> PostResult)
  (p : RAGTranslationPipeline.t) (w : World)
  (text source_lang target_lang : pystr) :
  let chunks := SmartChunker.chunk_document text CHUNK_SIZE OVERLAP_SIZE in
  let out :=
    RAGTranslationPipeline.translate_streaming embed md5_hexdigest endpoint
      p w text source_lang target_lang in
  match chunks with
  | [] =>
      out = (([RAGTranslationPipeline.EvError (lit "No text to translate")],
              None), p, w)
  | _ :: _ =>
      exists evs,
        fst (fst (fst out)) =
          RAGTranslationPipeline.EvStart (len_list chunks) (len text) :: evs
        /\
        (snd (fst (fst out)) = None ->
         exists middle final_text ms stats,
           evs = middle
                   ++ [RAGTranslationPipeline.EvComplete final_text ms stats]
           /\ chunk_events (len_list chunks) 0 chunks middle)
  end.
Proof.
  cbv zeta. unfold RAGTranslationPipeline.translate_streaming. cbv zeta.
  destruct (SmartChunker.chunk_document text CHUNK_SIZE OVERLAP_SIZE)
    as [|c cs] eqn:E.
  - reflexivity.
  - set (chunks := c :: cs).
    assert (Hz : (len_list chunks =? 0)%Z = false).
    { apply Z.eqb_neq. unfold len_list, chunks. cbn [length]. lia. }
    rewrite Hz.
    match goal with
    | |- context [RAGTranslationPipeline.stream_chunks _ _ ?sl ?tl ?tot ?i
                    ?cks ?st ?p0 ?w0] =>
        pose proof (@stream_chunks_events md5_hexdigest endpoint sl tl
                      tot cks i st p0 w0) as H;
        destruct (RAGTranslationPipeline.stream_chunks md5_hexdigest
                    endpoint sl tl tot i cks st p0 w0)
          as [[[evs [st'|e]] p'] w']
    end; cbn [fst snd].
    + eexists. split; [reflexivity|]. intros _.
      eexists _, _, _, _. split; [reflexivity | exact H].
    + eexists. split; [reflexivity|]. discriminate.
Qed.

(** X29.  the two modes agree.  From the same pipeline and surroundings,
    [translate_streaming] read to its end and [translate_document] leave the
    pipeline object in the same state after the same number of posts; the
    streamed run ends with the exception of the blocking run when there is
    one; and when no chunk failed, the [complete] event of the streamed run
    carries the text that the blocking run returns. *)
Theorem streaming_agrees_with_blocking (embed : pystr -> list R)
  (md5_hexdigest : pystr -> pystr) (endpoint : nat -> pystr -> PostResult)
  (p : RAGTranslationPipeline.t) (w : World)
  (text source_lang target_lang : pystr) :
  let blocking :=
    RAGTranslationPipeline.translate_document embed md5_hexdigest endpoint
      p w text source_lang target_lang in
  let streamed :=
    RAGTranslationPipeline.translate_streaming embed md5_hexdigest endpoint
      p w text source_lang target_lang in
  snd (fst streamed) = snd (fst blocking) /\
  posts (snd streamed) = posts (snd blocking) /\
  match fst (fst blocking) with
  | Raise e => snd (fst (fst streamed)) = Some e
  | Ok (_, RAGTranslationPipeline.NoText _ _) =>
      fst (fst streamed) =
        ([RAGTranslationPipeline.EvError (lit "No text to translate")], None)
  | Ok (final_text, RAGTranslationPipeline.Run m) =>
      snd (fst (fst streamed)) = None /\
      (RAGTranslationPipeline.failed_chunks m = 0%Z ->
       exists evs ms stats,
         fst (fst (fst streamed)) =
           evs ++ [RAGTranslationPipeline.EvComplete final_text ms stats])
  end.
Proof.
  cbv zeta.
  unfold RAGTranslationPipeline.translate_document,
    RAGTranslationPipeline.translate_streaming. cbv zeta.
  destruct (SmartChunker.chunk_document text CHUNK_SIZE OVERLAP_SIZE)
    as [|c cs] eqn:E.
  - cbn. auto.
  - set (chunks := c :: cs).
    assert (Hz : (len_list chunks =? 0)%Z = false).
    { apply Z.eqb_neq. unfold len_list, chunks. cbn [length]. lia. }
    rewrite Hz.
    match goal with
    | |- context [RAGTranslationPipeline.translate_chunks _ _ ?sl ?tl ?tot ?i
                    ?cks ?st ?p0 ?w0] =>
        pose proof (@chunks_modes_agree md5_hexdigest endpoint sl tl tot cks
                      i st (RAGTranslationPipeline.mk_stream_locals [] [])
                      p0 w0 ltac:(lia)
                      (conj eq_refl (fun _ => eq_refl))) as H;
        destruct (RAGTranslationPipeline.translate_chunks md5_hexdigest
                    endpoint sl tl tot i cks st p0 w0) as [[[b'|e] pb] wb];
        destruct (RAGTranslationPipeline.stream_chunks md5_hexdigest
                    endpoint sl tl tot i cks
                    (RAGTranslationPipeline.mk_stream_locals [] []) p0 w0)
          as [[[evs [s'|e']] ps] ws]
    end; try contradiction; cbn [fst snd].
    + destruct H as (-> & Hposts & Hprev & Hparts).
      split; [reflexivity|]. split; [exact Hposts|].
      split; [reflexivity|].
      cbn [RAGTranslationPipeline.failed_chunks]. intros Hf.
      assert (He : RAGTranslationPipeline.chunk_errors b' = []).
      { destruct (RAGTranslationPipeline.chunk_errors b'); [reflexivity|].
        unfold len_list in Hf. cbn [length] in Hf. lia. }
      rewrite (Hparts He).
      eexists (_ :: evs), _, _. reflexivity.
    + destruct H as (-> & -> & Hposts). auto.
Qed.

(** ** A document translated twice *)

Section Reuse.
Variable embed : pystr -> list R.
Variable md5_hexdigest : pystr -> pystr.
Variable endpoint : nat -> pystr -> PostResult.
Hypothesis Hendpoint : never_blank endpoint.

Local Abbreviation key := (TranslationCache._hash_key md5_hexdigest).
Local Abbreviation get := (TranslationCache.get md5_hexdigest).
Local Abbreviation set := (TranslationCache.set md5_hexdigest).
Local Abbreviation cache_of := (@TranslationCache.cache (option pystr)).
Local Abbreviation tracked := (tracked md5_hexdigest).
Local Abbreviation cached_all := (cached_all md5_hexdigest).
Local Abbreviation translate_chunk :=
  (RAGTranslationPipeline.translate_chunk md5_hexdigest endpoint).
Local Abbreviation translate_chunks :=
  (RAGTranslationPipeline.translate_chunks md5_hexdigest endpoint).
Local Abbreviation translate_document :=
  (RAGTranslationPipeline.translate_document embed md5_hexdigest endpoint).

(** What is generated is not empty. *)
Lemma attempt_once_text prompt attempt g w tr error g' w' :
  GeminiGenerator.attempt_once endpoint prompt attempt g w
    = (GeminiGenerator.Return (Some tr) error, g', w') ->
  truthy tr = true.
Proof.
  unfold GeminiGenerator.attempt_once.
  destruct (endpoint (posts w) prompt) as [|e|took r] eqn:E.
  - destruct (GeminiGenerator.last_attempt attempt); discriminate.
  - destruct (GeminiGenerator.last_attempt attempt); discriminate.
  - destruct (status_code r =? 429)%Z; [discriminate|].
    destruct (status_code r =? 503)%Z; [discriminate|].
    destruct (_ && _).
    + destruct (GeminiGenerator.last_attempt attempt); discriminate.
    + destruct (payload r) as [e| |text|e] eqn:P;
        try (destruct (GeminiGenerator.last_attempt attempt); discriminate);
        try discriminate.
      intros H. injection H as <- _ _ _.
      pose proof (@Hendpoint (posts w) prompt took r text E P) as Hb.
      destruct (strip text) eqn:Es; [|reflexivity].
      apply strip_nil_iff in Es. congruence.
Qed.

Lemma attempts_text prompt remaining :
  forall attempt g w tr error g' w',
    GeminiGenerator.attempts endpoint prompt remaining attempt g w
      = ((Some tr, error), g', w') ->
    truthy tr = true.
Proof.
  induction remaining as [|n IH]; intros attempt g w tr error g' w' H.
  - discriminate.
  - cbn [GeminiGenerator.attempts] in H.
    destruct (GeminiGenerator.attempt_once endpoint prompt attempt g w)
      as [[[|text err] g1] w1] eqn:E.
    + eapply IH; eauto.
    + injection H as -> -> -> ->. eapply attempt_once_text; eauto.
Qed.

Lemma generate_text g w prompt tr error g' w' :
  GeminiGenerator.generate endpoint g w prompt = ((Some tr, error), g', w') ->
  truthy tr = true.
Proof.
  unfold GeminiGenerator.generate.
  destruct (negb _); [discriminate|].
  destruct (GeminiGenerator._rate_limit g w) as [g1 w1].
  apply attempts_text.
Qed.

(** The dictionary through a lookup and a store. *)

Lemma tracked_weaken j j' l d :
  (j <= j')%nat -> tracked j l d -> tracked j' l d.
Proof.
  revert j j'; induction l as [|[t tr] l IH]; intros j j' Hj H; [exact I|].
  destruct H as (H1 & H2 & H3). split; [|split; [exact H2|]].
  - apply parked_weaken with j; assumption.
  - apply IH with (S j); [lia | exact H3].
Qed.

Lemma tracked_move_to_end j l k d :
  tracked j l d -> tracked (S j) l (OrderedDict.move_to_end k d).
Proof.
  revert j; induction l as [|[t tr] l IH]; intros j H; [exact I|].
  destruct H as (H1 & H2 & H3). split; [|split; [exact H2 | now apply IH]].
  now apply parked_move_to_end.
Qed.

Lemma tracked_contains j l d t tr :
  tracked j l d -> In (t, tr) l -> OrderedDict.contains_key (key t) d = true.
Proof.
  revert j; induction l as [|[t' tr'] l IH]; intros j H Hin; [destruct Hin|].
  destruct H as (H1 & _ & H3). destruct Hin as [E|Hin].
  - injection E as -> ->. now apply parked_getitem in H1.
  - eapply IH; eauto.
Qed.

Lemma tracked_after_set j l (c : TranslationCache.t (option pystr)) text v :
  tracked j l (cache_of c) ->
  (Z.of_nat j + Z.of_nat (length l) < TranslationCache.max_size c)%Z ->
  OrderedDict.contains_key (key text) (cache_of c) = false ->
  tracked (S j) l
    (cache_of (TranslationCache.after_call md5_hexdigest c
                 (TranslationCache.CallSet text v))).
Proof.
  revert j; induction l as [|[t tr] l IH]; intros j H Hj Hfresh; [exact I|].
  pose proof (@tracked_contains j _ _ t tr H (or_introl eq_refl)) as Hc.
  destruct H as (H1 & H2 & H3). cbn [length] in Hj.
  split; [|split; [exact H2 | apply IH; auto; lia]].
  apply parked_after_call; [exact H1 | lia |].
  cbn. intros E. rewrite E in Hfresh. congruence.
Qed.

Lemma set_is_after_call (c c' : TranslationCache.t (option pystr)) text v :
  set c text v = Ok c' ->
  c' = TranslationCache.after_call md5_hexdigest c
         (TranslationCache.CallSet text v).
Proof. intros H. cbn [TranslationCache.after_call]. now rewrite H. Qed.

Lemma sound_after_get (c : TranslationCache.t (option pystr)) text :
  sound_cache c -> sound_cache (snd (get c text)).
Proof.
  intros [Hnd Hv]. split.
  - change (snd (get c text))
      with (TranslationCache.after_call md5_hexdigest c
              (TranslationCache.CallGet _ text)).
    now apply NoDup_keys_after_call.
  - unfold TranslationCache.get.
    destruct (OrderedDict.contains_key _ _); [|exact Hv].
    cbn [snd TranslationCache.cache]. unfold OrderedDict.move_to_end.
    destruct (OrderedDict.getitem (key text) (cache_of c)) as [v|] eqn:Eg;
      [|exact Hv].
    rewrite Forall_forall in Hv. apply Forall_forall. intros kv Hin.
    apply in_app_or in Hin. destruct Hin as [Hin|[<-|[]]].
    + apply Hv. clear - Hin. revert Hin.
      induction (cache_of c) as [|[k' v'] d IH]; simpl; [tauto|].
      destruct (Py.eqb (key text) k'); simpl; intros H; tauto.
    + cbn [snd]. clear - Eg Hv. revert Eg.
      induction (cache_of c) as [|[k' v'] d IH]; simpl; [discriminate|].
      destruct (Py.eqb (key text) k').
      * intros E. injection E as <-. apply (Hv (k', v')). now left.
      * intros E. apply IH; [|exact E]. intros x Hx. apply Hv. now right.
Qed.

Lemma Forall_setitem (P : pystr * option pystr -> Prop) k v
  (d : OrderedDict.t (option pystr)) :
  (forall k', P (k', v)) -> Forall P d -> Forall P (OrderedDict.setitem k v d).
Proof.
  intros Hv. induction 1 as [|[k' v'] d Hx Hd IH]; simpl.
  - constructor; [apply Hv | constructor].
  - destruct (Py.eqb k k'); constructor; auto.
Qed.

Lemma sound_after_set (c c' : TranslationCache.t (option pystr)) text tr :
  sound_cache c -> truthy tr = true -> set c text (Some tr) = Ok c' ->
  sound_cache c'.
Proof.
  intros [Hnd Hv] Htr Hset. split.
  - rewrite (@set_is_after_call c c' text (Some tr) Hset). now apply NoDup_keys_after_call.
  - unfold TranslationCache.set in Hset.
    destruct (_ <=? _)%Z.
    + unfold OrderedDict.popitem_first in Hset.
      destruct (cache_of c) as [|e d]; [discriminate|].
      injection Hset as <-. cbn [TranslationCache.cache].
      apply Forall_setitem; [intros; exact Htr|].
      now apply Forall_cons_iff in Hv.
    + injection Hset as <-. cbn [TranslationCache.cache].
      apply Forall_setitem; [intros; exact Htr | exact Hv].
Qed.

(** A hit in a sound cache. *)
Lemma get_sound_hit (c : TranslationCache.t (option pystr)) text :
  sound_cache c ->
  OrderedDict.contains_key (key text) (cache_of c) = true ->
  exists tr,
    truthy tr = true /\
    fst (get c text) = Some (Some tr) /\
    parked (key text) (Some tr) 0 (cache_of (snd (get c text))) /\
    cache_of (snd (get c text))
      = OrderedDict.move_to_end (key text) (cache_of c).
Proof.
  intros [Hnd Hv] Hc.
  destruct (@contains_key_getitem _ _ _ Hc) as [v Hg].
  assert (Htv : truthy_opt v = true).
  { clear - Hg Hv. revert Hg.
    induction (cache_of c) as [|[k' v'] d IH]; simpl; [discriminate|].
    apply Forall_cons_iff in Hv as [Hv1 Hv2].
    destruct (Py.eqb (key text) k').
    - intros E. injection E as <-. exact Hv1.
    - now apply IH. }
  destruct v as [tr|]; [|discriminate].
  rewrite (@get_hit _ md5_hexdigest c text (Some tr) Hg Hnd).
  cbn [fst snd TranslationCache.cache].
  exists tr. split; [exact Htv|]. split; [reflexivity|]. split.
  - exists (OrderedDict.delitem (key text) (cache_of c)), [].
    split; [reflexivity|]. split.
    + now apply keys_delitem_NoDup.
    + split; [intros [] | simpl; lia].
  - unfold OrderedDict.move_to_end. now rewrite Hg.
Qed.

Lemma max_size_after_get (c : TranslationCache.t (option pystr)) text :
  TranslationCache.max_size (snd (get c text)) = TranslationCache.max_size c.
Proof.
  unfold TranslationCache.get. now destruct (OrderedDict.contains_key _ _).
Qed.

Lemma get_miss_cache (c : TranslationCache.t (option pystr)) text :
  OrderedDict.contains_key (key text) (cache_of c) = false ->
  fst (get c text) = None /\ cache_of (snd (get c text)) = cache_of c.
Proof. intros H. unfold TranslationCache.get. rewrite H. auto. Qed.

(** One chunk of the first run, when it did not fail. *)
Lemma translate_chunk_tracks source_lang target_lang total i chunk st p w l
  st' p' w' :
  sound_cache (RAGTranslationPipeline.cache p) ->
  tracked 0 l (cache_of (RAGTranslationPipeline.cache p)) ->
  (Z.of_nat (length l)
   < TranslationCache.max_size (RAGTranslationPipeline.cache p))%Z ->
  translate_chunk source_lang target_lang total i chunk st p w
    = (Ok st', p', w') ->
  RAGTranslationPipeline.chunk_errors st'
    = RAGTranslationPipeline.chunk_errors st ->
  exists tr,
    RAGTranslationPipeline.translated_chunks st'
      = RAGTranslationPipeline.translated_chunks st ++ [tr] /\
    sound_cache (RAGTranslationPipeline.cache p') /\
    tracked 0 ((DocumentChunk.text chunk, tr) :: l)
      (cache_of (RAGTranslationPipeline.cache p')) /\
    TranslationCache.max_size (RAGTranslationPipeline.cache p')
      = TranslationCache.max_size (RAGTranslationPipeline.cache p).
Proof.
  intros Hsound Htr Hlen.
  unfold RAGTranslationPipeline.translate_chunk.
  set (c0 := RAGTranslationPipeline.cache p) in *.
  set (text := DocumentChunk.text chunk).
  pose proof (@sound_after_get c0 text Hsound) as Hsound1.
  pose proof (max_size_after_get c0 text) as Hmax1.
  destruct (OrderedDict.contains_key (key text) (cache_of c0)) eqn:Ec.
  - (* a hit *)
    destruct (@get_sound_hit c0 text Hsound Ec) as (tr & Ht & Hf & Hp & Hd).
    destruct (get c0 text) as [cached c1]. cbn [fst snd] in *.
    subst cached. cbn [RAGTranslationPipeline.seen truthy_opt].
    rewrite Ht.
    intros H _. injection H as <- <- <-.
    cbn [RAGTranslationPipeline.translated_chunks
         RAGTranslationPipeline.cache].
    exists tr. split; [reflexivity|]. split; [exact Hsound1|].
    split; [|exact Hmax1].
    split; [exact Hp|]. split; [exact Ht|].
    rewrite Hd. now apply tracked_move_to_end.
  - (* a miss *)
    destruct (@get_miss_cache c0 text Ec) as (Hf & Hd).
    destruct (get c0 text) as [cached c1]. cbn [fst snd] in *.
    subst cached. cbn [RAGTranslationPipeline.seen truthy_opt].
    cbn [RAGTranslationPipeline.generator RAGTranslationPipeline.cache
         RAGTranslationPipeline.vector_store].
    match goal with
    | |- context [GeminiGenerator.generate endpoint ?g ?w0 ?pr] =>
        pose proof (@generate_text g w0 pr) as Hg;
        destruct (GeminiGenerator.generate endpoint g w0 pr)
          as [[[translation error] g1] w1]
    end.
    destruct (truthy_opt error).
    { intros H He. injection H as <- _ _.
      cbn [RAGTranslationPipeline.chunk_errors] in He.
      exfalso. apply (f_equal (@length _)) in He.
      rewrite length_app in He. simpl in He. lia. }
    cbn [RAGTranslationPipeline.generator RAGTranslationPipeline.cache
         RAGTranslationPipeline.vector_store].
    destruct (set c1 text translation) as [c2|e] eqn:Es; [|discriminate].
    destruct translation as [tr|]; [|discriminate].
    specialize (Hg tr error g1 w1 eq_refl).
    intros H _. injection H as <- <- <-.
    cbn [RAGTranslationPipeline.translated_chunks
         RAGTranslationPipeline.cache].
    assert (Hfresh : OrderedDict.contains_key (key text) (cache_of c1) = false)
      by (rewrite Hd; exact Ec).
    exists tr. split; [reflexivity|].
    split; [eapply sound_after_set; eauto|].
    pose proof (@set_is_after_call c1 c2 text (Some tr) Es) as Hc2.
    assert (Hm2 : TranslationCache.max_size c2 = TranslationCache.max_size c1).
    { rewrite Hc2. apply after_call_max_size. }
    split; [|congruence].
    split; [|split; [exact Hg|]].
    + destruct (@set_fresh_parked _ md5_hexdigest c1 text (Some tr))
        as (c2' & Es' & Hp & _); [lia | exact Hfresh |].
      rewrite Es in Es'. injection Es' as <-. exact Hp.
    + rewrite Hc2. apply tracked_after_set.
      * rewrite Hd. exact Htr.
      * rewrite Hmax1. lia.
      * exact Hfresh.
Qed.

Lemma errors_grow source_lang target_lang total chunks :
  forall i st p w st' p' w',
    translate_chunks source_lang target_lang total i chunks st p w
      = (Ok st', p', w') ->
    (length (RAGTranslationPipeline.chunk_errors st)
     <= length (RAGTranslationPipeline.chunk_errors st'))%nat.
Proof.
  intros i st p w st' p' w' H.
  pose proof (@translate_chunks_accounted md5_hexdigest endpoint source_lang
                target_lang total chunks i st p w) as Ha.
  rewrite H in Ha. unfold accounted, len_list in Ha. cbv zeta in Ha. lia.
Qed.

Lemma chunk_errors_step source_lang target_lang total i chunk st p w st' p'
  w' :
  translate_chunk source_lang target_lang total i chunk st p w
    = (Ok st', p', w') ->
  RAGTranslationPipeline.chunk_errors st'
    = RAGTranslationPipeline.chunk_errors st \/
  exists e,
    RAGTranslationPipeline.chunk_errors st'
      = RAGTranslationPipeline.chunk_errors st ++ [e].
Proof.
  unfold RAGTranslationPipeline.translate_chunk.
  destruct (get _ _) as [cached c].
  destruct (truthy_opt (RAGTranslationPipeline.seen cached)).
  { intros H. injection H as <- _ _. now left. }
  destruct (GeminiGenerator.generate _ _ _ _) as [[[translation error] g1] w1].
  destruct (truthy_opt error).
  { intros H. injection H as <- _ _. right. eexists. reflexivity. }
  destruct (set _ _ _) as [c'|e]; [|discriminate].
  destruct translation; [|discriminate].
  intros H. injection H as <- _ _. now left.
Qed.

(** The first run, when no chunk failed. *)
Lemma translate_chunks_track source_lang target_lang total chunks :
  forall i st p w l st' p' w',
    sound_cache (RAGTranslationPipeline.cache p) ->
    tracked 0 l (cache_of (RAGTranslationPipeline.cache p)) ->
    (Z.of_nat (length l) + Z.of_nat (length chunks)
     <= TranslationCache.max_size (RAGTranslationPipeline.cache p))%Z ->
    translate_chunks source_lang target_lang total i chunks st p w
      = (Ok st', p', w') ->
    RAGTranslationPipeline.chunk_errors st'
      = RAGTranslationPipeline.chunk_errors st ->
    exists trs,
      length trs = length chunks /\
      RAGTranslationPipeline.translated_chunks st'
        = RAGTranslationPipeline.translated_chunks st ++ trs /\
      sound_cache (RAGTranslationPipeline.cache p') /\
      tracked 0
        (rev (combine (map DocumentChunk.text chunks) trs) ++ l)
        (cache_of (RAGTranslationPipeline.cache p')).
Proof.
  induction chunks as [|chunk rest IH];
    intros i st p w l st' p' w' Hsound Htr Hlen Hrun He.
  - cbn [RAGTranslationPipeline.translate_chunks] in Hrun.
    injection Hrun as <- <- <-. exists []. rewrite app_nil_r. auto.
  - cbn [RAGTranslationPipeline.translate_chunks] in Hrun.
    destruct (translate_chunk source_lang target_lang total i chunk st p w)
      as [[[st1|e] p1] w1] eqn:E1; [|discriminate].
    assert (He1 : RAGTranslationPipeline.chunk_errors st1
                  = RAGTranslationPipeline.chunk_errors st).
    { destruct (@chunk_errors_step source_lang target_lang total i chunk st
                  p w st1 p1 w1 E1) as [H|[e H]];
        [exact H|]. exfalso.
      pose proof (@errors_grow source_lang target_lang total rest (i + 1)%Z
                    st1 p1 w1 st' p' w' Hrun) as Hg.
      rewrite He, H, length_app in Hg. simpl in Hg. lia. }
    cbn [length] in Hlen.
    destruct (@translate_chunk_tracks source_lang target_lang total i chunk
                st p w l st1 p1 w1 Hsound Htr ltac:(lia) E1 He1)
      as (tr & Ht1 & Hsound1 & Htr1 & Hmax1).
    destruct (IH (i + 1)%Z st1 p1 w1 ((DocumentChunk.text chunk, tr) :: l)
                st' p' w' Hsound1 Htr1
                ltac:(rewrite Hmax1; cbn [length]; lia) Hrun
                ltac:(congruence))
      as (trs & Hl & Ht & Hsound' & Htr').
    exists (tr :: trs). split; [cbn [length]; lia|].
    split; [rewrite Ht, Ht1, <- app_assoc; reflexivity|].
    split; [exact Hsound'|].
    cbn [map combine rev]. rewrite <- app_assoc. exact Htr'.
Qed.

(** The second run. *)

Lemma tracked_cached_all j l d : tracked j l d -> cached_all l d.
Proof.
  revert j; induction l as [|[t tr] l IH]; intros j H; [constructor|].
  destruct H as (H1 & H2 & H3). constructor; [|eapply IH; eauto].
  split; [exact H2 | now exists j].
Qed.

Lemma cached_all_move_to_end l k d :
  cached_all l d -> cached_all l (OrderedDict.move_to_end k d).
Proof.
  intros H. eapply Forall_impl; [|exact H].
  intros [t tr] (H1 & j & H2). split; [exact H1|].
  exists (S j). now apply parked_move_to_end.
Qed.

Lemma translate_chunk_cached source_lang target_lang total i chunk st p w l
  tr :
  cached_all l (cache_of (RAGTranslationPipeline.cache p)) ->
  In (DocumentChunk.text chunk, tr) l ->
  exists st' p',
    translate_chunk source_lang target_lang total i chunk st p w
      = (Ok st', p', w) /\
    RAGTranslationPipeline.translated_chunks st'
      = RAGTranslationPipeline.translated_chunks st ++ [tr] /\
    RAGTranslationPipeline.chunk_errors st'
      = RAGTranslationPipeline.chunk_errors st /\
    RAGTranslationPipeline.cached_count st'
      = (RAGTranslationPipeline.cached_count st + 1)%Z /\
    cached_all l (cache_of (RAGTranslationPipeline.cache p')) /\
    RAGTranslationPipeline.generator p' = RAGTranslationPipeline.generator p.
Proof.
  intros Hall Hin.
  pose proof (proj1 (Forall_forall _ _) Hall _ Hin) as (Ht & j & Hp).
  cbn [fst snd] in Ht, Hp.
  destruct (@parked_getitem _ _ _ j _ Hp) as (Hc & _ & Hg).
  unfold RAGTranslationPipeline.translate_chunk.
  unfold TranslationCache.get. rewrite Hc, Hg.
  cbn [RAGTranslationPipeline.seen truthy_opt]. rewrite Ht.
  eexists _, _. split; [reflexivity|].
  cbn [RAGTranslationPipeline.translated_chunks
       RAGTranslationPipeline.chunk_errors
       RAGTranslationPipeline.cached_count
       RAGTranslationPipeline.cache RAGTranslationPipeline.generator
       TranslationCache.cache].
  repeat split; auto. now apply cached_all_move_to_end.
Qed.

Lemma translate_chunks_cached source_lang target_lang total chunks :
  forall trs i st p w l,
    length trs = length chunks ->
    cached_all l (cache_of (RAGTranslationPipeline.cache p)) ->
    incl (combine (map DocumentChunk.text chunks) trs) l ->
    exists st' p',
      translate_chunks source_lang target_lang total i chunks st p w
        = (Ok st', p', w) /\
      RAGTranslationPipeline.translated_chunks st'
        = RAGTranslationPipeline.translated_chunks st ++ trs /\
      RAGTranslationPipeline.chunk_errors st'
        = RAGTranslationPipeline.chunk_errors st /\
      RAGTranslationPipeline.cached_count st'
        = (RAGTranslationPipeline.cached_count st + len_list chunks)%Z.
Proof.
  induction chunks as [|chunk rest IH]; intros trs i st p w l Hl Hall Hincl.
  - destruct trs; [|discriminate]. exists st, p.
    cbn [RAGTranslationPipeline.translate_chunks].
    rewrite app_nil_r. unfold len_list. cbn [length]. repeat split; lia.
  - destruct trs as [|tr trs]; [discriminate|].
    cbn [map combine] in Hincl.
    destruct (@translate_chunk_cached source_lang target_lang total i chunk
                st p w l tr Hall (Hincl _ (or_introl eq_refl)))
      as (st1 & p1 & E1 & T1 & R1 & C1 & Hall1 & _).
    destruct (IH trs (i + 1)%Z st1 p1 w l ltac:(cbn [length] in Hl; lia)
                Hall1 ltac:(intros x Hx; apply Hincl; now right))
      as (st2 & p2 & E2 & T2 & R2 & C2).
    exists st2, p2. cbn [RAGTranslationPipeline.translate_chunks].
    rewrite E1, E2. split; [reflexivity|].
    split; [rewrite T2, T1, <- app_assoc; reflexivity|].
    split; [congruence|].
    rewrite C2, C1. unfold len_list. cbn [length]. lia.
Qed.

(** The two runs. *)
Lemma translate_document_twice p w text source_lang target_lang :
  sound_cache (RAGTranslationPipeline.cache p) ->
  (len_list (SmartChunker.chunk_document text CHUNK_SIZE OVERLAP_SIZE)
   <= TranslationCache.max_size (RAGTranslationPipeline.cache p))%Z ->
  let out := translate_document p w text source_lang target_lang in
  match fst (fst out) with
  | Ok (final_text, RAGTranslationPipeline.Run m) =>
      RAGTranslationPipeline.failed_chunks m = 0%Z ->
      forall w2 source_lang2 target_lang2,
      exists m2 p2,
        translate_document (snd (fst out)) w2 text source_lang2 target_lang2
        = (Ok (final_text, RAGTranslationPipeline.Run m2), p2, w2) /\
        RAGTranslationPipeline.cached_chunks m2
          = RAGTranslationPipeline.total_chunks m2 /\
        RAGTranslationPipeline.failed_chunks m2 = 0%Z
  | _ => True
  end.
Proof.
  intros Hsound Hlen. cbv zeta.
  unfold RAGTranslationPipeline.translate_document. cbv zeta.
  destruct (SmartChunker.chunk_document text CHUNK_SIZE OVERLAP_SIZE)
    as [|c cs] eqn:E.
  - cbn. exact I.
  - set (chunks := c :: cs) in *.
    assert (Hz : (len_list chunks =? 0)%Z = false).
    { apply Z.eqb_neq. unfold len_list, chunks. cbn [length]. lia. }
    rewrite Hz.
    match goal with
    | |- context [RAGTranslationPipeline.translate_chunks _ _ ?sl ?tl ?tot ?i
                    ?cks ?st ?p0 ?w0] =>
        destruct (RAGTranslationPipeline.translate_chunks md5_hexdigest
                    endpoint sl tl tot i cks st p0 w0)
          as [[[st1|e] p1] w1] eqn:Erun; [|exact I];
        pose proof (@translate_chunks_track sl tl tot cks i st p0 w0 []
                      st1 p1 w1) as Htrack
    end.
    cbn [fst snd RAGTranslationPipeline.failed_chunks].
    intros Hfailed w2 sl2 tl2.
    cbn [RAGTranslationPipeline.cache RAGTranslationPipeline.chunk_errors
         RAGTranslationPipeline.translated_chunks length] in Htrack.
    destruct Htrack as (trs & Hl & Ht & Hsound1 & Htr1);
      [exact Hsound | exact I | unfold len_list in Hlen; lia | exact Erun | |].
    { destruct (RAGTranslationPipeline.chunk_errors st1); [reflexivity|].
      unfold len_list in Hfailed. cbn [length] in Hfailed. lia. }
    rewrite app_nil_r in Htr1. cbn [app] in Ht.
    match goal with
    | |- context [RAGTranslationPipeline.translate_chunks _ _ ?sl ?tl ?tot ?i
                    ?cks ?st ?p0 ?w0] =>
        destruct (@translate_chunks_cached sl tl tot cks trs i st p0 w0
                    (rev (combine (map DocumentChunk.text cks) trs)))
          as (st2 & p2 & E2 & T2 & R2 & C2)
    end.
    + exact Hl.
    + cbn [RAGTranslationPipeline.cache]. eapply tracked_cached_all; eauto.
    + intros x Hx. now apply -> in_rev.
    + rewrite E2.
      cbn [RAGTranslationPipeline.translated_chunks
           RAGTranslationPipeline.chunk_errors
           RAGTranslationPipeline.cached_count app] in T2, R2, C2.
      rewrite T2, R2, C2, Ht.
      eexists _, _. split; [reflexivity|].
      cbn [RAGTranslationPipeline.cached_chunks
           RAGTranslationPipeline.total_chunks
           RAGTranslationPipeline.failed_chunks].
      split; [lia | reflexivity].
Qed.

End Reuse.

(** X30.  a document translated twice.  Suppose the endpoint never generates a
    blank text, the cache is sound (no key twice, no empty value) and the
    document has no more chunks than the cache has room for.  When a run of
    [translate_document] ends with no failed chunk, a second run on the same
    text, in whatever surroundings and for whatever languages, posts nothing
    and sleeps for nothing (the surroundings are left as they were): every
    chunk is served from the cache ([cached_chunks = total_chunks]) and the
    text returned is the text of the first run.  The cache key is the text
    of the chunk alone. *)
Theorem repeated_document_is_served_from_cache (embed : pystr -> list R)
  (md5_hexdigest : pystr -> pystr) (endpoint : nat -> pystr -> PostResult)
  (p p1 : RAGTranslationPipeline.t) (w w1 w2 : World)
  (text source_lang target_lang source_lang2 target_lang2 final_text : pystr)
  (m : RAGTranslationPipeline.RunMetadata) :
  never_blank endpoint ->
  sound_cache (RAGTranslationPipeline.cache p) ->
  (len_list (SmartChunker.chunk_document text CHUNK_SIZE OVERLAP_SIZE)
   <= TranslationCache.max_size (RAGTranslationPipeline.cache p))%Z ->
  RAGTranslationPipeline.translate_document embed md5_hexdigest endpoint
    p w text source_lang target_lang
  = (Ok (final_text, RAGTranslationPipeline.Run m), p1, w1) ->
  RAGTranslationPipeline.failed_chunks m = 0%Z ->
  exists m2 p2,
    RAGTranslationPipeline.translate_document embed md5_hexdigest endpoint
      p1 w2 text source_lang2 target_lang2
    = (Ok (final_text, RAGTranslationPipeline.Run m2), p2, w2) /\
    RAGTranslationPipeline.cached_chunks m2
      = RAGTranslationPipeline.total_chunks m2 /\
    RAGTranslationPipeline.failed_chunks m2 = 0%Z.
Proof.
  intros H1 H2 H3 Hrun Hfailed.
  pose proof (@translate_document_twice embed md5_hexdigest endpoint H1 p w
                text source_lang target_lang H2 H3) as H.
  cbv zeta in H. rewrite Hrun in H. cbn [fst snd] in H.
  exact (H Hfailed w2 source_lang2 target_lang2).
Qed.

Lemma repeated_document_is_served_from_cache_witness :
  exists final_text m p1 w1 m2 p2,
    RAGTranslationPipeline.translate_document Fixture.embed
      Example.md5_hexdigest Example.endpoint_429_429_ok Fixture.pipeline
      Fixture.world Example.short_document (lit "Urdu") (lit "English")
    = (Ok (final_text, RAGTranslationPipeline.Run m), p1, w1) /\
    RAGTranslationPipeline.failed_chunks m = 0%Z /\
    RAGTranslationPipeline.translate_document Fixture.embed
      Example.md5_hexdigest Example.endpoint_429_429_ok p1 w1
      Example.short_document (lit "Hindi") (lit "English")
    = (Ok (final_text, RAGTranslationPipeline.Run m2), p2, w1) /\
    RAGTranslationPipeline.cached_chunks m2
      = RAGTranslationPipeline.total_chunks m2.
Proof.
  remember (RAGTranslationPipeline.translate_document Fixture.embed
              Example.md5_hexdigest Example.endpoint_429_429_ok
              Fixture.pipeline Fixture.world Example.short_document
              (lit "Urdu") (lit "English")) as out eqn:Hrun.
  symmetry in Hrun. pose proof Hrun as Hout. vm_compute in Hout.
  match type of Hout with
  | (Ok (?f, RAGTranslationPipeline.Run ?m0), ?p0, ?w0) = _ =>
      assert (Hfailed : RAGTranslationPipeline.failed_chunks m0 = 0%Z)
        by reflexivity;
      rewrite <- Hout in Hrun;
      destruct (@repeated_document_is_served_from_cache Fixture.embed
                  Example.md5_hexdigest Example.endpoint_429_429_ok
                  Fixture.pipeline p0 Fixture.world w0 w0
                  Example.short_document (lit "Urdu") (lit "English")
                  (lit "Hindi") (lit "English") f m0)
        as (m2 & p2 & Hrun2 & Hcached & _);
      [ | | | exact Hrun | exact Hfailed
        | exists f, m0, p0, w0, m2, p2; rewrite <- Hout; auto ]
  end.
  - intros n prompt took r text H P. unfold Example.endpoint_429_429_ok in H.
    destruct (n <? 2); injection H as <- <-; cbn [payload] in P;
      [discriminate|]. injection P as <-. reflexivity.
  - split; constructor.
  - rewrite short_document_chunks. vm_compute. discriminate.
Defined.
